(** * Workona export tools: the bookmark renderer and the quote patch

    A shallow embedding of [workona.py]: the Python values the code works
    on, the PyYAML reader operations the quote patch calls, the patch, the
    composer hook that triggers it, and [make_bookmarks], first over
    immutable trees and then over a store of mutable objects. *)

From Stdlib Require Import ZArith List String Ascii Bool Lia.
From Stdlib Require Import DecimalString.
From stdpp Require Import base list.
Import ListNotations.
Set Warnings "-register-all".
Local Open Scope Z_scope.

(* ===================================================================== *)
(** ** Python strings                                                      *)
(* ===================================================================== *)

(** A Python [str] is a sequence of Unicode code points. *)
Notation char := N (only parsing).
Notation pystr := (list N) (only parsing).

(** An ASCII literal of the source as a [pystr]. *)
Definition lit (s : string) : pystr := map N_of_ascii (list_ascii_of_string s).

Definition ch_nul : char := 0%N.
Definition ch_tab : char := 9%N.
Definition ch_lf : char := 10%N.
Definition ch_cr : char := 13%N.
Definition ch_space : char := 32%N.
Definition ch_dquote : char := 34%N.
Definition ch_backslash : char := 92%N.
Definition ch_nel : char := 133%N.    (* \x85 *)
Definition ch_ls : char := 8232%N.    (*   *)
Definition ch_ps : char := 8233%N.    (*   *)

Definition str_eqb (a b : pystr) : bool := bool_decide (a = b).

(** [sep.join(parts)]. *)
Fixpoint join (sep : pystr) (parts : list pystr) : pystr :=
  match parts with
  | [] => []
  | [p] => p
  | p :: rest => p ++ sep ++ join sep rest
  end.

(** [needle in hay] on two strings: the substring test. *)
Fixpoint is_prefix (p s : pystr) : bool :=
  match p, s with
  | [], _ => true
  | _ :: _, [] => false
  | a :: p', b :: s' => (a =? b)%N && is_prefix p' s'
  end.

Fixpoint is_substring (needle hay : pystr) : bool :=
  is_prefix needle hay ||
  match hay with
  | [] => false
  | _ :: hay' => is_substring needle hay'
  end.

(** [str(n)] for an [int]. *)
Definition str_of_int (z : Z) : pystr := lit (NilZero.string_of_int (Z.to_int z)).

(* ===================================================================== *)
(** ** Exceptions and results                                              *)
(* ===================================================================== *)

(** The exceptions the modelled code can raise.  [KeyError] and
    [IndexError] are Python's lookup errors; [ReaderError] and
    [ScannerError] are PyYAML's; [OverflowError] is what a stream raises
    when asked to read a size that does not fit its C integer;
    [SystemError] stands for what no run reaches (a reference to no
    object, a loop bound that was too small). *)
Inductive exn : Type :=
| KeyError
| IndexError
| TypeError
| AttributeError
| ValueError
| ReaderError
| ScannerError
| OverflowError
| SystemError.

Inductive result (A : Type) : Type :=
| Ok (a : A)
| Raise (e : exn).
Arguments Ok {A} a.
Arguments Raise {A} e.

Definition bind {A B} (m : result A) (k : A -> result B) : result B :=
  match m with
  | Ok a => k a
  | Raise e => Raise e
  end.

Notation "x <- m ;; k" := (bind m (fun x => k))
  (at level 100, m at next level, right associativity).

(* ===================================================================== *)
(** ** Python values                                                       *)
(* ===================================================================== *)

(** The hashable scalars of an export tree: they are the keys of a [dict]
    and the leaves of the tree.  Floats are left out. *)
Inductive atom : Type :=
| ANone
| ABool (b : bool)
| AInt (z : Z)
| AStr (s : pystr).

(** An export tree as [json.loads] or [yaml_load] returns it.  A [dict]
    keeps its insertion order, which is the order [enumerate] sees. *)
Inductive pyval : Type :=
| PAtom (a : atom)
| PList (xs : list pyval)
| PDict (kvs : list (atom * pyval)).

Coercion PAtom : atom >-> pyval.

Definition PStr (s : string) : pyval := PAtom (AStr (lit s)).
Definition PInt (z : Z) : pyval := PAtom (AInt z).
Definition key (s : string) : atom := AStr (lit s).

(** The integer a [bool] or [int] stands for ([True == 1]). *)
Definition atom_int (a : atom) : option Z :=
  match a with
  | AInt z => Some z
  | ABool b => Some (if b then 1 else 0)
  | _ => None
  end.

(** [a == b] on scalars. *)
Definition atom_eqb (a b : atom) : bool :=
  match a, b with
  | ANone, ANone => true
  | AStr s, AStr t => str_eqb s t
  | _, _ =>
      match atom_int a, atom_int b with
      | Some x, Some y => x =? y
      | _, _ => false
      end
  end.

(** [i == v] for an [int] [i] and any value [v]: a list or a dict never
    equals an integer. *)
Definition int_eq (i : Z) (v : pyval) : bool :=
  match v with
  | PAtom a => atom_eqb (AInt i) a
  | _ => false
  end.

(** Lookup in the items of a dict. *)
Fixpoint dict_lookup {V} (k : atom) (kvs : list (atom * V)) : option V :=
  match kvs with
  | [] => None
  | (k', v) :: rest => if atom_eqb k k' then Some v else dict_lookup k rest
  end.

Definition dict_has {V} (k : atom) (kvs : list (atom * V)) : bool :=
  match dict_lookup k kvs with
  | Some _ => true
  | None => false
  end.

(** [d[k] = v] on the items of a dict: an existing key keeps its place. *)
Fixpoint dict_store {V} (k : atom) (v : V) (kvs : list (atom * V)) : list (atom * V) :=
  match kvs with
  | [] => [(k, v)]
  | (k', v') :: rest =>
      if atom_eqb k k' then (k', v) :: rest else (k', v') :: dict_store k v rest
  end.

(** [xs[i]] for a sequence, with Python's negative indices. *)
Definition seq_index {V} (xs : list V) (i : Z) : result V :=
  let n := Z.of_nat (length xs) in
  let j := if i <? 0 then i + n else i in
  if (0 <=? j) && (j <? n) then
    match xs !! Z.to_nat j with
    | Some v => Ok v
    | None => Raise IndexError
    end
  else Raise IndexError.

(** [c[k]]. *)
Definition getitem (c : pyval) (k : pyval) : result pyval :=
  match c with
  | PDict kvs =>
      match k with
      | PAtom a =>
          match dict_lookup a kvs with
          | Some v => Ok v
          | None => Raise KeyError
          end
      | _ => Raise TypeError
      end
  | PList xs =>
      match k with
      | PAtom a =>
          match atom_int a with
          | Some i => seq_index xs i
          | None => Raise TypeError
          end
      | _ => Raise TypeError
      end
  | PAtom (AStr s) =>
      match k with
      | PAtom a =>
          match atom_int a with
          | Some i => c <- seq_index s i ;; Ok (PAtom (AStr [c]))
          | None => Raise TypeError
          end
      | _ => Raise TypeError
      end
  | PAtom _ => Raise TypeError
  end.

(** [c.get(k, default)]: only a dict has the method. *)
Definition get_default (c : pyval) (k : atom) (default : pyval) : result pyval :=
  match c with
  | PDict kvs =>
      match dict_lookup k kvs with
      | Some v => Ok v
      | None => Ok default
      end
  | _ => Raise AttributeError
  end.

(** [s in c] for a string [s]. *)
Definition contains (s : pystr) (c : pyval) : result bool :=
  match c with
  | PDict kvs => Ok (dict_has (AStr s) kvs)
  | PList xs =>
      Ok (existsb (fun v => match v with
                            | PAtom a => atom_eqb (AStr s) a
                            | _ => false
                            end) xs)
  | PAtom (AStr t) => Ok (is_substring s t)
  | PAtom _ => Raise TypeError
  end.

(** The values a [for] loop over [c] sees: the keys of a dict, the
    elements of a list, the characters of a string. *)
Definition iterate (c : pyval) : result (list pyval) :=
  match c with
  | PDict kvs => Ok (map (fun kv => PAtom (fst kv)) kvs)
  | PList xs => Ok xs
  | PAtom (AStr s) => Ok (map (fun c => PAtom (AStr [c])) s)
  | PAtom _ => Raise TypeError
  end.

(** [for idx, value in enumerate(items)], threading the loop state. *)
Fixpoint for_enumerate {S} (body : S -> Z -> pyval -> result S)
    (idx : Z) (items : list pyval) (s : S) : result S :=
  match items with
  | [] => Ok s
  | value :: rest => s' <- body s idx value ;; for_enumerate body (idx + 1) rest s'
  end.

(** [title in workspaces] for a list of title strings: only an equal
    string is found. *)
Definition title_in (title : pyval) (workspaces : list pystr) : bool :=
  match title with
  | PAtom (AStr s) => existsb (str_eqb s) workspaces
  | _ => false
  end.

(** Truth value of the [workspaces] argument: [None] and the empty
    collection are false. *)
Definition truthy (workspaces : option (list pystr)) : bool :=
  match workspaces with
  | Some (_ :: _) => true
  | _ => false
  end.

(* ===================================================================== *)
(** ** [make_bookmarks] over export trees                                  *)
(* ===================================================================== *)

Section Renderer.

(** [str(v)] of a list or a dict is Python's [repr], a builtin that is
    left abstract: every result below holds whatever it prints. *)
Variable repr : pyval -> pystr.

(** What an f-string field [{v}] prints. *)
Definition to_str (v : pyval) : pystr :=
  match v with
  | PAtom ANone => lit "None"
  | PAtom (ABool true) => lit "True"
  | PAtom (ABool false) => lit "False"
  | PAtom (AInt z) => str_of_int z
  | PAtom (AStr s) => s
  | _ => repr v
  end.

Definition wrapper : pystr := lit "Workona Export".

Definition doctype_line : pystr := lit "<!DOCTYPE NETSCAPE-Bookmark-file-1>".
Definition meta_line : pystr :=
  lit "<!<META HTTP-EQUIV=" ++ [ch_dquote] ++ lit "Content-Type" ++ [ch_dquote]
  ++ lit " CONTENT=" ++ [ch_dquote] ++ lit "text/html; charset=UTF-8" ++ [ch_dquote]
  ++ lit ">".
Definition list_open : pystr := lit "<DL><p>".
Definition wrapper_open : pystr :=
  lit "<DT><H3 FOLDED>" ++ wrapper ++ lit "</H3>" ++ [ch_lf] ++ lit "<DL>".
Definition wrapper_close : pystr := lit "</DL></DT>".
Definition list_close : pystr := lit "</DL>".

Definition workspace_heading (title : pyval) : pystr :=
  [ch_tab] ++ lit "<DT><H3 FOLDED>" ++ to_str title ++ lit "</H3>".
Definition tabs_open : pystr := [ch_tab; ch_tab] ++ lit "<DL><p>".
Definition tab_line (url desc : pyval) : pystr :=
  [ch_tab; ch_tab; ch_tab] ++ lit "<DT><A HREF=" ++ [ch_dquote] ++ to_str url
  ++ [ch_dquote] ++ lit ">" ++ to_str desc ++ lit "</a>".
Definition tabs_close : pystr := [ch_tab; ch_tab] ++ lit "</DL>".
Definition workspace_close : pystr := [ch_tab] ++ lit "</DT>".

(** Source lines 259-263 and again 280-284: the record behind the value
    the loop is at.  A dict yields its keys, and a key equal to its
    position is taken for the yaml shape. *)
Definition select_workspace (data : pyval) (widx : Z) (wvalue : pyval)
    : result pyval :=
  if int_eq widx wvalue
  then (ws <- getitem data (PStr "Workspaces") ;; getitem ws wvalue)
  else Ok wvalue.

(** Source lines 293-297, the same for a tab; the lookup is by [tidx]. *)
Definition select_tab (workspace : pyval) (tidx : Z) (tvalue : pyval)
    : result pyval :=
  if int_eq tidx tvalue
  then (tabs <- getitem workspace (PStr "tabs") ;; getitem tabs (PInt tidx))
  else Ok tvalue.

(** Source lines 265-267 for one record.  The state is the inner dict of
    [filtered] and [seq]; [copy] of an immutable tree is the tree. *)
Definition filter_entry (workspaces : list pystr)
    (st : list (atom * pyval) * Z) (workspace : pyval)
    : result (list (atom * pyval) * Z) :=
  title <- getitem workspace (PStr "title") ;;
  if title_in title workspaces
  then Ok (dict_store (AInt (snd st)) workspace (fst st), snd st + 1)
  else Ok st.

Definition filter_body (data : pyval) (workspaces : list pystr)
    (st : list (atom * pyval) * Z) (widx : Z) (wvalue : pyval)
    : result (list (atom * pyval) * Z) :=
  workspace <- select_workspace data widx wvalue ;;
  filter_entry workspaces st workspace.

(** Source lines 255-269: the tree the second loop walks. *)
Definition filter_workspaces (data : pyval) (workspaces : option (list pystr))
    : result pyval :=
  if truthy workspaces then
    ws <- getitem data (PStr "Workspaces") ;;
    items <- iterate ws ;;
    st <- for_enumerate (filter_body data (default [] workspaces)) 0 items ([], 0) ;;
    Ok (PDict [(key "Workspaces", PDict (fst st))])
  else Ok data.

(** Source lines 299-302 for one tab. *)
Definition tab_entry (output : list pystr) (tab : pyval) : result (list pystr) :=
  url <- getitem tab (PStr "url") ;;
  desc <- get_default tab (key "title") url ;;
  Ok (output ++ [tab_line url desc]).

Definition tab_body (workspace : pyval) (output : list pystr)
    (tidx : Z) (tvalue : pyval) : result (list pystr) :=
  tab <- select_tab workspace tidx tvalue ;;
  tab_entry output tab.

(** Source lines 286-305 for one workspace. *)
Definition workspace_entry (output : list pystr) (workspace : pyval)
    : result (list pystr) :=
  title <- getitem workspace (PStr "title") ;;
  let output := output ++ [workspace_heading title] in
  let output := output ++ [tabs_open] in
  has_tabs <- contains (lit "tabs") workspace ;;
  output <- (if has_tabs : bool
             then (tabs <- getitem workspace (PStr "tabs") ;;
                   items <- iterate tabs ;;
                   for_enumerate (tab_body workspace) 0 items output)
             else Ok output) ;;
  let output := output ++ [tabs_close] in
  Ok (output ++ [workspace_close]).

Definition workspace_body (data : pyval) (output : list pystr)
    (widx : Z) (wvalue : pyval) : result (list pystr) :=
  workspace <- select_workspace data widx wvalue ;;
  workspace_entry output workspace.

(** The second loop (source lines 279-305), from a given [output]. *)
Definition render_workspaces (data : pyval) (output : list pystr)
    : result (list pystr) :=
  ws <- getitem data (PStr "Workspaces") ;;
  items <- iterate ws ;;
  for_enumerate (workspace_body data) 0 items output.

Definition make_bookmarks (data : pyval) (workspaces : option (list pystr))
    (wrapped : bool) : result pystr :=
  let output := [] in
  data <- filter_workspaces data workspaces ;;
  let output := output ++ [doctype_line] in
  let output := output ++ [meta_line] in
  let output := output ++ [list_open] in
  let output := if wrapped then output ++ [wrapper_open] else output in
  output <- render_workspaces data output ;;
  let output := if wrapped then output ++ [wrapper_close] else output in
  let output := output ++ [list_close] in
  Ok (join [ch_lf] output).

End Renderer.


(* ===================================================================== *)
(** ** The two shapes of a collection                                      *)
(* ===================================================================== *)

(** A collection of records comes as a mapping from the position to the
    record (the yaml export) or as a plain sequence (the json export). *)
Inductive shape : Type := Mapping | Sequence.

Fixpoint index_keyed_from (k : nat) (recs : list pyval) : list (atom * pyval) :=
  match recs with
  | [] => []
  | r :: rest => (AInt (Z.of_nat k), r) :: index_keyed_from (S k) rest
  end.

Definition index_keyed (recs : list pyval) : list (atom * pyval) :=
  index_keyed_from 0 recs.

Definition coll (s : shape) (recs : list pyval) : pyval :=
  match s with
  | Mapping => PDict (index_keyed recs)
  | Sequence => PList recs
  end.

(** The logical content of a workspace: its fields other than the tabs,
    and the tab records when it has any. *)
Record workspace_content : Type := {
  ws_fields : list (atom * pyval);
  ws_tabs : option (list pyval)
}.

Definition workspace_rec (s : shape) (w : workspace_content) : pyval :=
  PDict (ws_fields w ++
         match ws_tabs w with
         | Some tabs => [(key "tabs", coll s tabs)]
         | None => []
         end).

(** An export tree of shape [s]: the workspaces under the key
    [Workspaces], among any other entries of the root. *)
Definition export_tree (s : shape) (before after : list (atom * pyval))
    (wss : list workspace_content) : pyval :=
  PDict (before ++ (key "Workspaces", coll s (map (workspace_rec s) wss)) :: after).

(** A loop over records, without the positions. *)
Fixpoint for_each {St} (body : St -> pyval -> result St) (recs : list pyval)
    (s : St) : result St :=
  match recs with
  | [] => Ok s
  | r :: rest => s' <- body s r ;; for_each body rest s'
  end.

(** The record's title is a string of the filter. *)
Definition selected (workspaces : list pystr) (workspace : pyval) : bool :=
  match getitem workspace (PStr "title") with
  | Ok title => title_in title workspaces
  | Raise _ => false
  end.

(** What the loop sees at position [i] for the record [r]. *)
Definition item (s : shape) (i : nat) (r : pyval) : pyval :=
  match s with
  | Mapping => PAtom (AInt (Z.of_nat i))
  | Sequence => r
  end.

Fixpoint items_from (s : shape) (k : nat) (recs : list pyval) : list pyval :=
  match recs with
  | [] => []
  | r :: rest => item s k r :: items_from s (S k) rest
  end.

(** The records the first loop keeps; it reads the title of every
    record on its way. *)
Fixpoint select_records (workspaces : list pystr) (recs : list pyval)
    : result (list pyval) :=
  match recs with
  | [] => Ok []
  | r :: rest =>
      title <- getitem r (PStr "title") ;;
      sel <- select_records workspaces rest ;;
      Ok (if title_in title workspaces then r :: sel else sel)
  end.

(** The records [make_bookmarks] renders. *)
Definition rendered_records (workspaces : option (list pystr)) (recs : list pyval)
    : result (list pyval) :=
  if truthy workspaces then select_records (default [] workspaces) recs else Ok recs.

(** The lines between the list container's opening and closing lines. *)
Definition document (wrapped : bool) (groups : list pystr) : pystr :=
  join [ch_lf]
    ([doctype_line; meta_line; list_open]
     ++ (if wrapped then [wrapper_open] else [])
     ++ groups
     ++ (if wrapped then [wrapper_close] else [])
     ++ [list_close]).

Section RendererViews.

Variable repr : pyval -> pystr.

(** The lines of the workspace groups: what the second loop adds to an
    empty [output]. *)
Definition workspace_lines (data : pyval) (workspaces : option (list pystr))
    : result (list pystr) :=
  data <- filter_workspaces data workspaces ;;
  render_workspaces repr data [].

(** The line of one tab. *)
Definition tab_line_of (tab : pyval) : result pystr :=
  url <- getitem tab (PStr "url") ;;
  desc <- get_default tab (key "title") url ;;
  Ok (tab_line repr url desc).

(** The lines of the groups of a list of workspace records. *)
Definition workspace_groups (recs : list pyval) : result (list pystr) :=
  for_each (workspace_entry repr) recs [].

End RendererViews.

(** A workspace record of an export tree: a mapping whose [tabs], when
    present, is a collection of mappings in either shape. *)
Definition is_dict (v : pyval) : Prop := exists kvs, v = PDict kvs.

Definition tabs_of (workspace : pyval) (tabs : list pyval) : Prop :=
  exists kvs s, workspace = PDict kvs /\ dict_lookup (key "tabs") kvs = Some (coll s tabs).

Definition wf_workspace (workspace : pyval) : Prop :=
  exists kvs, workspace = PDict kvs /\
    (dict_lookup (key "tabs") kvs = None \/
     exists s tabs, dict_lookup (key "tabs") kvs = Some (coll s tabs)
                    /\ Forall is_dict tabs).

Definition lacks (k : string) (record : pyval) : Prop :=
  exists kvs, record = PDict kvs /\ dict_lookup (key k) kvs = None.

(** The workspace is rendered: there is no filter, or its title is in it. *)
Definition rendered (workspaces : option (list pystr)) (workspace : pyval) : Prop :=
  truthy workspaces = false \/ selected (default [] workspaces) workspace = true.

(** A line that starts with a tab character. *)
Definition indented (line : pystr) : Prop := exists rest, line = ch_tab :: rest.

Definition has_title (workspace : pyval) : Prop :=
  exists title, getitem workspace (PStr "title") = Ok title.

(* ===================================================================== *)
(** ** [make_bookmarks] over a store of mutable objects                    *)
(* ===================================================================== *)

(** Lists and dicts are objects in a store; a value is a scalar or a
    reference to an object, so that two values can share an object and an
    assignment through one is seen through the other.  Allocation takes
    the next free location. *)
Module Store.

Notation loc := nat (only parsing).

Inductive val : Type :=
| VAtom (a : atom)
| VRef (l : loc).

Inductive obj : Type :=
| ODict (items : list (atom * val))
| OList (items : list val).

Notation store := (list obj) (only parsing).

(** Computations that read and write the store and may raise. *)
Definition M (A : Type) : Type := store -> result A * store.

Definition ret {A} (a : A) : M A := fun h => (Ok a, h).
Definition raise {A} (e : exn) : M A := fun h => (Raise e, h).
Definition lift {A} (r : result A) : M A := fun h => (r, h).

Definition bind {A B} (m : M A) (k : A -> M B) : M B :=
  fun h =>
    match m h with
    | (Ok a, h') => k a h'
    | (Raise e, h') => (Raise e, h')
    end.

Notation "x <~ m ;; k" := (bind m (fun x => k))
  (at level 100, m at next level, right associativity).

Definition alloc (o : obj) : M val :=
  fun h => (Ok (VRef (length h)), h ++ [o]).

Definition deref (l : loc) : M obj :=
  fun h =>
    match h !! l with
    | Some o => (Ok o, h)
    | None => (Raise SystemError, h)
    end.

Definition assign (l : loc) (o : obj) : M unit :=
  fun h =>
    match h !! l with
    | Some _ => (Ok tt, <[l := o]> h)
    | None => (Raise SystemError, h)
    end.

Definition VStr (s : string) : val := VAtom (AStr (lit s)).
Definition VInt (z : Z) : val := VAtom (AInt z).

Definition int_eq (i : Z) (v : val) : bool :=
  match v with
  | VAtom a => atom_eqb (AInt i) a
  | VRef _ => false
  end.

(** [c[k]]; a list or a dict as the key of a dict is unhashable. *)
Definition getitem (c k : val) : M val :=
  match c with
  | VRef l =>
      o <~ deref l ;;
      match o, k with
      | ODict items, VAtom a =>
          match dict_lookup a items with
          | Some v => ret v
          | None => raise KeyError
          end
      | OList items, VAtom a =>
          match atom_int a with
          | Some i => lift (seq_index items i)
          | None => raise TypeError
          end
      | _, VRef _ => raise TypeError
      end
  | VAtom (AStr s) =>
      match k with
      | VAtom a =>
          match atom_int a with
          | Some i =>
              match seq_index s i with
              | Ok c => ret (VAtom (AStr [c]))
              | Raise e => raise e
              end
          | None => raise TypeError
          end
      | VRef _ => raise TypeError
      end
  | VAtom _ => raise TypeError
  end.

(** [c[k] = v]: the object [c] refers to is updated in place. *)
Definition setitem (c k v : val) : M unit :=
  match c with
  | VRef l =>
      o <~ deref l ;;
      match o, k with
      | ODict items, VAtom a => assign l (ODict (dict_store a v items))
      | OList items, VAtom a =>
          match atom_int a with
          | Some i =>
              let n := Z.of_nat (length items) in
              let j := if i <? 0 then i + n else i in
              if (0 <=? j) && (j <? n)
              then assign l (OList (<[Z.to_nat j := v]> items))
              else raise IndexError
          | None => raise TypeError
          end
      | _, VRef _ => raise TypeError
      end
  | VAtom _ => raise TypeError
  end.

(** [c.get(k, default)]. *)
Definition get_default (c : val) (k : atom) (default : val) : M val :=
  match c with
  | VRef l =>
      o <~ deref l ;;
      match o with
      | ODict items =>
          match dict_lookup k items with
          | Some v => ret v
          | None => ret default
          end
      | OList _ => raise AttributeError
      end
  | VAtom _ => raise AttributeError
  end.

(** [s in c] for a string [s]. *)
Definition contains (s : pystr) (c : val) : M bool :=
  match c with
  | VRef l =>
      o <~ deref l ;;
      match o with
      | ODict items => ret (dict_has (AStr s) items)
      | OList items =>
          ret (existsb (fun v => match v with
                                 | VAtom a => atom_eqb (AStr s) a
                                 | VRef _ => false
                                 end) items)
      end
  | VAtom (AStr t) => ret (is_substring s t)
  | VAtom _ => raise TypeError
  end.

(** The values a [for] loop over [c] sees.  No loop of the source writes
    to the object it walks, so the values are taken when it starts. *)
Definition iterate (c : val) : M (list val) :=
  match c with
  | VRef l =>
      o <~ deref l ;;
      match o with
      | ODict items => ret (map (fun kv => VAtom (fst kv)) items)
      | OList items => ret items
      end
  | VAtom (AStr s) => ret (map (fun c => VAtom (AStr [c])) s)
  | VAtom _ => raise TypeError
  end.

(** [copy.copy(v)]: a new object with the same items; a scalar is
    immutable and is returned as it is. *)
Definition copy (v : val) : M val :=
  match v with
  | VRef l => o <~ deref l ;; alloc o
  | VAtom _ => ret v
  end.

Fixpoint for_enumerate {St} (body : St -> Z -> val -> M St)
    (idx : Z) (items : list val) (s : St) : M St :=
  match items with
  | [] => ret s
  | value :: rest => s' <~ body s idx value ;; for_enumerate body (idx + 1) rest s'
  end.

Definition title_in (title : val) (workspaces : list pystr) : bool :=
  match title with
  | VAtom (AStr s) => existsb (str_eqb s) workspaces
  | _ => false
  end.

Section Renderer.

(** [str(v)] of a list or a dict, left abstract as before; it reads the
    store. *)
Variable repr : store -> loc -> pystr.

Definition to_str (v : val) : M pystr :=
  match v with
  | VAtom ANone => ret (lit "None")
  | VAtom (ABool true) => ret (lit "True")
  | VAtom (ABool false) => ret (lit "False")
  | VAtom (AInt z) => ret (str_of_int z)
  | VAtom (AStr s) => ret s
  | VRef l => fun h => (Ok (repr h l), h)
  end.

Definition select_workspace (data : val) (widx : Z) (wvalue : val) : M val :=
  if int_eq widx wvalue
  then (ws <~ getitem data (VStr "Workspaces") ;; getitem ws wvalue)
  else ret wvalue.

Definition select_tab (workspace : val) (tidx : Z) (tvalue : val) : M val :=
  if int_eq tidx tvalue
  then (tabs <~ getitem workspace (VStr "tabs") ;; getitem tabs (VInt tidx))
  else ret tvalue.

(** Source lines 258-267; the state of the loop is [seq]. *)
Definition filter_body (data filtered : val) (workspaces : list pystr)
    (seq : Z) (widx : Z) (wvalue : val) : M Z :=
  workspace <~ select_workspace data widx wvalue ;;
  title <~ getitem workspace (VStr "title") ;;
  if title_in title workspaces
  then (c <~ copy workspace ;;
        fw <~ getitem filtered (VStr "Workspaces") ;;
        _ <~ setitem fw (VInt seq) c ;;
        ret (seq + 1))
  else ret seq.

(** Source lines 255-269. *)
Definition filter_workspaces (data : val) (workspaces : option (list pystr))
    : M val :=
  if truthy workspaces then
    inner <~ alloc (ODict []) ;;
    filtered <~ alloc (ODict [(key "Workspaces", inner)]) ;;
    ws <~ getitem data (VStr "Workspaces") ;;
    items <~ iterate ws ;;
    _ <~ for_enumerate (filter_body data filtered (default [] workspaces)) 0 items 0 ;;
    ret filtered
  else ret data.

Definition tab_body (workspace : val) (output : list pystr)
    (tidx : Z) (tvalue : val) : M (list pystr) :=
  tab <~ select_tab workspace tidx tvalue ;;
  url <~ getitem tab (VStr "url") ;;
  desc <~ get_default tab (key "title") url ;;
  u <~ to_str url ;;
  d <~ to_str desc ;;
  ret (output ++ [[ch_tab; ch_tab; ch_tab] ++ lit "<DT><A HREF=" ++ [ch_dquote] ++ u
                  ++ [ch_dquote] ++ lit ">" ++ d ++ lit "</a>"]).

Definition workspace_body (data : val) (output : list pystr)
    (widx : Z) (wvalue : val) : M (list pystr) :=
  workspace <~ select_workspace data widx wvalue ;;
  title <~ getitem workspace (VStr "title") ;;
  t <~ to_str title ;;
  let output := output ++ [[ch_tab] ++ lit "<DT><H3 FOLDED>" ++ t ++ lit "</H3>"] in
  let output := output ++ [tabs_open] in
  has_tabs <~ contains (lit "tabs") workspace ;;
  output <~ (if has_tabs : bool
             then (tabs <~ getitem workspace (VStr "tabs") ;;
                   items <~ iterate tabs ;;
                   for_enumerate (tab_body workspace) 0 items output)
             else ret output) ;;
  let output := output ++ [tabs_close] in
  ret (output ++ [workspace_close]).

Definition render_workspaces (data : val) (output : list pystr) : M (list pystr) :=
  ws <~ getitem data (VStr "Workspaces") ;;
  items <~ iterate ws ;;
  for_enumerate (workspace_body data) 0 items output.

Definition make_bookmarks (data : val) (workspaces : option (list pystr))
    (wrapped : bool) : M pystr :=
  let output := [] in
  data <~ filter_workspaces data workspaces ;;
  let output := output ++ [doctype_line] in
  let output := output ++ [meta_line] in
  let output := output ++ [list_open] in
  let output := if wrapped then output ++ [wrapper_open] else output in
  output <~ render_workspaces data output ;;
  let output := if wrapped then output ++ [wrapper_close] else output in
  let output := output ++ [list_close] in
  ret (join [ch_lf] output).

End Renderer.

(** The mapping the first loop fills: position [i] refers to the copy at
    location [base + i]. *)
Fixpoint copy_refs (k : nat) (base : loc) (copies : list obj) : list (atom * val) :=
  match copies with
  | [] => []
  | _ :: rest => (AInt (Z.of_nat k), VRef (base + k)%nat) :: copy_refs (S k) base rest
  end.

(** Allocating a tree: its lists and dicts become fresh objects. *)
Fixpoint load (t : pyval) : M val :=
  match t with
  | PAtom a => ret (VAtom a)
  | PList xs =>
      vs <~ (fix go (xs : list pyval) : M (list val) :=
               match xs with
               | [] => ret []
               | x :: rest => v <~ load x ;; vs <~ go rest ;; ret (v :: vs)
               end) xs ;;
      alloc (OList vs)
  | PDict kvs =>
      items <~ (fix go (kvs : list (atom * pyval)) : M (list (atom * val)) :=
                  match kvs with
                  | [] => ret []
                  | (k, x) :: rest =>
                      v <~ load x ;; items <~ go rest ;; ret ((k, v) :: items)
                  end) kvs ;;
      alloc (ODict items)
  end.

End Store.

(** A computation that leaves the store as it found it. *)
Definition readonly {A} (m : Store.M A) : Prop := forall h, snd (m h) = h.

(** The store after the first loop has kept the records whose copies are
    [copies]: behind the objects of [h0] come the inner mapping, the
    dict [filtered] and the copies. *)
Definition filtered_store (h0 : Store.store) (copies : list Store.obj) : Store.store :=
  h0 ++ Store.ODict (Store.copy_refs 0 (length h0 + 2)%nat copies)
     :: Store.ODict [(key "Workspaces", Store.VRef (length h0))]
     :: copies.

(** The value [v] in the store [h] is the tree [t]: the objects behind
    its references hold, item by item, values that are the subtrees. *)
Inductive denotes (h : Store.store) : Store.val -> pyval -> Prop :=
| denotes_atom (a : atom) : denotes h (Store.VAtom a) (PAtom a)
| denotes_list (l : Store.loc) (vs : list Store.val) (ts : list pyval) :
    h !! l = Some (Store.OList vs) ->
    Forall2 (denotes h) vs ts ->
    denotes h (Store.VRef l) (PList ts)
| denotes_dict (l : Store.loc) (items : list (atom * Store.val))
    (kts : list (atom * pyval)) :
    h !! l = Some (Store.ODict items) ->
    Forall2 (fun iv kt => fst iv = fst kt /\ denotes h (snd iv) (snd kt)) items kts ->
    denotes h (Store.VRef l) (PDict kts).

(** The outcome [x] of a computation started in the store [h] left the
    store as it was, and is the result [y] up to [R]. *)
Definition agrees {A B} (R : A -> B -> Prop) (x : result A * Store.store)
    (h : Store.store) (y : result B) : Prop :=
  snd x = h /\
  match fst x, y with
  | Ok a, Ok b => R a b
  | Raise e, Raise e' => e = e'
  | _, _ => False
  end.

(** Every object of [h] is in [h'], at its location. *)
Definition included (h h' : Store.store) : Prop :=
  forall (l : Store.loc) (o : Store.obj), h !! l = Some o -> h' !! l = Some o.

(** The object [o] holds, item by item, values that are in [h] the
    subtrees of the list or dict [t]. *)
Definition denotes_obj (h : Store.store) (o : Store.obj) (t : pyval) : Prop :=
  match o, t with
  | Store.OList vs, PList ts => Forall2 (denotes h) vs ts
  | Store.ODict items, PDict kts =>
      Forall2 (fun iv kt => fst iv = fst kt /\ denotes h (snd iv) (snd kt)) items kts
  | _, _ => False
  end.

(* ===================================================================== *)
(** ** The reader of PyYAML                                                *)
(* ===================================================================== *)

(** [yaml.reader.Reader], the class the quote patch is mixed into, as far
    as the patch uses it: [peek], [forward], [update] and the attributes
    [buffer] and [pointer].  The input is taken as text: [stream] holds
    what the successive [read] calls of the underlying stream return (an
    empty chunk, or none left, is the end of the input), so that any
    [buffer_sz] of [ConfigurableBufferedReader] is covered.  A reader made
    from a string has [raw_buffer = None] and the whole input, with the
    final NUL, in [buffer]. *)
Record Reader : Type := {
  buffer : pystr;
  pointer : nat;
  raw_buffer : option pystr;
  eof : bool;
  stream : list pystr;
  index : nat;
  line : nat;
  column : nat
}.

Definition in_range (lo hi c : N) : bool := ((lo <=? c) && (c <=? hi))%N.

(** The characters [Reader.check_printable] accepts. *)
Definition printable (c : char) : bool :=
  (c =? 9)%N || (c =? 10)%N || (c =? 13)%N || in_range 32 126 c || (c =? 133)%N
  || in_range 160 55295 c || in_range 57344 65533 c || in_range 65536 1114111 c.

Definition check_printable (data : pystr) : result unit :=
  if forallb printable data then Ok tt else Raise ReaderError.

(** The loop of [Reader.update] while the end of the input has not been
    seen; each round reads one chunk. *)
Fixpoint update_loop (len : nat) (chunks : list pystr) (buf raw : pystr)
    : result (pystr * option pystr * bool * list pystr) :=
  if (len <=? length buf)%nat then Ok (buf, Some raw, false, chunks)
  else
    match chunks with
    | [] =>
        _ <- check_printable raw ;;
        Ok (buf ++ raw ++ [ch_nul], None, true, [])
    | [] :: rest =>
        _ <- check_printable raw ;;
        Ok (buf ++ raw ++ [ch_nul], None, true, rest)
    | data :: rest =>
        _ <- check_printable (raw ++ data) ;;
        update_loop len rest (buf ++ raw ++ data) []
    end.

(** [Reader.update(length)]. *)
Definition update (r : Reader) (len : nat) : result Reader :=
  match raw_buffer r with
  | None => Ok r
  | Some raw =>
      let buf := drop (pointer r) (buffer r) in
      if eof r then
        if (len <=? length buf)%nat
        then Ok {| buffer := buf; pointer := 0; raw_buffer := Some raw; eof := true;
                   stream := stream r; index := index r; line := line r;
                   column := column r |}
        else
          _ <- check_printable raw ;;
          Ok {| buffer := buf ++ raw ++ [ch_nul]; pointer := 0; raw_buffer := None;
                eof := true; stream := stream r; index := index r; line := line r;
                column := column r |}
      else
        st <- update_loop len (stream r) buf raw ;;
        match st with
        | (buf', raw', eof', chunks') =>
            Ok {| buffer := buf'; pointer := 0; raw_buffer := raw'; eof := eof';
                  stream := chunks'; index := index r; line := line r;
                  column := column r |}
        end
  end.

(** [Reader.peek(index)]: the character and the reader, whose buffer the
    call may have refilled. *)
Definition peek (r : Reader) (idx : nat) : result (char * Reader) :=
  match buffer r !! (pointer r + idx)%nat with
  | Some c => Ok (c, r)
  | None =>
      r' <- update r (idx + 1) ;;
      match buffer r' !! (pointer r' + idx)%nat with
      | Some c => Ok (c, r')
      | None => Raise IndexError
      end
  end.

Definition ch_bom : char := 65279%N.   (* ﻿ *)

(** One round of the loop of [Reader.forward]. *)
Definition advance (r : Reader) : result Reader :=
  match buffer r !! pointer r with
  | None => Raise IndexError
  | Some c =>
      let p := S (pointer r) in
      newline <-
        (if (c =? ch_lf)%N || (c =? ch_nel)%N || (c =? ch_ls)%N || (c =? ch_ps)%N
         then Ok true
         else if (c =? ch_cr)%N
              then match buffer r !! p with
                   | Some c' => Ok (negb (c' =? ch_lf)%N)
                   | None => Raise IndexError
                   end
              else Ok false) ;;
      Ok {| buffer := buffer r; pointer := p; raw_buffer := raw_buffer r;
            eof := eof r; stream := stream r; index := S (index r);
            line := if newline : bool then S (line r) else line r;
            column := if newline : bool then 0%nat
                      else if (c =? ch_bom)%N then column r else S (column r) |}
  end.

Fixpoint advance_n (n : nat) (r : Reader) : result Reader :=
  match n with
  | O => Ok r
  | S n' => r' <- advance r ;; advance_n n' r'
  end.

(** [Reader.forward(length)]. *)
Definition forward (r : Reader) (len : nat) : result Reader :=
  r' <- (if (length (buffer r) <=? pointer r + len + 1)%nat
         then update r (len + 1) else Ok r) ;;
  advance_n len r'.

(** The characters the reader has not consumed, whether they are in the
    buffer yet or not, with the NUL that ends them. *)
Fixpoint stream_text (chunks : list pystr) : pystr :=
  match chunks with
  | [] => []
  | [] :: _ => []
  | data :: rest => data ++ stream_text rest
  end.

Definition pending (r : Reader) : pystr :=
  match raw_buffer r with
  | None => []
  | Some raw => raw ++ (if eof r then [] else stream_text (stream r)) ++ [ch_nul]
  end.

Definition unread (r : Reader) : pystr := drop (pointer r) (buffer r) ++ pending r.

(** What is still to be loaded passes [check_printable]. *)
Definition loadable (r : Reader) : Prop :=
  match raw_buffer r with
  | None => True
  | Some raw => forallb printable (raw ++ (if eof r then [] else stream_text (stream r))) = true
  end.

(* ===================================================================== *)
(** ** The quote patch                                                     *)
(* ===================================================================== *)

(** The class of characters that ends the scan (source line 71). *)
Definition is_break (c : char) : bool :=
  (c =? ch_nul)%N || (c =? ch_cr)%N || (c =? ch_lf)%N || (c =? ch_nel)%N
  || (c =? ch_ls)%N || (c =? ch_ps)%N.

(** The [scalar.replace] of source line 93: a backslash before each
    double quote. *)
Definition escape_quotes (scalar : pystr) : pystr :=
  flat_map (fun c => if (c =? ch_dquote)%N then [ch_backslash; ch_dquote] else [c]) scalar.

(** The escaping as the claim words it, to compare [escape_quotes] with:
    [escaped] is [scalar] with a backslash put before each double quote
    and every other character left as it is. *)
Inductive backslash_before_quotes : pystr -> pystr -> Prop :=
| bbq_end : backslash_before_quotes [] []
| bbq_quote (scalar escaped : pystr) :
    backslash_before_quotes scalar escaped ->
    backslash_before_quotes (ch_dquote :: scalar)
                            (ch_backslash :: ch_dquote :: escaped)
| bbq_other (c : char) (scalar escaped : pystr) :
    c <> ch_dquote ->
    backslash_before_quotes scalar escaped ->
    backslash_before_quotes (c :: scalar) (c :: escaped).

Definition with_buffer (r : Reader) (buf : pystr) : Reader :=
  {| buffer := buf; pointer := pointer r; raw_buffer := raw_buffer r; eof := eof r;
     stream := stream r; index := index r; line := line r; column := column r |}.

(** A bound on the rounds of the two loops of the patch: each round looks
    at one more character of the input. *)
Definition input_bound (r : Reader) : nat :=
  (length (buffer r) + length (pending r) + 1)%nat.

(** Source lines 55-56.  A bound that was too small shows as
    [SystemError]. *)
Fixpoint skip_spaces (fuel : nat) (r : Reader) : result Reader :=
  match fuel with
  | O => Raise SystemError
  | S fuel' =>
      pk <- peek r 0 ;;
      if (fst pk =? ch_space)%N
      then (r' <- forward (snd pk) 1 ;; skip_spaces fuel' r')
      else Ok (snd pk)
  end.

(** Source lines 58-74. *)
Fixpoint scan_line (fuel : nat) (r : Reader) (idx : nat) (scalar : pystr)
    : result (Reader * pystr) :=
  match fuel with
  | O => Raise SystemError
  | S fuel' =>
      pk <- peek r idx ;;
      if is_break (fst pk) then Ok (snd pk, scalar)
      else scan_line fuel' (snd pk) (idx + 1) (scalar ++ [fst pk])
  end.

(** Source lines 55-74: the reader and the text the patch has scanned. *)
Definition scan_scalar (r : Reader) : result (Reader * pystr) :=
  r' <- skip_spaces (input_bound r) r ;;
  scan_line (input_bound r') r' 0 [].

Section Patch.

(** [int(scalar)] returns: the builtin is left abstract. *)
Variable int_parses : pystr -> bool.

(** Source lines 76-108 on the scanned text. *)
Definition quote_scalar (r : Reader) (scalar : pystr) : Reader :=
  if (length scalar =? 0)%nat then r
  else if int_parses scalar then r
  else
    let original_sz := length scalar in
    let scalar := if existsb (N.eqb ch_dquote) scalar
                  then escape_quotes scalar else scalar in
    let end_ := (pointer r + original_sz)%nat in
    with_buffer r (take (pointer r) (buffer r)
                   ++ [ch_dquote] ++ scalar ++ [ch_dquote]
                   ++ drop end_ (buffer r)).

Definition patch_buffer_for_unquoted_scalar (r : Reader) : result Reader :=
  sc <- scan_scalar r ;;
  Ok (quote_scalar (fst sc) (snd sc)).

End Patch.

(** An approximation of [int(scalar)] for ASCII text, for the examples:
    blanks around an optional sign and digits, single underscores between
    digits.  It differs from the builtin on the digits and blanks of
    Unicode outside ASCII, which it refuses, and on runs of digits longer
    than the interpreter's limit for the conversion, which it accepts;
    the theorems take [int_parses] as a parameter and the examples use it
    on short ASCII texts only. *)
Definition is_digit (c : char) : bool := in_range 48 57 c.
Definition is_blank (c : char) : bool :=
  (c =? 32)%N || in_range 9 13 c.

Fixpoint digits_ok (after_digit : bool) (s : pystr) : bool :=
  match s with
  | [] => after_digit
  | c :: rest =>
      if is_digit c then digits_ok true rest
      else if (c =? 95)%N then after_digit && match rest with
                                              | d :: _ => is_digit d
                                              | [] => false
                                              end && digits_ok false rest
      else false
  end.

Fixpoint drop_blanks (s : pystr) : pystr :=
  match s with
  | c :: rest => if is_blank c then drop_blanks rest else s
  | [] => []
  end.

Definition ascii_int_parses (s : pystr) : bool :=
  let s := drop_blanks s in
  let s := rev (drop_blanks (rev s)) in
  match s with
  | c :: rest => if (c =? 43)%N || (c =? 45)%N then digits_ok false rest
                 else digits_ok false s
  | [] => false
  end.

(** A reader on a string: the whole input and the final NUL are in the
    buffer. *)
Definition reader_of_string (text : pystr) : Reader :=
  {| buffer := text ++ [ch_nul]; pointer := 0; raw_buffer := None; eof := true;
     stream := []; index := 0; line := 0; column := 0 |}.

(** The two readers are at the same position of the input. *)
Definition same_position (r r' : Reader) : Prop :=
  index r' = index r /\ line r' = line r /\ column r' = column r.


(* ===================================================================== *)
(** ** The composer hook                                                   *)
(* ===================================================================== *)

(** The nodes of [yaml.nodes]: tag and value. *)
Inductive node : Type :=
| ScalarNode (tag value : pystr)
| SequenceNode (tag : pystr) (value : list node)
| MappingNode (tag : pystr) (value : list (node * node)).

(** The [index] argument of [Composer.compose_node]: [None] for a
    document root or a mapping key, the position for an item of a
    sequence, the key node for a value of a mapping. *)
Inductive node_index : Type :=
| NoIndex
| Position (i : nat)
| KeyNode (k : node).

Definition UNQUOTED_NODE_KEYS : list pystr := [lit "title"; lit "description"].

Section Composer.

Variable int_parses : pystr -> bool.

(** The loader is one object: its reader attributes, and the state of
    the scanner, the parser and the rest, which the hook does not touch. *)
Variable Rest : Type.

(** [super().compose_node], from [yaml.composer.Composer]. *)
Variable super_compose_node :
  option node -> node_index -> Reader * Rest -> result (node * (Reader * Rest)).

(** Source lines 23-38. *)
Definition compose_node (parent : option node) (index : node_index)
    (loader : Reader * Rest) : result (node * (Reader * Rest)) :=
  loader <- match parent, index with
            | Some (MappingNode _ _), KeyNode (ScalarNode _ value) =>
                if existsb (str_eqb value) UNQUOTED_NODE_KEYS
                then (r <- patch_buffer_for_unquoted_scalar int_parses (fst loader) ;;
                      Ok (r, snd loader))
                else Ok loader
            | _, _ => Ok loader
            end ;;
  super_compose_node parent index loader.

End Composer.

(** The hook patches the buffer: the parent is a mapping node and the
    index a scalar node whose value is [title] or [description]. *)
Definition patch_triggered (parent : option node) (index : node_index) : Prop :=
  (exists tag value, parent = Some (MappingNode tag value))
  /\ (exists tag value, index = KeyNode (ScalarNode tag value)
                        /\ (value = lit "title" \/ value = lit "description")).

(* ===================================================================== *)
(** ** The scanner of PyYAML on a double-quoted scalar                     *)
(* ===================================================================== *)

(** [yaml.scanner.Scanner.scan_flow_scalar] for the double-quoted style,
    as a function of the unread text: what the scanner reads when it
    resumes on a line the patch has quoted.  Each function returns the
    characters it produces and the text it leaves; a text that runs out
    before its NUL raises the reader's [IndexError]. *)

Definition ESCAPE_REPLACEMENTS (c : char) : option char :=
  option_map snd
    (List.find (fun kv : N * N => (fst kv =? c)%N)
       [(48, 0); (97, 7); (98, 8); (116, 9); (9, 9); (110, 10); (118, 11);
        (102, 12); (114, 13); (101, 27); (32, 32); (34, 34); (92, 92); (47, 47);
        (78, 133); (95, 160); (76, 8232); (80, 8233)]%N).

Definition ESCAPE_CODES (c : char) : option nat :=
  if (c =? 120)%N then Some 2%nat
  else if (c =? 117)%N then Some 4%nat
  else if (c =? 85)%N then Some 8%nat
  else None.

Definition hex_value (c : char) : option N :=
  if in_range 48 57 c then Some (c - 48)%N
  else if in_range 65 70 c then Some (c - 55)%N
  else if in_range 97 102 c then Some (c - 87)%N
  else None.

(** [int(prefix, 16)] for a run of hexadecimal digits. *)
Fixpoint hex_number (acc : N) (digits : pystr) : result N :=
  match digits with
  | [] => Ok acc
  | d :: rest =>
      match hex_value d with
      | Some v => hex_number (acc * 16 + v)%N rest
      | None => Raise ScannerError
      end
  end.

(** The digits of an escape code, which the scanner looks at one by one
    with [peek]: the first that is not hexadecimal, the final NUL
    included, raises [ScannerError]. *)
Fixpoint hex_digits (n : nat) (text : pystr) : result pystr :=
  match n with
  | O => Ok []
  | S n' =>
      match text with
      | [] => Raise IndexError
      | d :: rest =>
          match hex_value d with
          | Some _ => digits <- hex_digits n' rest ;; Ok (d :: digits)
          | None => Raise ScannerError
          end
      end
  end.

Definition is_linebreak (c : char) : bool :=
  (c =? ch_cr)%N || (c =? ch_lf)%N || (c =? ch_nel)%N || (c =? ch_ls)%N
  || (c =? ch_ps)%N.

Definition is_space_or_tab (c : char) : bool := (c =? ch_space)%N || (c =? ch_tab)%N.

(** The characters that end a run of [scan_flow_scalar_non_spaces]. *)
Definition ends_run (c : char) : bool :=
  (c =? 39)%N || (c =? ch_dquote)%N || (c =? ch_backslash)%N || (c =? ch_nul)%N
  || is_space_or_tab c || is_linebreak c.

(** The longest prefix whose characters satisfy [p], and the rest. *)
Fixpoint span (p : char -> bool) (text : pystr) : pystr * pystr :=
  match text with
  | c :: rest =>
      if p c then (c :: fst (span p rest), snd (span p rest)) else ([], text)
  | [] => ([], [])
  end.

(** [Scanner.scan_line_break]. *)
Definition scan_line_break (text : pystr) : pystr * pystr :=
  match text with
  | c :: rest =>
      if (c =? ch_cr)%N || (c =? ch_lf)%N || (c =? ch_nel)%N then
        match text with
        | 13%N :: 10%N :: rest2 => ([ch_lf], rest2)
        | _ => ([ch_lf], rest)
        end
      else if (c =? ch_ls)%N || (c =? ch_ps)%N then ([c], rest)
      else ([], text)
  | [] => ([], [])
  end.

Definition starts_document_separator (text : pystr) : bool :=
  match text with
  | a :: b :: c :: d :: _ =>
      ((a =? 45)%N && (b =? 45)%N && (c =? 45)%N
       || (a =? 46)%N && (b =? 46)%N && (c =? 46)%N)
      && ((d =? ch_nul)%N || is_space_or_tab d || is_linebreak d)
  | _ => false
  end.

(** [Scanner.scan_flow_scalar_breaks]. *)
Fixpoint scan_flow_scalar_breaks (fuel : nat) (text : pystr) : result (pystr * pystr) :=
  match fuel with
  | O => Raise SystemError
  | S fuel' =>
      if starts_document_separator text then Raise ScannerError
      else
        let text := snd (span is_space_or_tab text) in
        match text with
        | [] => Raise IndexError
        | c :: _ =>
            if is_linebreak c then
              let lb := scan_line_break text in
              more <- scan_flow_scalar_breaks fuel' (snd lb) ;;
              Ok (fst lb ++ fst more, snd more)
            else Ok ([], text)
        end
  end.

(** [Scanner.scan_flow_scalar_non_spaces] with [double] set. *)
Fixpoint scan_flow_scalar_non_spaces (fuel : nat) (text : pystr)
    : result (pystr * pystr) :=
  match fuel with
  | O => Raise SystemError
  | S fuel' =>
      let run := span (fun c => negb (ends_run c)) text in
      match snd run with
      | [] => Raise IndexError
      | c :: rest =>
          if (c =? 39)%N then
            more <- scan_flow_scalar_non_spaces fuel' rest ;;
            Ok (fst run ++ [c] ++ fst more, snd more)
          else if (c =? ch_backslash)%N then
            match rest with
            | [] => Raise IndexError
            | e :: rest2 =>
                match ESCAPE_REPLACEMENTS e with
                | Some x =>
                    more <- scan_flow_scalar_non_spaces fuel' rest2 ;;
                    Ok (fst run ++ [x] ++ fst more, snd more)
                | None =>
                    match ESCAPE_CODES e with
                    | Some n =>
                        digits <- hex_digits n rest2 ;;
                        code <- hex_number 0 digits ;;
                        if (1114111 <? code)%N then Raise ValueError
                        else
                          more <- scan_flow_scalar_non_spaces fuel' (drop n rest2) ;;
                          Ok (fst run ++ [code] ++ fst more, snd more)
                    | None =>
                        if is_linebreak e then
                          let lb := scan_line_break rest in
                          breaks <- scan_flow_scalar_breaks (S (length rest)) (snd lb) ;;
                          more <- scan_flow_scalar_non_spaces fuel' (snd breaks) ;;
                          Ok (fst run ++ fst breaks ++ fst more, snd more)
                        else Raise ScannerError
                    end
                end
            end
          else Ok (fst run, snd run)
      end
  end.

(** [Scanner.scan_flow_scalar_spaces]. *)
Definition scan_flow_scalar_spaces (text : pystr) : result (pystr * pystr) :=
  let run := span is_space_or_tab text in
  match snd run with
  | [] => Raise IndexError
  | c :: _ =>
      if (c =? ch_nul)%N then Raise ScannerError
      else if is_linebreak c then
        let lb := scan_line_break (snd run) in
        breaks <- scan_flow_scalar_breaks (S (length (snd run))) (snd lb) ;;
        Ok ((if negb (bool_decide (fst lb = [ch_lf])) then fst lb
             else if bool_decide (fst breaks = []) then [ch_space] else [])
            ++ fst breaks, snd breaks)
      else Ok (fst run, snd run)
  end.

(** The loop of [scan_flow_scalar] after the first run. *)
Fixpoint scan_flow_scalar_loop (fuel : nat) (text : pystr) : result (pystr * pystr) :=
  match fuel with
  | O => Raise SystemError
  | S fuel' =>
      match text with
      | [] => Raise IndexError
      | c :: rest =>
          if (c =? ch_dquote)%N then Ok ([], rest)
          else
            sp <- scan_flow_scalar_spaces text ;;
            ns <- scan_flow_scalar_non_spaces (S (length (snd sp))) (snd sp) ;;
            more <- scan_flow_scalar_loop fuel' (snd ns) ;;
            Ok (fst sp ++ fst ns ++ fst more, snd more)
      end
  end.

(** [scan_flow_scalar] for the double-quoted style, on a text that starts
    with the quote: the
    value of the scalar token and the text after the closing quote. *)
Definition scan_flow_scalar (text : pystr) : result (pystr * pystr) :=
  match text with
  | [] => Raise IndexError
  | _ :: rest =>
      ns <- scan_flow_scalar_non_spaces (S (length rest)) rest ;;
      more <- scan_flow_scalar_loop (S (length (snd ns))) (snd ns) ;;
      Ok (fst ns ++ fst more, snd more)
  end.

(** A character the patch can put between double quotes as it is: not of
    the line-terminator class and not a backslash. *)
Definition quotable (c : char) : bool := negb (is_break c) && negb (c =? ch_backslash)%N.

(* ===================================================================== *)
(** ** Example inputs                                                      *)
(* ===================================================================== *)

(** A stand-in for [repr] in the examples, whose trees have strings where
    the renderer prints a value. *)
Definition repr_elided : pyval -> pystr := fun _ => lit "{...}".

Definition tab_record (url title : string) : pyval :=
  PDict [(key "url", PStr url); (key "title", PStr title)].

Definition work_record : pyval :=
  PDict [(key "title", PStr "Work");
         (key "tabs", PList [tab_record "https://w.test" "Tracker"])].
Definition home_record : pyval :=
  PDict [(key "title", PStr "Home");
         (key "tabs", PList [PDict [(key "url", PStr "https://x.test")]])].
Definition work2_record : pyval :=
  PDict [(key "title", PStr "Work2")].

Definition three_records : list pyval := [work_record; home_record; work2_record].

(** The json shape of an export with the workspaces Work, Home, Work2. *)
Definition three_workspaces : pyval :=
  PDict [(key "Workspaces", PList three_records)].

(** A workspace whose only tab has no [url], and a complete one. *)
Definition broken_record : pyval :=
  PDict [(key "title", PStr "Broken"); (key "tabs", PList [PDict []])].
Definition untitled_record : pyval :=
  PDict [(key "tabs", PList [tab_record "https://w.test" "Tracker"])].

Definition broken_and_home : pyval :=
  PDict [(key "Workspaces", PList [broken_record; home_record])].
Definition untitled_and_home : pyval :=
  PDict [(key "Workspaces", PList [untitled_record; home_record])].

(** The lines of the group of [home_record]. *)
Definition home_lines : list pystr :=
  [[ch_tab] ++ lit "<DT><H3 FOLDED>Home</H3>";
   [ch_tab; ch_tab] ++ lit "<DL><p>";
   [ch_tab; ch_tab; ch_tab] ++ lit "<DT><A HREF=" ++ [ch_dquote]
     ++ lit "https://x.test" ++ [ch_dquote] ++ lit ">https://x.test</a>";
   [ch_tab; ch_tab] ++ lit "</DL>";
   [ch_tab] ++ lit "</DT>"].

(** The store that holds [three_workspaces], loaded into an empty one. *)
Definition three_workspaces_store : Store.val * Store.store :=
  match Store.load three_workspaces [] with
  | (Ok v, h) => (v, h)
  | (Raise _, h) => (Store.VAtom ANone, h)
  end.

(** A reader that has consumed the key and the colon of an entry and
    stands before its value. *)
Definition reader_at_value (value following : pystr) : Reader :=
  {| buffer := lit "title:" ++ value ++ [ch_lf] ++ following ++ [ch_nul];
     pointer := 6; raw_buffer := None; eof := true; stream := [];
     index := 6; line := 0; column := 6 |}.

(** The same input when the stream has given the reader the key only so
    far, and gives the rest in two chunks. *)
Definition reader_mid_stream (chunk1 chunk2 : pystr) : Reader :=
  {| buffer := lit "title:"; pointer := 6; raw_buffer := Some [];
     eof := false; stream := [chunk1; chunk2];
     index := 6; line := 0; column := 6 |}.

Definition mapping_parent : option node := Some (MappingNode (lit "tag:yaml.org,2002:map") []).
Definition title_key : node_index :=
  KeyNode (ScalarNode (lit "tag:yaml.org,2002:str") (lit "title")).
Definition url_key : node_index :=
  KeyNode (ScalarNode (lit "tag:yaml.org,2002:str") (lit "url")).

(** A stand-in for [super().compose_node] that returns the loader as it
    gets it. *)
Definition compose_nothing (parent : option node) (index : node_index)
    (loader : Reader * unit) : result (node * (Reader * unit)) :=
  Ok (ScalarNode [] [], loader).
(* ===================================================================== *)
(** ** The reader with a configurable buffer size                          *)
(* ===================================================================== *)

(** What [ConfigurableBufferedReader] is made from: a string, or a text
    stream, given by the text it holds.  Byte inputs, which the reader
    decodes first, are left out. *)
Inductive source : Type :=
| Text (data : pystr)
| TextStream (content : pystr).

(** The sizes that fit [Py_ssize_t] on a 64-bit build. *)
Definition fits_ssize_t (size : Z) : bool := (- 2 ^ 63 <=? size) && (size <? 2 ^ 63).

(** [stream.read(size)] on the text a stream still holds: the characters
    it returns and the ones it keeps.  A negative size reads to the end;
    a size that does not fit [Py_ssize_t] raises [OverflowError]. *)
Definition stream_read (size : Z) (text : pystr) : result (pystr * pystr) :=
  if negb (fits_ssize_t size) then Raise OverflowError
  else if size <? 0 then Ok (text, [])
  else Ok (take (Z.to_nat size) text, drop (Z.to_nat size) text).

Module ConfigurableBufferedReader.

(** [Reader.update_raw(size)] on the attributes [raw_buffer] and [eof]
    and the text left in the stream. *)
Definition Reader_update_raw (size : Z) (st : option pystr * bool * pystr)
    : result (option pystr * bool * pystr) :=
  rd <- stream_read size (snd st) ;;
  let data := fst rd in
  Ok (Some (match fst (fst st) with
            | None => data
            | Some raw => raw ++ data
            end),
      match data with
      | [] => true
      | _ :: _ => snd (fst st)
      end,
      snd rd).

(** Source lines 122-125. *)
Definition update_raw (buffer_sz : Z) (size : option Z)
    (st : option pystr * bool * pystr) : result (option pystr * bool * pystr) :=
  let size := match size with
              | None => buffer_sz
              | Some size => size
              end in
  Reader_update_raw size st.

(** What the calls [update_raw()] of the reader get from the stream, one
    after the other, up to the read that returns nothing. *)
Fixpoint reads (fuel : nat) (buffer_sz : Z) (text : pystr) : result (list pystr) :=
  match fuel with
  | O => Ok []
  | S fuel' =>
      st <- update_raw buffer_sz None (None, false, text) ;;
      match st with
      | (Some (c :: data), _, text') =>
          chunks <- reads fuel' buffer_sz text' ;; Ok ((c :: data) :: chunks)
      | _ => Ok []
      end
  end.

(** The loop of [Reader.determine_encoding]: the stream is read until two
    characters are there or it ends. *)
Fixpoint determine_encoding (chunks : list pystr) (raw : option pystr)
    : option pystr * bool * list pystr :=
  let short := match raw with
               | None => true
               | Some raw => (length raw <? 2)%nat
               end in
  if short then
    match chunks with
    | [] => (Some (default [] raw), true, [])
    | [] :: rest => (Some (default [] raw), true, rest)
    | data :: rest => determine_encoding rest (Some (default [] raw ++ data))
    end
  else (raw, false, chunks).

(** Source lines 118-120, with [Reader.__init__]: a string is checked and
    put in the buffer whole; a stream is read for its encoding and then
    for the first character. *)
Definition __init__ (stream : source) (buffer_sz : Z) : result Reader :=
  match stream with
  | Text data => _ <- check_printable data ;; Ok (reader_of_string data)
  | TextStream content =>
      chunks <- reads (S (length content)) buffer_sz content ;;
      match determine_encoding chunks None with
      | (raw, eof, chunks) =>
          update {| buffer := []; pointer := 0; raw_buffer := raw; eof := eof;
                    stream := chunks; index := 0; line := 0; column := 0 |} 1
      end
  end.

End ConfigurableBufferedReader.

(* ===================================================================== *)
(** ** The quote patch on the unread text                                  *)
(* ===================================================================== *)

(** The spaces the first loop of the patch passes over. *)
Fixpoint leading_spaces (text : pystr) : nat :=
  match text with
  | c :: rest => if (c =? ch_space)%N then S (leading_spaces rest) else 0%nat
  | [] => 0%nat
  end.

(** The text before the first character that ends a line. *)
Fixpoint first_line (text : pystr) : pystr :=
  match text with
  | c :: rest => if is_break c then [] else c :: first_line rest
  | [] => []
  end.

Section PatchedText.

Variable int_parses : pystr -> bool.

(** The unread text the patch leaves, from the unread text it finds. *)
Definition patched_text (text : pystr) : pystr :=
  let text := drop (leading_spaces text) text in
  let scalar := first_line text in
  if (length scalar =? 0)%nat || int_parses scalar then text
  else [ch_dquote] ++ escape_quotes scalar ++ [ch_dquote]
       ++ drop (length scalar) text.

End PatchedText.
(* ===================================================================== *)
(** ** The lines of a workspace group                                      *)
(* ===================================================================== *)

Section Layout.

Variable repr : pyval -> pystr.

(** The line of a tab record that has a [url]: the text of the link is
    the [title] entry when there is one, the [url] otherwise. *)
Definition link_line (tab : pyval) : pystr :=
  match tab with
  | PDict kvs =>
      match dict_lookup (key "url") kvs with
      | Some url => tab_line repr url (default url (dict_lookup (key "title") kvs))
      | None => []
      end
  | _ => []
  end.

(** The group of a workspace: heading, list opening, one line for each
    tab, two closing lines. *)
Definition group (title : pyval) (tabs : list pyval) : list pystr :=
  [workspace_heading repr title; tabs_open] ++ map link_line tabs
  ++ [tabs_close; workspace_close].

End Layout.

Definition has_url (tab : pyval) : Prop :=
  exists kvs url, tab = PDict kvs /\ dict_lookup (key "url") kvs = Some url.

(** A workspace record seen with its title and its tab records. *)
Record workspace_view : Type := {
  view_record : pyval;
  view_title : pyval;
  view_tabs : list pyval
}.

(** The record is a mapping with that title and those tabs, in either
    shape, and every tab has a [url]; a record without a [tabs] entry has
    no tabs. *)
Definition complete_workspace (v : workspace_view) : Prop :=
  exists kvs, view_record v = PDict kvs
    /\ dict_lookup (key "title") kvs = Some (view_title v)
    /\ (dict_lookup (key "tabs") kvs = None /\ view_tabs v = []
        \/ exists s, dict_lookup (key "tabs") kvs = Some (coll s (view_tabs v)))
    /\ Forall has_url (view_tabs v).

(** The views [make_bookmarks] renders: all of them without a filter,
    those whose title is a string of the filter otherwise. *)
Definition rendered_views (workspaces : option (list pystr))
    (views : list workspace_view) : list workspace_view :=
  if truthy workspaces
  then List.filter (fun v => title_in (view_title v) (default [] workspaces)) views
  else views.

(** Two filters name the same titles. *)
Definition same_titles (ws ws' : list pystr) : Prop :=
  forall t, In t ws <-> In t ws'.
(* ===================================================================== *)
(** ** The parser that keeps the events it has had                        *)
(* ===================================================================== *)

Module VerboseParser.

Section Events.

(** The events of [yaml.events]: objects, all of them true in an [if]. *)
Variable Event : Type.

(** The attributes of the parser that the class touches.  [state] is the
    method that produces the next event; it is given by the events it
    will produce, and is false in an [if] when none is left.
    [_event_history] is [None] as long as the object has no such
    attribute. *)
Record Parser : Type := {
  state : list Event;
  _current_event : option Event;
  _event_history : option (list Event)
}.

(** Source lines 140-142. *)
Definition current_event (p : Parser) : option Event := _current_event p.

(** Source lines 144-149: the setter of [current_event]. *)
Definition set_current_event (value : option Event) (p : Parser) : Parser :=
  let history := match _event_history p with
                 | Some history => history
                 | None => []
                 end in
  {| state := state p;
     _current_event := value;
     _event_history := Some (match value with
                             | Some event => history ++ [event]
                             | None => history
                             end) |}.

(** Source lines 136-138.  [Parser.__init__] assigns [None] to
    [current_event], which goes through the setter, and sets [state]. *)
Definition __init__ (events : list Event) : Parser :=
  let p := set_current_event None
             {| state := events; _current_event := None; _event_history := None |} in
  {| state := state p; _current_event := None; _event_history := _event_history p |}.

(** What [check_event], [peek_event] and [get_event] of
    [yaml.parser.Parser] start with: when there is no current event and
    [state] is set, the next event is produced and assigned. *)
Definition produce (p : Parser) : Parser :=
  match current_event p with
  | Some _ => p
  | None =>
      match state p with
      | event :: events =>
          set_current_event (Some event)
            {| state := events; _current_event := _current_event p;
               _event_history := _event_history p |}
      | [] => p
      end
  end.

(** [Parser.check_event]; [choices] is the test the event classes given
    make, [None] when none is given. *)
Definition check_event (choices : option (Event -> bool)) (p : Parser)
    : bool * Parser :=
  let p := produce p in
  (match current_event p with
   | Some event =>
       match choices with
       | None => true
       | Some is_choice => is_choice event
       end
   | None => false
   end, p).

(** [Parser.peek_event()]. *)
Definition peek_event (p : Parser) : option Event * Parser :=
  let p := produce p in (current_event p, p).

(** [Parser.get_event()]. *)
Definition get_event (p : Parser) : option Event * Parser :=
  let p := produce p in
  let value := current_event p in
  (value, set_current_event None p).

(** The current event as a list, empty when there is none. *)
Definition looked_at (p : Parser) : list Event :=
  match current_event p with
  | Some event => [event]
  | None => []
  end.

(** A call of one of the three methods. *)
Inductive call : Type :=
| Check (choices : option (Event -> bool))
| Peek
| Get.

(** The calls in turn: the events [get_event] has returned, and the
    parser. *)
Fixpoint calls (cs : list call) (p : Parser) : list Event * Parser :=
  match cs with
  | [] => ([], p)
  | Check choices :: cs => calls cs (snd (check_event choices p))
  | Peek :: cs => calls cs (snd (peek_event p))
  | Get :: cs =>
      let r := get_event p in
      let rs := calls cs (snd r) in
      (match fst r with
       | Some event => event :: fst rs
       | None => fst rs
       end, snd rs)
  end.

(** The events among the values assigned. *)
Definition events_of (values : list (option Event)) : list Event :=
  omap id values.

End Events.

End VerboseParser.

(* ===================================================================== *)
(** ** The scanner that keeps the tokens it has given                     *)
(* ===================================================================== *)

Module VerboseScanner.

Section Tokens.

Variable Token : Type.

(** The attributes of [yaml.scanner.Scanner] other than the two the
    method reads. *)
Variable Rest : Type.

Record Scanner : Type := {
  tokens : list Token;
  tokens_taken : Z;
  rest : Rest
}.

(** The scanner with the attribute the class adds; [None] as long as the
    object has no such attribute. *)
Record VerboseScanner : Type := {
  scanner : Scanner;
  _token_history : option (list (atom * Token))
}.

(** [Scanner.need_more_tokens] and [Scanner.fetch_more_tokens], which
    know nothing of [_token_history]. *)
Variable need_more_tokens : Scanner -> result (bool * Scanner).
Variable fetch_more_tokens : Scanner -> result Scanner.

(** Source lines 166-167.  A bound that was too small shows as
    [SystemError]. *)
Fixpoint fetch_loop (fuel : nat) (s : Scanner) : result Scanner :=
  match fuel with
  | O => Raise SystemError
  | S fuel' =>
      more <- need_more_tokens s ;;
      if fst more
      then (s' <- fetch_more_tokens (snd more) ;; fetch_loop fuel' s')
      else Ok (snd more)
  end.

(** Source lines 162-177: the token, [None] when the method falls off its
    end, and the scanner. *)
Definition get_token (fuel : nat) (v : VerboseScanner)
    : result (option Token * VerboseScanner) :=
  s <- fetch_loop fuel (scanner v) ;;
  match tokens s with
  | t :: ts =>
      let taken := tokens_taken s + 1 in
      let history := match _token_history v with
                     | Some history => history
                     | None => []
                     end in
      Ok (Some t,
          {| scanner := {| tokens := ts; tokens_taken := taken; rest := rest s |};
             _token_history := Some (dict_store (AInt taken) t history) |})
  | [] => Ok (None, {| scanner := s; _token_history := _token_history v |})
  end.

(** [n] calls of [get_token] in a row: what each returned, and the
    scanner. *)
Fixpoint get_tokens (fuel n : nat) (v : VerboseScanner)
    : result (list (option Token) * VerboseScanner) :=
  match n with
  | O => Ok ([], v)
  | S n' =>
      r <- get_token fuel v ;;
      rs <- get_tokens fuel n' (snd r) ;;
      Ok (fst r :: fst rs, snd rs)
  end.

(** The tokens with their numbers from [k] on. *)
Fixpoint numbered (k : Z) (ts : list Token) : list (atom * Token) :=
  match ts with
  | [] => []
  | t :: ts => (AInt k, t) :: numbered (k + 1) ts
  end.

End Tokens.

End VerboseScanner.
(* ===================================================================== *)
(** ** More example inputs                                                 *)
(* ===================================================================== *)

(** The three workspaces of [three_workspaces] with their titles and tab
    records. *)
Definition three_views : list workspace_view :=
  [{| view_record := work_record; view_title := PStr "Work";
      view_tabs := [tab_record "https://w.test" "Tracker"] |};
   {| view_record := home_record; view_title := PStr "Home";
      view_tabs := [PDict [(key "url", PStr "https://x.test")]] |};
   {| view_record := work2_record; view_title := PStr "Work2"; view_tabs := [] |}].

(** An export whose [Workspaces] mapping is keyed from 1. *)
Definition keyed_from_one : pyval :=
  PDict [(key "Workspaces", PDict [(AInt 1, work_record); (AInt 2, home_record)])].

(** A workspace whose [tabs] entry is null. *)
Definition null_tabs_record : list (atom * pyval) :=
  [(key "title", PStr "Empty"); (key "tabs", PAtom ANone)].

Definition home_and_null_tabs : pyval :=
  PDict [(key "Workspaces", PList [home_record; PDict null_tabs_record])].

(** The text of a small export. *)
Definition small_export : pystr :=
  lit "  Plan: Q3 " ++ [ch_dquote] ++ lit "draft" ++ [ch_dquote; ch_lf] ++ lit "url: x".

(** A scanner whose tokens are the characters of its input, fetched one
    at a time when the queue is empty. *)
Definition one_char_need_more (s : VerboseScanner.Scanner N pystr)
    : result (bool * VerboseScanner.Scanner N pystr) :=
  Ok (match VerboseScanner.tokens N pystr s, VerboseScanner.rest N pystr s with
      | [], _ :: _ => true
      | _, _ => false
      end, s).

Definition one_char_fetch (s : VerboseScanner.Scanner N pystr)
    : result (VerboseScanner.Scanner N pystr) :=
  match VerboseScanner.rest N pystr s with
  | c :: input =>
      Ok {| VerboseScanner.tokens := VerboseScanner.tokens N pystr s ++ [c];
            VerboseScanner.tokens_taken := VerboseScanner.tokens_taken N pystr s;
            VerboseScanner.rest := input |}
  | [] => Raise ScannerError
  end.

Definition one_char_scanner (input : pystr) : VerboseScanner.VerboseScanner N pystr :=
  {| VerboseScanner.scanner :=
       {| VerboseScanner.tokens := []; VerboseScanner.tokens_taken := 0;
          VerboseScanner.rest := input |};
     VerboseScanner._token_history := None |}.

(** The scanner of [one_char_scanner] after it has given both characters
    of its input. *)
Definition two_chars_given : VerboseScanner.VerboseScanner N pystr :=
  {| VerboseScanner.scanner :=
       {| VerboseScanner.tokens := []; VerboseScanner.tokens_taken := 2;
          VerboseScanner.rest := [] |};
     VerboseScanner._token_history := Some [(AInt 1, 97%N); (AInt 2, 98%N)] |}.

(* ===================================================================== *)
(** ** Facts about the Python operations                                   *)
(* ===================================================================== *)

Lemma bind_ok {A B} (m : result A) (k : A -> result B) (b : B) :
  bind m k = Ok b -> exists a, m = Ok a /\ k a = Ok b.
Proof. destruct m as [a|e]; simpl; intros H; [eauto | discriminate]. Qed.

Lemma bind_raise {A B} (m : result A) (k : A -> result B) (e : exn) :
  bind m k = Raise e -> m = Raise e \/ exists a, m = Ok a /\ k a = Raise e.
Proof.
  destruct m as [a|e']; simpl; intros H; [eauto|].
  left. injection H as ->. reflexivity.
Qed.

Lemma str_eqb_eq (a b : pystr) : str_eqb a b = true <-> a = b.
Proof. unfold str_eqb. apply bool_decide_eq_true. Qed.

Lemma atom_eqb_int_int (i j : Z) : atom_eqb (AInt i) (AInt j) = (i =? j).
Proof. reflexivity. Qed.

Lemma atom_eqb_int_inv (i : Z) (a : atom) :
  atom_eqb (AInt i) a = true -> atom_int a = Some i.
Proof.
  destruct a as [|b|z|s]; simpl; try discriminate.
  - destruct b; intros H; apply Z.eqb_eq in H; subst; reflexivity.
  - intros H; apply Z.eqb_eq in H; subst; reflexivity.
Qed.

Lemma dict_lookup_app {V} (k : atom) (a b : list (atom * V)) :
  dict_lookup k (a ++ b) =
  match dict_lookup k a with
  | Some v => Some v
  | None => dict_lookup k b
  end.
Proof.
  induction a as [|[k' v] a IH]; simpl; [reflexivity|].
  destruct (atom_eqb k k'); [reflexivity | exact IH].
Qed.

Lemma seq_index_lookup {V} (xs : list V) (i : nat) (v : V) :
  xs !! i = Some v -> seq_index xs (Z.of_nat i) = Ok v.
Proof.
  intros H. pose proof (lookup_lt_Some _ _ _ H) as Hlt.
  unfold seq_index.
  destruct (Z.ltb_spec (Z.of_nat i) 0) as [Hneg|_]; [lia|].
  destruct (Z.leb_spec 0 (Z.of_nat i)) as [_|Hneg]; [|lia].
  destruct (Z.ltb_spec (Z.of_nat i) (Z.of_nat (length xs))) as [_|Hge]; [|lia].
  simpl. rewrite Nat2Z.id, H. reflexivity.
Qed.

(** No key of an index-keyed mapping that starts at [k] is below [k]. *)
Lemma dict_lookup_index_keyed_below (k : nat) (recs : list pyval) (j : nat) :
  (j < k)%nat -> dict_lookup (AInt (Z.of_nat j)) (index_keyed_from k recs) = None.
Proof.
  revert k. induction recs as [|r recs IH]; intros k Hlt; simpl; [reflexivity|].
  destruct (Z.eqb_spec (Z.of_nat j) (Z.of_nat k)) as [Heq|_]; [lia|].
  apply IH. lia.
Qed.

Lemma dict_lookup_index_keyed_from (k : nat) (recs : list pyval) (i : nat) (r : pyval) :
  recs !! i = Some r ->
  dict_lookup (AInt (Z.of_nat (k + i))) (index_keyed_from k recs) = Some r.
Proof.
  revert k i. induction recs as [|r' recs IH]; intros k i H; [discriminate|].
  destruct i as [|i]; simpl in *.
  - injection H as ->. rewrite Nat.add_0_r, Z.eqb_refl. reflexivity.
  - destruct (Z.eqb_spec (Z.of_nat (k + S i)) (Z.of_nat k)) as [Heq|_]; [lia|].
    replace (k + S i)%nat with (S k + i)%nat by lia. apply IH, H.
Qed.

Lemma dict_lookup_index_keyed (recs : list pyval) (i : nat) (r : pyval) :
  recs !! i = Some r ->
  dict_lookup (AInt (Z.of_nat i)) (index_keyed recs) = Some r.
Proof. intros H. apply (dict_lookup_index_keyed_from 0 recs i r H). Qed.

(** Storing under the next free index appends. *)
Lemma dict_store_index_keyed_from (k : nat) (recs : list pyval) (v : pyval) :
  dict_store (AInt (Z.of_nat (k + length recs))) v (index_keyed_from k recs)
  = index_keyed_from k (recs ++ [v]).
Proof.
  revert k. induction recs as [|r recs IH]; intros k; simpl.
  - rewrite Nat.add_0_r. reflexivity.
  - destruct (Z.eqb_spec (Z.of_nat (k + S (length recs))) (Z.of_nat k)) as [Heq|_]; [lia|].
    replace (k + S (length recs))%nat with (S k + length recs)%nat by lia.
    rewrite IH. reflexivity.
Qed.

Lemma dict_store_index_keyed (recs : list pyval) (v : pyval) :
  dict_store (AInt (Z.of_nat (length recs))) v (index_keyed recs)
  = index_keyed (recs ++ [v]).
Proof. apply (dict_store_index_keyed_from 0). Qed.

(* ===================================================================== *)
(** ** Loops over a collection in either shape                             *)
(* ===================================================================== *)

Lemma iterate_index_keyed_from (k : nat) (recs : list pyval) :
  map (fun kv : atom * pyval => PAtom (fst kv)) (index_keyed_from k recs)
  = items_from Mapping k recs.
Proof.
  revert k. induction recs as [|r recs IH]; intros k; simpl; [reflexivity|].
  rewrite IH. reflexivity.
Qed.

Lemma items_from_sequence (k : nat) (recs : list pyval) :
  items_from Sequence k recs = recs.
Proof.
  revert k. induction recs as [|r recs IH]; intros k; simpl; [reflexivity|].
  rewrite IH. reflexivity.
Qed.

Lemma iterate_coll (s : shape) (recs : list pyval) :
  iterate (coll s recs) = Ok (items_from s 0 recs).
Proof.
  destruct s; simpl.
  - unfold index_keyed. rewrite iterate_index_keyed_from. reflexivity.
  - rewrite items_from_sequence. reflexivity.
Qed.

Lemma for_enumerate_from {St} (body : St -> Z -> pyval -> result St)
    (body' : St -> pyval -> result St) (s : shape) (recs : list pyval) :
  (forall st i r, recs !! i = Some r ->
                  body st (Z.of_nat i) (item s i r) = body' st r) ->
  forall before rest st, recs = before ++ rest ->
    for_enumerate body (Z.of_nat (length before))
                  (items_from s (length before) rest) st
    = for_each body' rest st.
Proof.
  intros Hbody before rest. revert before.
  induction rest as [|r rest IH]; intros before st Heq; simpl; [reflexivity|].
  rewrite (Hbody st (length before) r).
  2:{ subst recs. rewrite lookup_app_r by lia. rewrite Nat.sub_diag. reflexivity. }
  destruct (body' st r) as [st'|e]; simpl; [|reflexivity].
  specialize (IH (before ++ [r]) st').
  rewrite length_app in IH. simpl in IH.
  replace (Z.of_nat (length before) + 1) with (Z.of_nat (length before + 1)) by lia.
  replace (S (length before)) with (length before + 1)%nat by lia.
  apply IH. subst recs. rewrite <- app_assoc. reflexivity.
Qed.

Lemma for_enumerate_coll {St} (body : St -> Z -> pyval -> result St)
    (body' : St -> pyval -> result St) (s : shape) (recs : list pyval) (st : St) :
  (forall st i r, recs !! i = Some r ->
                  body st (Z.of_nat i) (item s i r) = body' st r) ->
  for_enumerate body 0 (items_from s 0 recs) st = for_each body' recs st.
Proof.
  intros Hbody. apply (for_enumerate_from body body' s recs Hbody [] recs st).
  reflexivity.
Qed.

Lemma for_enumerate_ext {St} (f g : St -> Z -> pyval -> result St) :
  (forall st i v, f st i v = g st i v) ->
  forall items i st, for_enumerate f i items st = for_enumerate g i items st.
Proof.
  intros Hfg items. induction items as [|v items IH]; intros i st; simpl; [reflexivity|].
  rewrite Hfg. destruct (g st i v); simpl; [apply IH | reflexivity].
Qed.

Lemma for_each_ext {St} (f g : St -> pyval -> result St) (recs : list pyval) :
  (forall st r, In r recs -> f st r = g st r) ->
  forall st, for_each f recs st = for_each g recs st.
Proof.
  induction recs as [|r recs IH]; intros Hfg st; simpl; [reflexivity|].
  rewrite Hfg by (left; reflexivity).
  destruct (g st r); simpl; [|reflexivity].
  apply IH. intros st' r' Hin. apply Hfg. right; exact Hin.
Qed.

(** The record behind position [i] of a collection, in either shape. *)
Lemma select_in_coll (s : shape) (recs : list pyval) (i : nat) (r : pyval) :
  recs !! i = Some r ->
  (int_eq (Z.of_nat i) (item s i r) = true ->
     getitem (coll s recs) (item s i r) = Ok r
     /\ getitem (coll s recs) (PInt (Z.of_nat i)) = Ok r)
  /\ (int_eq (Z.of_nat i) (item s i r) = false -> item s i r = r).
Proof.
  intros H. destruct s; simpl.
  - rewrite Z.eqb_refl. split; [|discriminate]. intros _.
    unfold PInt. simpl. rewrite (dict_lookup_index_keyed recs i r H). auto.
  - split; [|reflexivity]. intros Heq.
    destruct r as [a| |]; simpl in Heq; try discriminate.
    apply atom_eqb_int_inv in Heq. unfold PInt. simpl. rewrite Heq.
    rewrite (seq_index_lookup recs i _ H). auto.
Qed.

Lemma select_workspace_coll (s : shape) (data : pyval) (recs : list pyval)
    (i : nat) (r : pyval) :
  getitem data (PStr "Workspaces") = Ok (coll s recs) ->
  recs !! i = Some r ->
  select_workspace data (Z.of_nat i) (item s i r) = Ok r.
Proof.
  intros Hws H. unfold select_workspace.
  destruct (select_in_coll s recs i r H) as [Heq Hne].
  destruct (int_eq (Z.of_nat i) (item s i r)).
  - rewrite Hws. simpl. apply Heq. reflexivity.
  - rewrite Hne; reflexivity.
Qed.

Lemma select_tab_coll (s : shape) (workspace : pyval) (tabs : list pyval)
    (i : nat) (t : pyval) :
  getitem workspace (PStr "tabs") = Ok (coll s tabs) ->
  tabs !! i = Some t ->
  select_tab workspace (Z.of_nat i) (item s i t) = Ok t.
Proof.
  intros Htabs H. unfold select_tab.
  destruct (select_in_coll s tabs i t H) as [Heq Hne].
  destruct (int_eq (Z.of_nat i) (item s i t)).
  - rewrite Htabs. simpl. apply Heq. reflexivity.
  - rewrite Hne; reflexivity.
Qed.

(* ===================================================================== *)
(** ** The renderer                                                        *)
(* ===================================================================== *)

Section RendererFacts.

Variable repr : pyval -> pystr.

(** A loop whose body only appends to [output] only appends. *)
Lemma for_enumerate_appends (body : list pystr -> Z -> pyval -> result (list pystr)) :
  (forall out i v, body out i v = (ls <- body [] i v ;; Ok (out ++ ls))) ->
  forall items i out,
    for_enumerate body i items out
    = (ls <- for_enumerate body i items [] ;; Ok (out ++ ls)).
Proof.
  intros Hbody items. induction items as [|v items IH]; intros i out; simpl.
  - rewrite app_nil_r. reflexivity.
  - rewrite (Hbody out). destruct (body [] i v) as [ls|e]; simpl; [|reflexivity].
    rewrite (IH (i + 1) (out ++ ls)), (IH (i + 1) ls).
    destruct (for_enumerate body (i + 1) items []) as [ls2|e]; simpl; [|reflexivity].
    rewrite app_assoc. reflexivity.
Qed.

Lemma for_each_appends (body : list pystr -> pyval -> result (list pystr)) :
  (forall out r, body out r = (ls <- body [] r ;; Ok (out ++ ls))) ->
  forall recs out,
    for_each body recs out = (ls <- for_each body recs [] ;; Ok (out ++ ls)).
Proof.
  intros Hbody recs. induction recs as [|r recs IH]; intros out; simpl.
  - rewrite app_nil_r. reflexivity.
  - rewrite (Hbody out). destruct (body [] r) as [ls|e]; simpl; [|reflexivity].
    rewrite (IH (out ++ ls)), (IH ls).
    destruct (for_each body recs []) as [ls2|e]; simpl; [|reflexivity].
    rewrite app_assoc. reflexivity.
Qed.

Lemma tab_entry_line (out : list pystr) (tab : pyval) :
  tab_entry repr out tab = (l <- tab_line_of repr tab ;; Ok (out ++ [l])).
Proof.
  unfold tab_entry, tab_line_of.
  destruct (getitem tab (PStr "url")) as [url|e]; simpl; [|reflexivity].
  destruct (get_default tab (key "title") url); reflexivity.
Qed.

Lemma tab_entry_appends (out : list pystr) (tab : pyval) :
  tab_entry repr out tab = (ls <- tab_entry repr [] tab ;; Ok (out ++ ls)).
Proof.
  rewrite !tab_entry_line.
  destruct (tab_line_of repr tab); reflexivity.
Qed.

Lemma tab_body_appends (workspace : pyval) (out : list pystr) (i : Z) (v : pyval) :
  tab_body repr workspace out i v
  = (ls <- tab_body repr workspace [] i v ;; Ok (out ++ ls)).
Proof.
  unfold tab_body.
  destruct (select_tab workspace i v) as [tab|e]; simpl; [|reflexivity].
  apply tab_entry_appends.
Qed.

Lemma workspace_entry_appends (out : list pystr) (workspace : pyval) :
  workspace_entry repr out workspace
  = (ls <- workspace_entry repr [] workspace ;; Ok (out ++ ls)).
Proof.
  unfold workspace_entry.
  destruct (getitem workspace (PStr "title")) as [title|e]; simpl; [|reflexivity].
  destruct (contains (lit "tabs") workspace) as [[|]|e]; simpl; try reflexivity.
  - destruct (getitem workspace (PStr "tabs")) as [tabs|e]; simpl; [|reflexivity].
    destruct (iterate tabs) as [items|e]; simpl; [|reflexivity].
    rewrite (for_enumerate_appends _ (tab_body_appends workspace) items 0
               ((out ++ [workspace_heading repr title]) ++ [tabs_open])).
    rewrite (for_enumerate_appends _ (tab_body_appends workspace) items 0
               [workspace_heading repr title; tabs_open]).
    destruct (for_enumerate (tab_body repr workspace) 0 items []) as [ls|e];
      simpl; [|reflexivity].
    rewrite <- !app_assoc. reflexivity.
  - rewrite <- !app_assoc. reflexivity.
Qed.

Lemma workspace_body_appends (data : pyval) (out : list pystr) (i : Z) (v : pyval) :
  workspace_body repr data out i v
  = (ls <- workspace_body repr data [] i v ;; Ok (out ++ ls)).
Proof.
  unfold workspace_body.
  destruct (select_workspace data i v) as [w|e]; simpl; [|reflexivity].
  apply workspace_entry_appends.
Qed.

Lemma render_workspaces_appends (data : pyval) (out : list pystr) :
  render_workspaces repr data out
  = (ls <- render_workspaces repr data [] ;; Ok (out ++ ls)).
Proof.
  unfold render_workspaces.
  destruct (getitem data (PStr "Workspaces")) as [ws|e]; simpl; [|reflexivity].
  destruct (iterate ws) as [items|e]; simpl; [|reflexivity].
  apply (for_enumerate_appends _ (workspace_body_appends data)).
Qed.

(** [make_bookmarks] wraps the lines of the workspace groups. *)
Lemma make_bookmarks_document (data : pyval) (workspaces : option (list pystr))
    (wrapped : bool) :
  make_bookmarks repr data workspaces wrapped
  = (body <- workspace_lines repr data workspaces ;; Ok (document wrapped body)).
Proof.
  unfold make_bookmarks, workspace_lines.
  destruct (filter_workspaces data workspaces) as [data'|e]; simpl; [|reflexivity].
  rewrite render_workspaces_appends.
  destruct (render_workspaces repr data' []) as [body|e]; simpl; [|reflexivity].
  unfold document. destruct wrapped; simpl; rewrite <- ?app_assoc; reflexivity.
Qed.

(** The second loop over a collection in either shape visits its
    records in order. *)
Lemma render_workspaces_coll (s : shape) (data : pyval) (recs : list pyval)
    (out : list pystr) :
  getitem data (PStr "Workspaces") = Ok (coll s recs) ->
  render_workspaces repr data out = for_each (workspace_entry repr) recs out.
Proof.
  intros Hws. unfold render_workspaces. rewrite Hws. simpl.
  rewrite iterate_coll. simpl.
  apply for_enumerate_coll. intros st i r Hr.
  unfold workspace_body. rewrite (select_workspace_coll s data recs i r Hws Hr).
  reflexivity.
Qed.

Lemma filter_entry_select (workspaces : list pystr) (recs acc : list pyval) :
  for_each (filter_entry workspaces) recs
           (index_keyed acc, Z.of_nat (length acc))
  = (sel <- select_records workspaces recs ;;
     Ok (index_keyed (acc ++ sel), Z.of_nat (length (acc ++ sel)))).
Proof.
  revert acc. induction recs as [|r recs IH]; intros acc; simpl.
  - rewrite app_nil_r. reflexivity.
  - unfold filter_entry at 1.
    destruct (getitem r (PStr "title")) as [title|e]; simpl; [|reflexivity].
    destruct (title_in title workspaces); simpl.
    + rewrite dict_store_index_keyed.
      replace (Z.of_nat (length acc) + 1) with (Z.of_nat (length (acc ++ [r])))
        by (rewrite length_app; simpl; lia).
      rewrite IH.
      destruct (select_records workspaces recs) as [sel|e]; simpl; [|reflexivity].
      rewrite <- app_assoc. reflexivity.
    + rewrite IH.
      destruct (select_records workspaces recs) as [sel|e]; reflexivity.
Qed.

(** The first loop builds an index-keyed mapping of the records it keeps. *)
Lemma filter_workspaces_coll (s : shape) (data : pyval) (recs : list pyval)
    (w : pystr) (ws : list pystr) :
  getitem data (PStr "Workspaces") = Ok (coll s recs) ->
  filter_workspaces data (Some (w :: ws))
  = (sel <- select_records (w :: ws) recs ;;
     Ok (PDict [(key "Workspaces", coll Mapping sel)])).
Proof.
  intros Hws. unfold filter_workspaces. simpl truthy. cbv iota.
  rewrite Hws. simpl bind at 1. rewrite iterate_coll. simpl bind at 1.
  rewrite (for_enumerate_coll (filter_body data (default [] (Some (w :: ws))))
             (filter_entry (w :: ws)) s recs).
  2:{ intros st i r Hr. unfold filter_body.
      rewrite (select_workspace_coll s data recs i r Hws Hr). reflexivity. }
  change (@nil (atom * pyval), 0) with (index_keyed [], Z.of_nat (length (@nil pyval))).
  rewrite (filter_entry_select (w :: ws) recs []).
  destruct (select_records (w :: ws) recs) as [sel|e]; reflexivity.
Qed.

Lemma workspace_lines_coll (s : shape) (data : pyval) (recs : list pyval)
    (workspaces : option (list pystr)) :
  getitem data (PStr "Workspaces") = Ok (coll s recs) ->
  workspace_lines repr data workspaces
  = (sel <- rendered_records workspaces recs ;; workspace_groups repr sel).
Proof.
  intros Hws. unfold workspace_lines, rendered_records, workspace_groups.
  destruct workspaces as [[|w ws]|].
  - simpl. apply (render_workspaces_coll s data recs [] Hws).
  - rewrite (filter_workspaces_coll s data recs w ws Hws). simpl truthy. cbv iota.
    simpl default.
    destruct (select_records (w :: ws) recs) as [sel|e]; simpl; [|reflexivity].
    apply (render_workspaces_coll Mapping _ sel []). reflexivity.
  - simpl. apply (render_workspaces_coll s data recs [] Hws).
Qed.

(** The loops read [data] and [workspace] only through their lookups. *)
Lemma select_workspace_ext (d1 d2 : pyval) (i : Z) (v : pyval) :
  getitem d1 (PStr "Workspaces") = getitem d2 (PStr "Workspaces") ->
  select_workspace d1 i v = select_workspace d2 i v.
Proof. intros H. unfold select_workspace. rewrite H. reflexivity. Qed.

Lemma select_tab_ext (w1 w2 : pyval) (i : Z) (v : pyval) :
  getitem w1 (PStr "tabs") = getitem w2 (PStr "tabs") ->
  select_tab w1 i v = select_tab w2 i v.
Proof. intros H. unfold select_tab. rewrite H. reflexivity. Qed.

Lemma render_workspaces_ext (d1 d2 : pyval) (out : list pystr) :
  getitem d1 (PStr "Workspaces") = getitem d2 (PStr "Workspaces") ->
  render_workspaces repr d1 out = render_workspaces repr d2 out.
Proof.
  intros H.
  pose proof (fun i v => select_workspace_ext d1 d2 i v H) as Hsel.
  unfold render_workspaces. rewrite H.
  destruct (getitem d2 (PStr "Workspaces")) as [ws|e]; simpl; [|reflexivity].
  destruct (iterate ws) as [items|e]; simpl; [|reflexivity].
  apply for_enumerate_ext. intros st i v. unfold workspace_body.
  rewrite Hsel. reflexivity.
Qed.

Lemma filter_workspaces_ext (d1 d2 : pyval) (w : pystr) (ws : list pystr) :
  getitem d1 (PStr "Workspaces") = getitem d2 (PStr "Workspaces") ->
  filter_workspaces d1 (Some (w :: ws)) = filter_workspaces d2 (Some (w :: ws)).
Proof.
  intros H.
  pose proof (fun i v => select_workspace_ext d1 d2 i v H) as Hsel.
  unfold filter_workspaces. simpl truthy. cbv iota. rewrite H.
  destruct (getitem d2 (PStr "Workspaces")) as [c|e]; simpl; [|reflexivity].
  destruct (iterate c) as [items|e]; simpl; [|reflexivity].
  rewrite (for_enumerate_ext (filter_body d1 (w :: ws)) (filter_body d2 (w :: ws)));
    [reflexivity|].
  intros st i v. unfold filter_body.
  rewrite Hsel. reflexivity.
Qed.

Lemma make_bookmarks_ext (d1 d2 : pyval) (workspaces : option (list pystr))
    (wrapped : bool) :
  getitem d1 (PStr "Workspaces") = getitem d2 (PStr "Workspaces") ->
  make_bookmarks repr d1 workspaces wrapped = make_bookmarks repr d2 workspaces wrapped.
Proof.
  intros H. rewrite !make_bookmarks_document. unfold workspace_lines.
  destruct workspaces as [[|w ws]|].
  - simpl. rewrite (render_workspaces_ext d1 d2 [] H). reflexivity.
  - rewrite (filter_workspaces_ext d1 d2 w ws H). reflexivity.
  - simpl. rewrite (render_workspaces_ext d1 d2 [] H). reflexivity.
Qed.

(** One workspace whose tabs are a collection in either shape. *)
Lemma workspace_entry_coll (s : shape) (workspace : pyval) (tabs : list pyval)
    (out : list pystr) :
  contains (lit "tabs") workspace = Ok true ->
  getitem workspace (PStr "tabs") = Ok (coll s tabs) ->
  workspace_entry repr out workspace
  = (title <- getitem workspace (PStr "title") ;;
     out' <- for_each (tab_entry repr) tabs
               ((out ++ [workspace_heading repr title]) ++ [tabs_open]) ;;
     Ok ((out' ++ [tabs_close]) ++ [workspace_close])).
Proof.
  intros Hin Htabs. unfold workspace_entry. rewrite Hin, Htabs.
  destruct (getitem workspace (PStr "title")) as [title|e]; simpl; [|reflexivity].
  rewrite iterate_coll. simpl.
  rewrite (for_enumerate_coll (tab_body repr workspace) (tab_entry repr) s tabs).
  - reflexivity.
  - intros st i t Ht. unfold tab_body.
    rewrite (select_tab_coll s workspace tabs i t Htabs Ht). reflexivity.
Qed.

Lemma key_title_tabs : atom_eqb (key "title") (key "tabs") = false.
Proof. reflexivity. Qed.

Lemma key_tabs_tabs : atom_eqb (key "tabs") (key "tabs") = true.
Proof. reflexivity. Qed.

Lemma workspace_rec_title (s : shape) (w : workspace_content) :
  getitem (workspace_rec s w) (PStr "title")
  = getitem (workspace_rec Sequence w) (PStr "title").
Proof.
  unfold workspace_rec, PStr, getitem. fold (key "title").
  rewrite !dict_lookup_app.
  destruct (dict_lookup (key "title") (ws_fields w)); [reflexivity|].
  destruct (ws_tabs w); simpl; rewrite ?key_title_tabs; reflexivity.
Qed.

Lemma workspace_entry_shape (s : shape) (w : workspace_content) (out : list pystr) :
  workspace_entry repr out (workspace_rec s w)
  = workspace_entry repr out (workspace_rec Sequence w).
Proof.
  destruct (dict_lookup (key "tabs") (ws_fields w)) as [v|] eqn:Hf.
  - (* the fields hold a [tabs] entry of their own: both records find it *)
    assert (Hget : forall s', getitem (workspace_rec s' w) (PStr "tabs") = Ok v).
    { intros s'. unfold workspace_rec, PStr, getitem. fold (key "tabs").
      rewrite dict_lookup_app, Hf. reflexivity. }
    assert (Hin : forall s', contains (lit "tabs") (workspace_rec s' w) = Ok true).
    { intros s'. unfold workspace_rec, contains, dict_has. fold (key "tabs").
      rewrite dict_lookup_app, Hf. reflexivity. }
    unfold workspace_entry. rewrite (workspace_rec_title s), !Hin, !Hget.
    destruct (getitem (workspace_rec Sequence w) (PStr "title")) as [title|e];
      simpl; [|reflexivity].
    destruct (iterate v) as [items|e]; simpl; [|reflexivity].
    rewrite (for_enumerate_ext (tab_body repr (workspace_rec s w))
               (tab_body repr (workspace_rec Sequence w))); [reflexivity|].
    intros st i t. unfold tab_body.
    rewrite (select_tab_ext (workspace_rec s w) (workspace_rec Sequence w) i t);
      [reflexivity|]. rewrite !Hget. reflexivity.
  - destruct (ws_tabs w) as [tabs|] eqn:Ht.
    + assert (Hget : forall s', getitem (workspace_rec s' w) (PStr "tabs")
                                = Ok (coll s' tabs)).
      { intros s'. unfold workspace_rec, PStr, getitem. fold (key "tabs").
        rewrite dict_lookup_app, Hf, Ht. simpl; rewrite ?key_tabs_tabs; reflexivity. }
      assert (Hin : forall s', contains (lit "tabs") (workspace_rec s' w) = Ok true).
      { intros s'. unfold workspace_rec, contains, dict_has. fold (key "tabs").
        rewrite dict_lookup_app, Hf, Ht. simpl; rewrite ?key_tabs_tabs; reflexivity. }
      rewrite (workspace_entry_coll s _ tabs out (Hin s) (Hget s)).
      rewrite (workspace_entry_coll Sequence _ tabs out (Hin Sequence) (Hget Sequence)).
      rewrite (workspace_rec_title s). reflexivity.
    + unfold workspace_rec. rewrite Ht. reflexivity.
Qed.

Lemma for_each_map {St A} (body : St -> pyval -> result St) (f : A -> pyval)
    (xs : list A) (st : St) :
  for_each body (map f xs) st
  = (fix go (xs : list A) (st : St) : result St :=
       match xs with
       | [] => Ok st
       | x :: rest => st' <- body st (f x) ;; go rest st'
       end) xs st.
Proof.
  revert st. induction xs as [|x xs IH]; intros st; simpl; [reflexivity|].
  destruct (body st (f x)); simpl; [apply IH | reflexivity].
Qed.

Lemma workspace_groups_shape (s : shape) (wss : list workspace_content) :
  workspace_groups repr (map (workspace_rec s) wss)
  = workspace_groups repr (map (workspace_rec Sequence) wss).
Proof.
  unfold workspace_groups. rewrite !for_each_map. generalize (@nil pystr).
  induction wss as [|w wss IH]; intros out; [reflexivity|].
  rewrite (workspace_entry_shape s w out).
  destruct (workspace_entry repr out (workspace_rec Sequence w)); simpl;
    [apply IH | reflexivity].
Qed.

(** The first loop keeps the same workspaces in either shape. *)
Lemma select_records_shape (s : shape) (ws : list pystr) (wss : list workspace_content) :
  match select_records ws (map (workspace_rec s) wss),
        select_records ws (map (workspace_rec Sequence) wss) with
  | Ok a, Ok b =>
      exists sel, a = map (workspace_rec s) sel /\ b = map (workspace_rec Sequence) sel
  | Raise e1, Raise e2 => e1 = e2
  | _, _ => False
  end.
Proof.
  induction wss as [|w wss IH].
  - exists []. split; reflexivity.
  - cbn [map select_records]. rewrite (workspace_rec_title s).
    destruct (getitem (workspace_rec Sequence w) (PStr "title")) as [title|e];
      cbn [bind]; [|reflexivity].
    destruct (select_records ws (map (workspace_rec s) wss)) as [a|e1],
             (select_records ws (map (workspace_rec Sequence) wss)) as [b|e2];
      cbn [bind]; try contradiction; [|exact IH].
    destruct IH as (sel & -> & ->).
    destruct (title_in title ws).
    + exists (w :: sel). split; reflexivity.
    + exists sel. split; reflexivity.
Qed.

(** C3: an export tree renders to the same text whether its collections
    of workspaces and of tabs are index-keyed mappings (keys 0..n-1) or
    plain sequences of the same records in the same order, under the
    same filter and the same wrapping flag. *)
Theorem make_bookmarks_shape_independent
    (before after : list (atom * pyval)) (wss : list workspace_content)
    (workspaces : option (list pystr)) (wrapped : bool) :
  make_bookmarks repr (export_tree Mapping before after wss) workspaces wrapped
  = make_bookmarks repr (export_tree Sequence before after wss) workspaces wrapped.
Proof.
  destruct (dict_lookup (key "Workspaces") before) as [v|] eqn:Hb.
  - apply make_bookmarks_ext. unfold export_tree, PStr, getitem.
    fold (key "Workspaces"). rewrite !dict_lookup_app, Hb. reflexivity.
  - assert (Hget : forall s, getitem (export_tree s before after wss) (PStr "Workspaces")
                             = Ok (coll s (map (workspace_rec s) wss))).
    { intros s. unfold export_tree, PStr, getitem. fold (key "Workspaces").
      rewrite dict_lookup_app, Hb. reflexivity. }
    rewrite !make_bookmarks_document.
    rewrite (workspace_lines_coll Mapping _ _ workspaces (Hget Mapping)).
    rewrite (workspace_lines_coll Sequence _ _ workspaces (Hget Sequence)).
    unfold rendered_records. destruct (truthy workspaces).
    + pose proof (select_records_shape Mapping (default [] workspaces) wss) as Hsel.
      destruct (select_records (default [] workspaces) (map (workspace_rec Mapping) wss))
        as [a|e1],
        (select_records (default [] workspaces) (map (workspace_rec Sequence) wss))
        as [b|e2]; try contradiction.
      * destruct Hsel as (sel & -> & ->). simpl.
        rewrite (workspace_groups_shape Mapping sel). reflexivity.
      * subst e2. reflexivity.
    + simpl. rewrite (workspace_groups_shape Mapping wss). reflexivity.
Qed.

Lemma for_enumerate_preserves {St} (P : St -> Prop)
    (body : St -> Z -> pyval -> result St) :
  (forall st i v st', P st -> body st i v = Ok st' -> P st') ->
  forall items i st st', P st -> for_enumerate body i items st = Ok st' -> P st'.
Proof.
  intros Hbody items. induction items as [|v items IH]; intros i st st' HP H; simpl in H.
  - injection H as <-. exact HP.
  - apply bind_ok in H as (st1 & H1 & H2).
    apply (IH (i + 1) st1 st'); [|exact H2]. apply (Hbody st i v st1 HP H1).
Qed.

Lemma tab_body_indented (workspace : pyval) (out : list pystr) (i : Z) (v : pyval)
    (out' : list pystr) :
  Forall indented out -> tab_body repr workspace out i v = Ok out' ->
  Forall indented out'.
Proof.
  intros Hout H. unfold tab_body in H.
  apply bind_ok in H as (tab & _ & H). rewrite tab_entry_line in H.
  apply bind_ok in H as (l & Hl & H). injection H as <-.
  apply Forall_app. split; [exact Hout|]. constructor; [|constructor].
  unfold tab_line_of in Hl.
  apply bind_ok in Hl as (url & _ & Hl). apply bind_ok in Hl as (desc & _ & Hl).
  injection Hl as <-. unfold tab_line. simpl. eexists. reflexivity.
Qed.

Lemma workspace_entry_indented (out : list pystr) (workspace : pyval)
    (out' : list pystr) :
  Forall indented out -> workspace_entry repr out workspace = Ok out' ->
  Forall indented out'.
Proof.
  intros Hout H. unfold workspace_entry in H.
  apply bind_ok in H as (title & _ & H).
  apply bind_ok in H as (has_tabs & _ & H).
  apply bind_ok in H as (out1 & H1 & H). injection H as <-.
  assert (Hhead : Forall indented
            ((out ++ [workspace_heading repr title]) ++ [tabs_open])).
  { rewrite !Forall_app. repeat split; try exact Hout;
      (constructor; [|constructor]); eexists; reflexivity. }
  assert (Hout1 : Forall indented out1).
  { destruct has_tabs.
    - apply bind_ok in H1 as (tabs & _ & H1). apply bind_ok in H1 as (items & _ & H1).
      apply (for_enumerate_preserves (Forall indented) (tab_body repr workspace)
               (tab_body_indented workspace) items 0 _ out1 Hhead H1).
    - injection H1 as <-. exact Hhead. }
  rewrite !Forall_app. repeat split; try exact Hout1;
    (constructor; [|constructor]); eexists; reflexivity.
Qed.

Lemma workspace_lines_indented (data : pyval) (workspaces : option (list pystr))
    (body : list pystr) :
  workspace_lines repr data workspaces = Ok body -> Forall indented body.
Proof.
  unfold workspace_lines, render_workspaces. intros H.
  apply bind_ok in H as (data' & _ & H). apply bind_ok in H as (ws & _ & H).
  apply bind_ok in H as (items & _ & H).
  apply (for_enumerate_preserves (Forall indented) (workspace_body repr data')) in H;
    [exact H| |constructor].
  intros st i v st' Hst Hb. unfold workspace_body in Hb.
  apply bind_ok in Hb as (w & _ & Hb).
  apply (workspace_entry_indented st w st' Hst Hb).
Qed.

(** C9: with [wrapped] the workspace groups stand between the opening and
    the closing line of one outer group titled [Workona Export], inside
    the list container; without it they stand directly inside the list
    container.  The lines of the workspace groups are the same in both
    cases, and none of them is the outer group's heading: each starts with
    a tab. *)
Theorem wrapping_toggle (data : pyval) (workspaces : option (list pystr)) :
  make_bookmarks repr data workspaces true
  = (body <- workspace_lines repr data workspaces ;;
     Ok (join [ch_lf] ([doctype_line; meta_line; list_open; wrapper_open]
                       ++ body ++ [wrapper_close; list_close])))
  /\ make_bookmarks repr data workspaces false
     = (body <- workspace_lines repr data workspaces ;;
        Ok (join [ch_lf] ([doctype_line; meta_line; list_open]
                          ++ body ++ [list_close])))
  /\ wrapper_open = lit "<DT><H3 FOLDED>Workona Export</H3>" ++ [ch_lf] ++ lit "<DL>"
  /\ (forall body, workspace_lines repr data workspaces = Ok body ->
                   Forall indented body /\ ~ In wrapper_open body).
Proof.
  split; [|split; [|split]].
  - rewrite make_bookmarks_document.
    destruct (workspace_lines repr data workspaces) as [body|e]; simpl; [|reflexivity].
    reflexivity.
  - rewrite make_bookmarks_document.
    destruct (workspace_lines repr data workspaces) as [body|e]; simpl; [|reflexivity].
    unfold document. simpl. reflexivity.
  - reflexivity.
  - intros body H. pose proof (workspace_lines_indented data workspaces body H) as Hind.
    split; [exact Hind|]. intros Hin.
    rewrite List.Forall_forall in Hind. destruct (Hind _ Hin) as [rest Hrest].
    discriminate Hrest.
Qed.

Lemma select_records_titled (ws : list pystr) (recs : list pyval) :
  Forall has_title recs ->
  select_records ws recs = Ok (List.filter (selected ws) recs).
Proof.
  induction 1 as [|r recs [title Hr] _ IH]; simpl; [reflexivity|].
  unfold selected at 1. rewrite Hr, IH. simpl.
  destruct (title_in title ws); reflexivity.
Qed.

Lemma selected_exact (ws : list pystr) (r : pyval) :
  selected ws r = true
  <-> exists t, getitem r (PStr "title") = Ok (PAtom (AStr t)) /\ In t ws.
Proof.
  unfold selected. split.
  - destruct (getitem r (PStr "title")) as [[[| | |t]| |]|e]; simpl; try discriminate.
    intros H. apply existsb_exists in H as (t' & Hin & Heq).
    apply str_eqb_eq in Heq. subst t'. exists t. split; [reflexivity | exact Hin].
  - intros (t & -> & Hin). simpl. apply existsb_exists. exists t.
    split; [exact Hin | apply str_eqb_eq; reflexivity].
Qed.

(** C7: for a tree whose workspaces all have a title, a non-empty filter
    makes the first loop build the mapping that holds, under the indices
    0..k-1 and in their original order, exactly the workspaces whose title
    is a string equal to a filter entry, and the document holds the groups
    of exactly those; with an empty or absent filter it holds the group
    of every workspace. *)
Theorem filter_exact (s : shape) (data : pyval) (recs : list pyval)
    (w : pystr) (ws : list pystr) (wrapped : bool) :
  getitem data (PStr "Workspaces") = Ok (coll s recs) ->
  Forall has_title recs ->
  let kept := List.filter (selected (w :: ws)) recs in
  filter_workspaces data (Some (w :: ws))
    = Ok (PDict [(key "Workspaces", PDict (index_keyed kept))])
  /\ make_bookmarks repr data (Some (w :: ws)) wrapped
     = (body <- workspace_groups repr kept ;; Ok (document wrapped body))
  /\ (forall r, In r kept <->
         In r recs /\ exists t, getitem r (PStr "title") = Ok (PAtom (AStr t))
                                /\ In t (w :: ws))
  /\ make_bookmarks repr data None wrapped
     = (body <- workspace_groups repr recs ;; Ok (document wrapped body))
  /\ make_bookmarks repr data (Some []) wrapped
     = (body <- workspace_groups repr recs ;; Ok (document wrapped body)).
Proof.
  intros Hws Htitled kept. repeat split.
  - rewrite (filter_workspaces_coll s data recs w ws Hws).
    rewrite (select_records_titled (w :: ws) recs Htitled). reflexivity.
  - rewrite make_bookmarks_document.
    rewrite (workspace_lines_coll s data recs _ Hws). unfold rendered_records.
    simpl truthy. cbv iota. simpl default.
    rewrite (select_records_titled (w :: ws) recs Htitled). reflexivity.
  - apply filter_In in H. apply H.
  - apply filter_In in H. apply selected_exact, H.
  - intros [Hin Hsel]. apply filter_In. split; [exact Hin|].
    apply selected_exact, Hsel.
  - rewrite make_bookmarks_document.
    rewrite (workspace_lines_coll s data recs _ Hws). reflexivity.
  - rewrite make_bookmarks_document.
    rewrite (workspace_lines_coll s data recs _ Hws). reflexivity.
Qed.

Lemma for_each_ok_each {St} (body : St -> pyval -> result St) (recs : list pyval)
    (st st' : St) :
  for_each body recs st = Ok st' ->
  forall r, In r recs -> exists st1 st2, body st1 r = Ok st2.
Proof.
  revert st. induction recs as [|r0 recs IH]; intros st H r Hin; [destruct Hin|].
  simpl in H. apply bind_ok in H as (st1 & H1 & H2).
  destruct Hin as [<-|Hin]; [eauto | apply (IH st1 H2 r Hin)].
Qed.

Lemma for_each_raise_some {St} (body : St -> pyval -> result St) (recs : list pyval)
    (st : St) (e : exn) :
  for_each body recs st = Raise e ->
  exists r st1, In r recs /\ body st1 r = Raise e.
Proof.
  revert st. induction recs as [|r0 recs IH]; intros st H; [discriminate|].
  simpl in H. apply bind_raise in H as [H|(st1 & H1 & H2)].
  - exists r0, st. split; [left; reflexivity | exact H].
  - destruct (IH st1 H2) as (r & st2 & Hin & Hr). exists r, st2.
    split; [right; exact Hin | exact Hr].
Qed.

Lemma select_records_ok (ws : list pystr) (recs sel : list pyval) :
  select_records ws recs = Ok sel ->
  Forall has_title recs /\ sel = List.filter (selected ws) recs.
Proof.
  revert sel. induction recs as [|r recs IH]; intros sel H; simpl in H.
  - injection H as <-. split; [constructor | reflexivity].
  - apply bind_ok in H as (title & Ht & H). apply bind_ok in H as (sel' & Hs & H).
    destruct (IH sel' Hs) as [Hall ->]. injection H as <-. split.
    + constructor; [exists title; exact Ht | exact Hall].
    + assert (Hsel : selected ws r = title_in title ws)
        by (unfold selected; rewrite Ht; reflexivity).
      cbn [List.filter]. rewrite Hsel. reflexivity.
Qed.

Lemma select_records_raise (ws : list pystr) (recs : list pyval) (e : exn) :
  select_records ws recs = Raise e ->
  exists r, In r recs /\ getitem r (PStr "title") = Raise e.
Proof.
  induction recs as [|r recs IH]; intros H; simpl in H; [discriminate|].
  apply bind_raise in H as [H|(title & Ht & H)].
  - exists r. split; [left; reflexivity | exact H].
  - apply bind_raise in H as [H|(sel & _ & H)]; [|discriminate].
    destruct (IH H) as (r' & Hin & Hr). exists r'. split; [right; exact Hin | exact Hr].
Qed.

Lemma getitem_dict_raise (kvs : list (atom * pyval)) (k : string) (e : exn) :
  getitem (PDict kvs) (PStr k) = Raise e -> e = KeyError.
Proof.
  unfold PStr. simpl. destruct (dict_lookup (AStr (lit k)) kvs); [discriminate|].
  intros H. injection H as <-. reflexivity.
Qed.

Lemma getitem_lacks (k : string) (record : pyval) :
  lacks k record -> getitem record (PStr k) = Raise KeyError.
Proof.
  intros (kvs & -> & Hk). unfold PStr. simpl. fold (key k). rewrite Hk. reflexivity.
Qed.

Lemma tab_entry_dict_raise (out : list pystr) (tab : pyval) (e : exn) :
  is_dict tab -> tab_entry repr out tab = Raise e -> e = KeyError.
Proof.
  intros [kvs ->] H. unfold tab_entry in H.
  apply bind_raise in H as [H|(url & _ & H)].
  - apply (getitem_dict_raise kvs "url" e H).
  - simpl in H. destruct (dict_lookup (key "title") kvs); discriminate.
Qed.

Lemma tab_entry_lacks_url (out : list pystr) (tab : pyval) :
  lacks "url" tab -> tab_entry repr out tab = Raise KeyError.
Proof.
  intros H. unfold tab_entry. rewrite (getitem_lacks "url" tab H). reflexivity.
Qed.

Lemma contains_tabs_dict (kvs : list (atom * pyval)) (c : pyval) :
  dict_lookup (key "tabs") kvs = Some c ->
  contains (lit "tabs") (PDict kvs) = Ok true
  /\ getitem (PDict kvs) (PStr "tabs") = Ok c.
Proof.
  intros H. unfold contains, dict_has, PStr, getitem. fold (key "tabs").
  rewrite H. split; reflexivity.
Qed.

Lemma workspace_entry_wf_raise (out : list pystr) (workspace : pyval) (e : exn) :
  wf_workspace workspace -> workspace_entry repr out workspace = Raise e ->
  e = KeyError.
Proof.
  intros (kvs & -> & Htabs) H.
  destruct Htabs as [Hnone|(s & tabs & Hsome & Hdicts)].
  - unfold workspace_entry in H.
    apply bind_raise in H as [H|(title & _ & H)];
      [apply (getitem_dict_raise kvs "title" e H)|].
    unfold contains, dict_has in H. fold (key "tabs") in H. rewrite Hnone in H.
    discriminate.
  - destruct (contains_tabs_dict kvs _ Hsome) as [Hin Hget].
    rewrite (workspace_entry_coll s (PDict kvs) tabs out Hin Hget) in H.
    apply bind_raise in H as [H|(title & _ & H)];
      [apply (getitem_dict_raise kvs "title" e H)|].
    apply bind_raise in H as [H|(out' & _ & H)]; [|discriminate].
    apply for_each_raise_some in H as (t & st & Ht & H).
    rewrite List.Forall_forall in Hdicts.
    apply (tab_entry_dict_raise st t e (Hdicts t Ht) H).
Qed.

(** A workspace whose group is rendered has a title, and each of its
    tabs a url. *)
Lemma workspace_entry_ok_complete (out out' : list pystr) (workspace : pyval) :
  workspace_entry repr out workspace = Ok out' ->
  ~ lacks "title" workspace
  /\ (forall kvs s tabs t,
        workspace = PDict kvs ->
        dict_lookup (key "tabs") kvs = Some (coll s tabs) ->
        In t tabs -> ~ lacks "url" t).
Proof.
  intros H. split.
  - intros Hl. unfold workspace_entry in H.
    rewrite (getitem_lacks "title" workspace Hl) in H. discriminate.
  - intros kvs s tabs t -> Hsome Ht Hl.
    destruct (contains_tabs_dict kvs _ Hsome) as [Hin Hget].
    rewrite (workspace_entry_coll s (PDict kvs) tabs out Hin Hget) in H.
    apply bind_ok in H as (title & _ & H). apply bind_ok in H as (out1 & H & _).
    destruct (for_each_ok_each _ _ _ _ H t Ht) as (st1 & st2 & Hok).
    rewrite (tab_entry_lacks_url st1 t Hl) in Hok. discriminate.
Qed.

(** On a tree of well-formed workspace records [make_bookmarks] returns
    the document or raises [KeyError]. *)
Lemma make_bookmarks_wf_outcome (s : shape) (data : pyval) (recs : list pyval)
    (workspaces : option (list pystr)) (wrapped : bool) :
  getitem data (PStr "Workspaces") = Ok (coll s recs) ->
  Forall wf_workspace recs ->
  match make_bookmarks repr data workspaces wrapped with
  | Ok _ =>
      exists sel, rendered_records workspaces recs = Ok sel
                  /\ forall r, In r sel -> exists out out',
                        workspace_entry repr out r = Ok out'
  | Raise e => e = KeyError
  end.
Proof.
  intros Hws Hwf. rewrite make_bookmarks_document.
  rewrite (workspace_lines_coll s data recs workspaces Hws).
  assert (Hsel : match rendered_records workspaces recs with
                 | Ok sel => Forall wf_workspace sel
                 | Raise e => e = KeyError
                 end).
  { unfold rendered_records. destruct (truthy workspaces); [|exact Hwf].
    destruct (select_records (default [] workspaces) recs) as [sel|e] eqn:Hs.
    - apply select_records_ok in Hs as [_ ->].
      rewrite List.Forall_forall in Hwf. apply List.Forall_forall.
      intros r Hr. apply filter_In in Hr. apply Hwf, Hr.
    - apply select_records_raise in Hs as (r & Hr & Hraise).
      rewrite List.Forall_forall in Hwf. destruct (Hwf r Hr) as (kvs & -> & _).
      apply (getitem_dict_raise kvs "title" e Hraise). }
  destruct (rendered_records workspaces recs) as [sel|e]; simpl; [|exact Hsel].
  unfold workspace_groups.
  destruct (for_each (workspace_entry repr) sel []) as [body|e] eqn:Hbody; simpl.
  - exists sel. split; [reflexivity|]. intros r Hr.
    apply (for_each_ok_each _ _ _ _ Hbody r Hr).
  - apply for_each_raise_some in Hbody as (r & st & Hr & Hraise).
    rewrite List.Forall_forall in Hsel.
    apply (workspace_entry_wf_raise st r e (Hsel r Hr) Hraise).
Qed.

Lemma rendered_records_in (workspaces : option (list pystr)) (recs sel : list pyval)
    (r : pyval) :
  rendered_records workspaces recs = Ok sel ->
  In r recs -> rendered workspaces r -> In r sel.
Proof.
  unfold rendered_records, rendered. intros Hsel Hin Hr.
  destruct (truthy workspaces).
  - apply select_records_ok in Hsel as [_ ->]. apply filter_In.
    destruct Hr as [Hr|Hr]; [discriminate|]. split; [exact Hin | exact Hr].
  - injection Hsel as <-. exact Hin.
Qed.

Lemma rendered_records_titled (workspaces : option (list pystr))
    (recs sel : list pyval) (r : pyval) :
  rendered_records workspaces recs = Ok sel ->
  In r recs -> lacks "title" r -> In r sel.
Proof.
  unfold rendered_records. intros Hsel Hin Hl.
  destruct (truthy workspaces).
  - apply select_records_ok in Hsel as [Hall _].
    rewrite List.Forall_forall in Hall. destruct (Hall r Hin) as [title Ht].
    rewrite (getitem_lacks "title" r Hl) in Ht. discriminate.
  - injection Hsel as <-. exact Hin.
Qed.

(** C8, as amended: on a tree of workspace records, [make_bookmarks]
    raises [KeyError] when a workspace lacks [title], and when a tab of a
    workspace that is rendered (no filter, or its title in the filter)
    lacks [url]; a tab that lacks [title] gets its [url] as the text of
    its link. *)
Theorem missing_field_fails (s : shape) (data : pyval) (recs : list pyval)
    (workspaces : option (list pystr)) (wrapped : bool) :
  getitem data (PStr "Workspaces") = Ok (coll s recs) ->
  Forall wf_workspace recs ->
  (forall r, In r recs -> lacks "title" r ->
     make_bookmarks repr data workspaces wrapped = Raise KeyError)
  /\ (forall r kvs s' tabs t,
        In r recs -> rendered workspaces r ->
        r = PDict kvs -> dict_lookup (key "tabs") kvs = Some (coll s' tabs) ->
        In t tabs -> lacks "url" t ->
        make_bookmarks repr data workspaces wrapped = Raise KeyError)
  /\ (forall out kvs url,
        dict_lookup (key "url") kvs = Some (PAtom (AStr url)) ->
        dict_lookup (key "title") kvs = None ->
        tab_entry repr out (PDict kvs)
        = Ok (out ++ [[ch_tab; ch_tab; ch_tab] ++ lit "<DT><A HREF=" ++ [ch_dquote]
                      ++ url ++ [ch_dquote] ++ lit ">" ++ url ++ lit "</a>"])).
Proof.
  intros Hws Hwf.
  pose proof (make_bookmarks_wf_outcome s data recs workspaces wrapped Hws Hwf) as Hout.
  split; [|split].
  - intros r Hin Hl.
    destruct (make_bookmarks repr data workspaces wrapped) as [doc|e];
      [|subst e; reflexivity].
    destruct Hout as (sel & Hsel & Hall). exfalso.
    destruct (Hall r (rendered_records_titled workspaces recs sel r Hsel Hin Hl))
      as (out & out' & Hok).
    apply workspace_entry_ok_complete in Hok as [Hok _]. exact (Hok Hl).
  - intros r kvs s' tabs t Hin Hr Hkvs Htabs Ht Hl.
    destruct (make_bookmarks repr data workspaces wrapped) as [doc|e];
      [|subst e; reflexivity].
    destruct Hout as (sel & Hsel & Hall). exfalso.
    destruct (Hall r (rendered_records_in workspaces recs sel r Hsel Hin Hr))
      as (out & out' & Hok).
    apply workspace_entry_ok_complete in Hok as [_ Hok].
    exact (Hok kvs s' tabs t Hkvs Htabs Ht Hl).
  - intros out kvs url Hurl Htitle. unfold tab_entry, PStr, getitem, get_default.
    fold (key "url"). rewrite Hurl. simpl. rewrite Htitle. reflexivity.
Qed.

End RendererFacts.

(* ===================================================================== *)
(** ** The Store.store: what [make_bookmarks] writes                             *)
(* ===================================================================== *)

Lemma readonly_ret {A} (a : A) : readonly (Store.ret a).
Proof. intros h. reflexivity. Qed.

Lemma readonly_raise {A} (e : exn) : readonly (@Store.raise A e).
Proof. intros h. reflexivity. Qed.

Lemma readonly_lift {A} (r : result A) : readonly (Store.lift r).
Proof. intros h. reflexivity. Qed.

Lemma readonly_bind {A B} (m : Store.M A) (k : A -> Store.M B) :
  readonly m -> (forall a, readonly (k a)) -> readonly (Store.bind m k).
Proof.
  intros Hm Hk h. unfold Store.bind. specialize (Hm h).
  destruct (m h) as [[a|e] h']; simpl in Hm; subst h'; [apply Hk | reflexivity].
Qed.

Lemma readonly_deref (l : Store.loc) : readonly (Store.deref l).
Proof. intros h. unfold Store.deref. destruct (h !! l); reflexivity. Qed.

Ltac readonly_step :=
  first [ apply readonly_bind; [|intros ?]
        | apply readonly_ret | apply readonly_raise | apply readonly_lift
        | apply readonly_deref
        | match goal with
          | |- readonly (match ?x with _ => _ end) => destruct x
          | |- readonly (if ?x then _ else _) => destruct x
          end ].

Lemma readonly_getitem (c k : Store.val) : readonly (Store.getitem c k).
Proof. unfold Store.getitem. repeat readonly_step. Qed.

Lemma readonly_get_default (c : Store.val) (k : atom) (d : Store.val) :
  readonly (Store.get_default c k d).
Proof. unfold Store.get_default. repeat readonly_step. Qed.

Lemma readonly_contains (s : pystr) (c : Store.val) : readonly (Store.contains s c).
Proof. unfold Store.contains. repeat readonly_step. Qed.

Lemma readonly_iterate (c : Store.val) : readonly (Store.iterate c).
Proof. unfold Store.iterate. repeat readonly_step. Qed.

Lemma readonly_to_str (repr : Store.store -> Store.loc -> pystr) (v : Store.val) :
  readonly (Store.to_str repr v).
Proof.
  unfold Store.to_str. destruct v as [[|[|]| |]|l]; try apply readonly_ret.
  intros h. reflexivity.
Qed.

Lemma readonly_select_workspace (data : Store.val) (i : Z) (v : Store.val) :
  readonly (Store.select_workspace data i v).
Proof.
  unfold Store.select_workspace. destruct (Store.int_eq i v); [|apply readonly_ret].
  apply readonly_bind; [apply readonly_getitem | intros; apply readonly_getitem].
Qed.

Lemma readonly_select_tab (workspace : Store.val) (i : Z) (v : Store.val) :
  readonly (Store.select_tab workspace i v).
Proof.
  unfold Store.select_tab. destruct (Store.int_eq i v); [|apply readonly_ret].
  apply readonly_bind; [apply readonly_getitem | intros; apply readonly_getitem].
Qed.

Lemma readonly_for_enumerate {St} (body : St -> Z -> Store.val -> Store.M St) :
  (forall st i v, readonly (body st i v)) ->
  forall items i st, readonly (Store.for_enumerate body i items st).
Proof.
  intros Hbody items. induction items as [|v items IH]; intros i st; simpl.
  - apply readonly_ret.
  - apply readonly_bind; [apply Hbody | intros; apply IH].
Qed.

Lemma readonly_tab_body (repr : Store.store -> Store.loc -> pystr) (workspace : Store.val)
    (out : list pystr) (i : Z) (v : Store.val) :
  readonly (Store.tab_body repr workspace out i v).
Proof.
  unfold Store.tab_body.
  apply readonly_bind; [apply readonly_select_tab | intros tab].
  apply readonly_bind; [apply readonly_getitem | intros url].
  apply readonly_bind; [apply readonly_get_default | intros desc].
  apply readonly_bind; [apply readonly_to_str | intros u].
  apply readonly_bind; [apply readonly_to_str | intros d].
  apply readonly_ret.
Qed.

Lemma readonly_workspace_body (repr : Store.store -> Store.loc -> pystr) (data : Store.val)
    (out : list pystr) (i : Z) (v : Store.val) :
  readonly (Store.workspace_body repr data out i v).
Proof.
  unfold Store.workspace_body.
  apply readonly_bind; [apply readonly_select_workspace | intros workspace].
  apply readonly_bind; [apply readonly_getitem | intros title].
  apply readonly_bind; [apply readonly_to_str | intros t].
  apply readonly_bind; [apply readonly_contains | intros has_tabs].
  apply readonly_bind; [|intros; apply readonly_ret].
  destruct has_tabs; [|apply readonly_ret].
  apply readonly_bind; [apply readonly_getitem | intros tabs].
  apply readonly_bind; [apply readonly_iterate | intros items].
  apply readonly_for_enumerate. intros. apply readonly_tab_body.
Qed.

(** The second loop only reads. *)
Lemma readonly_render_workspaces (repr : Store.store -> Store.loc -> pystr) (data : Store.val)
    (out : list pystr) :
  readonly (Store.render_workspaces repr data out).
Proof.
  unfold Store.render_workspaces.
  apply readonly_bind; [apply readonly_getitem | intros ws].
  apply readonly_bind; [apply readonly_iterate | intros items].
  apply readonly_for_enumerate. intros. apply readonly_workspace_body.
Qed.

Lemma dict_store_copy_refs (k : nat) (base : Store.loc) (copies : list Store.obj)
    (o : Store.obj) :
  dict_store (AInt (Z.of_nat (k + length copies)))
             (Store.VRef (base + (k + length copies))%nat)
             (Store.copy_refs k base copies)
  = Store.copy_refs k base (copies ++ [o]).
Proof.
  revert k. induction copies as [|c copies IH]; intros k; simpl.
  - rewrite Nat.add_0_r. reflexivity.
  - destruct (Z.eqb_spec (Z.of_nat (k + S (length copies))) (Z.of_nat k)) as [Heq|_];
      [lia|].
    replace (k + S (length copies))%nat with (S k + length copies)%nat by lia.
    rewrite IH. reflexivity.
Qed.

Lemma filtered_store_length (h0 : Store.store) (copies : list Store.obj) :
  length (filtered_store h0 copies) = (length h0 + 2 + length copies)%nat.
Proof. unfold filtered_store. rewrite length_app. simpl. lia. Qed.

Lemma filtered_store_inner (h0 : Store.store) (copies ext : list Store.obj) :
  (filtered_store h0 copies ++ ext) !! length h0
  = Some (Store.ODict (Store.copy_refs 0 (length h0 + 2)%nat copies)).
Proof.
  unfold filtered_store. rewrite <- app_assoc.
  rewrite lookup_app_r by lia. rewrite Nat.sub_diag. reflexivity.
Qed.

Lemma filtered_store_outer (h0 : Store.store) (copies ext : list Store.obj) :
  (filtered_store h0 copies ++ ext) !! (length h0 + 1)%nat
  = Some (Store.ODict [(key "Workspaces", Store.VRef (length h0))]).
Proof.
  unfold filtered_store. rewrite <- app_assoc.
  rewrite lookup_app_r by lia.
  replace (length h0 + 1 - length h0)%nat with 1%nat by lia. reflexivity.
Qed.

Lemma filtered_store_snoc (h0 : Store.store) (copies : list Store.obj) (o : Store.obj) :
  <[length h0 := Store.ODict (Store.copy_refs 0 (length h0 + 2)%nat (copies ++ [o]))]>
    (filtered_store h0 copies ++ [o])
  = filtered_store h0 (copies ++ [o]).
Proof.
  unfold filtered_store. rewrite <- app_assoc.
  rewrite <- (Nat.add_0_r (length h0)) at 1.
  rewrite insert_app_r. reflexivity.
Qed.

Lemma dict_lookup_single {V} (s : string) (v : V) :
  dict_lookup (key s) [(key s, v)] = Some v.
Proof.
  simpl. unfold str_eqb. rewrite bool_decide_eq_true_2 by reflexivity. reflexivity.
Qed.

Lemma getitem_atom_title (a : atom) (h : Store.store) :
  Store.getitem (Store.VAtom a) (Store.VStr "title") h = (Raise TypeError, h).
Proof. destruct a; reflexivity. Qed.

(** One round of the first loop writes to the inner mapping and to a
    fresh copy only. *)
Lemma filter_body_filtered_store (h0 : Store.store) (data : Store.val)
    (workspaces : list pystr) (copies : list Store.obj) (widx : Z) (wvalue : Store.val) :
  match Store.filter_body data (Store.VRef (length h0 + 1)%nat) workspaces
          (Z.of_nat (length copies)) widx wvalue (filtered_store h0 copies) with
  | (Ok seq', h') =>
      exists copies', h' = filtered_store h0 copies'
                      /\ seq' = Z.of_nat (length copies')
  | (Raise e, h') => h' = filtered_store h0 copies
  end.
Proof.
  set (h := filtered_store h0 copies).
  unfold Store.filter_body, Store.bind.
  pose proof (readonly_select_workspace data widx wvalue h) as Hro.
  destruct (Store.select_workspace data widx wvalue h) as [[w|e] h1];
    simpl in Hro; subst h1; [|reflexivity].
  pose proof (readonly_getitem w (Store.VStr "title") h) as Hro.
  destruct (Store.getitem w (Store.VStr "title") h) as [[title|e] h1] eqn:Htitle;
    simpl in Hro; subst h1; [|reflexivity].
  destruct (Store.title_in title workspaces).
  2:{ exists copies. split; reflexivity. }
  destruct w as [a|l].
  { rewrite getitem_atom_title in Htitle. discriminate. }
  unfold Store.copy, Store.bind, Store.deref, Store.alloc.
  unfold Store.getitem, Store.bind, Store.deref in Htitle.
  destruct (h !! l) as [o|] eqn:Hl; [|discriminate].
  unfold Store.getitem, Store.setitem, Store.bind, Store.deref, Store.VStr, Store.VInt.
  subst h. rewrite filtered_store_outer. fold (key "Workspaces").
  rewrite dict_lookup_single.
  unfold Store.ret. rewrite filtered_store_inner.
  unfold Store.assign. rewrite filtered_store_inner.
  exists (copies ++ [o]). split.
  - rewrite filtered_store_length.
    pose proof (dict_store_copy_refs 0 (length h0 + 2)%nat copies o) as Hstore.
    simpl in Hstore. rewrite Hstore.
    apply filtered_store_snoc.
  - rewrite length_app. simpl. lia.
Qed.

Lemma for_enumerate_filtered_store (h0 : Store.store) (data : Store.val)
    (workspaces : list pystr) (items : list Store.val) :
  forall (copies : list Store.obj) (widx : Z),
    exists copies',
      snd (Store.for_enumerate
             (Store.filter_body data (Store.VRef (length h0 + 1)%nat) workspaces)
             widx items (Z.of_nat (length copies)) (filtered_store h0 copies))
      = filtered_store h0 copies'.
Proof.
  induction items as [|v items IH]; intros copies widx; simpl.
  - exists copies. reflexivity.
  - unfold Store.bind.
    pose proof (filter_body_filtered_store h0 data workspaces copies widx v) as Hbody.
    destruct (Store.filter_body data (Store.VRef (length h0 + 1)%nat) workspaces
                (Z.of_nat (length copies)) widx v (filtered_store h0 copies))
      as [[seq'|e] h'].
    + destruct Hbody as (copies' & -> & ->). apply IH.
    + exists copies. exact Hbody.
Qed.

(** The first loop allocates and fills [filtered]; the objects of the
    store it started in stay as they were. *)
Lemma filter_workspaces_store (data : Store.val) (workspaces : option (list pystr))
    (h : Store.store) :
  if truthy workspaces
  then exists copies, snd (Store.filter_workspaces data workspaces h)
                      = filtered_store h copies
  else snd (Store.filter_workspaces data workspaces h) = h.
Proof.
  unfold Store.filter_workspaces. destruct (truthy workspaces); [|reflexivity].
  unfold Store.bind at 1. unfold Store.alloc at 1.
  unfold Store.bind at 1. unfold Store.alloc at 1.
  rewrite length_app. simpl length.
  replace ((h ++ [Store.ODict []])
           ++ [Store.ODict [(key "Workspaces", Store.VRef (length h))]])
    with (filtered_store h []) by (unfold filtered_store; rewrite <- app_assoc; reflexivity).
  unfold Store.bind at 1.
  pose proof (readonly_getitem data (Store.VStr "Workspaces") (filtered_store h [])) as Hro.
  destruct (Store.getitem data (Store.VStr "Workspaces") (filtered_store h []))
    as [[ws|e] h1]; simpl in Hro; subst h1; [|exists []; reflexivity].
  unfold Store.bind at 1.
  pose proof (readonly_iterate ws (filtered_store h [])) as Hro.
  destruct (Store.iterate ws (filtered_store h [])) as [[items|e] h1];
    simpl in Hro; subst h1; [|exists []; reflexivity].
  unfold Store.bind at 1.
  destruct (for_enumerate_filtered_store h data (default [] workspaces) items [] 0)
    as (copies & Hloop).
  change (Z.of_nat (length (@nil Store.obj))) with 0 in Hloop.
  destruct (Store.for_enumerate _ 0 items 0 (filtered_store h [])) as [[seq|e] h1];
    simpl in Hloop; subst h1; exists copies; reflexivity.
Qed.

Lemma make_bookmarks_store (repr : Store.store -> Store.loc -> pystr)
    (data : Store.val) (workspaces : option (list pystr)) (wrapped : bool)
    (h : Store.store) :
  snd (Store.make_bookmarks repr data workspaces wrapped h)
  = snd (Store.filter_workspaces data workspaces h).
Proof.
  unfold Store.make_bookmarks. unfold Store.bind at 1.
  destruct (Store.filter_workspaces data workspaces h) as [[data'|e] h1];
    [|reflexivity].
  simpl snd. apply readonly_bind.
  - apply readonly_render_workspaces.
  - intros out. apply readonly_ret.
Qed.

(* ===================================================================== *)
(** ** The store model computes what the tree model computes             *)
(* ===================================================================== *)

Lemma pyval_induction (P : pyval -> Prop) :
  (forall a, P (PAtom a)) ->
  (forall xs, Forall P xs -> P (PList xs)) ->
  (forall kvs, Forall (fun kv => P (snd kv)) kvs -> P (PDict kvs)) ->
  forall t, P t.
Proof.
  intros Hatom Hlist Hdict.
  fix IH 1. intros [a|xs|kvs].
  - apply Hatom.
  - apply Hlist. induction xs as [|x xs IHxs]; constructor; [apply IH | exact IHxs].
  - apply Hdict. induction kvs as [|[k x] kvs IHkvs]; constructor;
      [apply IH | exact IHkvs].
Qed.

Lemma included_refl (h : Store.store) : included h h.
Proof. intros l o H. exact H. Qed.

Lemma included_app (h ext : Store.store) : included h (h ++ ext).
Proof. intros l o H. apply lookup_app_l_Some, H. Qed.

(** A tree that a value is in a store, it is in every larger store. *)
Lemma denotes_included (h h' : Store.store) (t : pyval) :
  included h h' -> forall v, denotes h v t -> denotes h' v t.
Proof.
  intros Hsub.
  induction t as [a|xs IH|kvs IH] using pyval_induction; intros v H;
    inversion H as [a'|l vs ts Hl Hvs|l items kts Hl Hitems]; subst.
  - constructor.
  - apply (denotes_list _ l vs); [apply Hsub, Hl|].
    clear Hl H. induction Hvs as [|v t vs ts Hv Hvs IHvs]; constructor.
    + inversion IH; subst. auto.
    + inversion IH; subst. auto.
  - apply (denotes_dict _ l items); [apply Hsub, Hl|].
    clear Hl H. induction Hitems as [|iv kt items kts [Hk Hv] Hitems IHitems];
      constructor.
    + inversion IH; subst. auto.
    + inversion IH; subst. auto.
Qed.

Lemma agrees_bind {A B A' B'} (R : A -> A' -> Prop) (Q : B -> B' -> Prop)
    (m : Store.M A) (k : A -> Store.M B) (y : result A') (k' : A' -> result B')
    (h : Store.store) :
  agrees R (m h) h y ->
  (forall a a', R a a' -> agrees Q (k a h) h (k' a')) ->
  agrees Q (Store.bind m k h) h (bind y k').
Proof.
  unfold agrees, Store.bind. intros [Hh Hm] Hk.
  destruct (m h) as [[a|e] h']; simpl in *; subst h'.
  - destruct y as [a'|e']; [|contradiction]. apply (Hk a a' Hm).
  - destruct y as [a'|e']; [contradiction|]. subst e'. split; reflexivity.
Qed.

Lemma agrees_ret {A B} (R : A -> B -> Prop) (a : A) (b : B) (h : Store.store) :
  R a b -> agrees R (Store.ret a h) h (Ok b).
Proof. intros H. split; [reflexivity | exact H]. Qed.

Lemma agrees_raise {A B} (R : A -> B -> Prop) (e : exn) (h : Store.store) :
  agrees R (@Store.raise A e h) h (@Raise B e).
Proof. split; reflexivity. Qed.

Lemma dict_lookup_related {V W} (R : V -> W -> Prop) (a : atom)
    (items : list (atom * V)) (kts : list (atom * W)) :
  Forall2 (fun iv kt => fst iv = fst kt /\ R (snd iv) (snd kt)) items kts ->
  match dict_lookup a items, dict_lookup a kts with
  | Some v, Some t => R v t
  | None, None => True
  | _, _ => False
  end.
Proof.
  induction 1 as [|[k v] [k' t] items kts [Hk Hv] _ IH]; simpl; [exact I|].
  simpl in Hk, Hv. subst k'. destruct (atom_eqb a k); [exact Hv | exact IH].
Qed.

Lemma seq_index_related {V W} (R : V -> W -> Prop) (i : Z)
    (vs : list V) (ts : list W) :
  Forall2 R vs ts ->
  match seq_index vs i, seq_index ts i with
  | Ok v, Ok t => R v t
  | Raise e, Raise e' => e = e'
  | _, _ => False
  end.
Proof.
  intros H. unfold seq_index. rewrite <- (Forall2_length _ _ _ H).
  destruct ((0 <=? (if i <? 0 then i + Z.of_nat (length vs) else i))
            && ((if i <? 0 then i + Z.of_nat (length vs) else i)
                <? Z.of_nat (length vs))); [|reflexivity].
  set (j := Z.to_nat (if i <? 0 then i + Z.of_nat (length vs) else i)).
  destruct (vs !! j) as [v|] eqn:Hv.
  - destruct (Forall2_lookup_l _ _ _ _ _ H Hv) as (t & Ht & Hr).
    rewrite Ht. exact Hr.
  - destruct (ts !! j) as [t|] eqn:Ht; [|reflexivity].
    destruct (Forall2_lookup_r _ _ _ _ _ H Ht) as (v & Hv' & _). congruence.
Qed.

(** [c[k]] for a scalar key, read in a store that holds the one in
    which [c] is a tree. *)
Lemma getitem_refines_in (h h' : Store.store) (c : Store.val) (tc : pyval)
    (a : atom) :
  included h h' -> denotes h c tc ->
  agrees (denotes h) (Store.getitem c (Store.VAtom a) h') h' (getitem tc (PAtom a)).
Proof.
  intros Hsub H. inversion H as [a'|l vs ts Hl Hvs|l items kts Hl Hitems]; subst.
  - destruct a' as [| | |s]; try apply agrees_raise.
    simpl. destruct (atom_int a) as [i|]; [|apply agrees_raise].
    destruct (seq_index s i) as [x|e]; simpl;
      [apply agrees_ret; constructor | apply agrees_raise].
  - pose proof (Hsub _ _ Hl) as Hl'.
    unfold Store.getitem, Store.bind, Store.deref. rewrite Hl'. simpl.
    destruct (atom_int a) as [i|]; [|apply agrees_raise].
    pose proof (seq_index_related (denotes h) i vs ts Hvs) as Hr.
    unfold Store.lift, agrees. simpl.
    destruct (seq_index vs i), (seq_index ts i); auto.
  - pose proof (Hsub _ _ Hl) as Hl'.
    unfold Store.getitem, Store.bind, Store.deref. rewrite Hl'. simpl.
    pose proof (dict_lookup_related (denotes h) a items kts Hitems) as Hr.
    destruct (dict_lookup a items), (dict_lookup a kts); try contradiction.
    + apply agrees_ret, Hr.
    + apply agrees_raise.
Qed.

Lemma getitem_refines (h : Store.store) (c : Store.val) (tc : pyval) (a : atom) :
  denotes h c tc ->
  agrees (denotes h) (Store.getitem c (Store.VAtom a) h) h (getitem tc (PAtom a)).
Proof. apply getitem_refines_in, included_refl. Qed.

Lemma get_default_refines (h : Store.store) (c d : Store.val) (tc td : pyval)
    (k : atom) :
  denotes h c tc -> denotes h d td ->
  agrees (denotes h) (Store.get_default c k d h) h (get_default tc k td).
Proof.
  intros H Hd. inversion H as [a'|l vs ts Hl Hvs|l items kts Hl Hitems]; subst.
  - apply agrees_raise.
  - unfold Store.get_default, Store.bind, Store.deref. rewrite Hl. apply agrees_raise.
  - unfold Store.get_default, Store.bind, Store.deref. rewrite Hl. simpl.
    pose proof (dict_lookup_related (denotes h) k items kts Hitems) as Hr.
    destruct (dict_lookup k items), (dict_lookup k kts); try contradiction;
      apply agrees_ret; assumption.
Qed.

Lemma dict_has_related {V W} (R : V -> W -> Prop) (a : atom)
    (items : list (atom * V)) (kts : list (atom * W)) :
  Forall2 (fun iv kt => fst iv = fst kt /\ R (snd iv) (snd kt)) items kts ->
  dict_has a items = dict_has a kts.
Proof.
  intros H. pose proof (dict_lookup_related R a items kts H) as Hr.
  unfold dict_has. destruct (dict_lookup a items), (dict_lookup a kts);
    try contradiction; reflexivity.
Qed.

Lemma contains_refines (h : Store.store) (c : Store.val) (tc : pyval) (s : pystr) :
  denotes h c tc ->
  agrees eq (Store.contains s c h) h (contains s tc).
Proof.
  intros H. inversion H as [a'|l vs ts Hl Hvs|l items kts Hl Hitems]; subst.
  - destruct a' as [| | |t]; try apply agrees_raise. apply agrees_ret. reflexivity.
  - unfold Store.contains, Store.bind, Store.deref. rewrite Hl. simpl.
    apply agrees_ret. clear Hl H.
    induction Hvs as [|v t vs ts Hv _ IH]; simpl; [reflexivity|].
    rewrite IH. f_equal. inversion Hv; reflexivity.
  - unfold Store.contains, Store.bind, Store.deref. rewrite Hl. simpl.
    apply agrees_ret. apply (dict_has_related (denotes h)), Hitems.
Qed.

Lemma iterate_refines (h : Store.store) (c : Store.val) (tc : pyval) :
  denotes h c tc ->
  agrees (Forall2 (denotes h)) (Store.iterate c h) h (iterate tc).
Proof.
  intros H. inversion H as [a'|l vs ts Hl Hvs|l items kts Hl Hitems]; subst.
  - destruct a' as [| | |t]; try apply agrees_raise. apply agrees_ret.
    clear H. induction t as [|x t IH]; simpl; constructor; [constructor | exact IH].
  - unfold Store.iterate, Store.bind, Store.deref. rewrite Hl. simpl.
    apply agrees_ret, Hvs.
  - unfold Store.iterate, Store.bind, Store.deref. rewrite Hl. simpl.
    apply agrees_ret. clear Hl H.
    induction Hitems as [|[k v] [k' t] items kts [Hk _] _ IH]; simpl; constructor.
    + simpl in Hk. subst k'. constructor.
    + exact IH.
Qed.

Lemma int_eq_refines (h : Store.store) (v : Store.val) (t : pyval) (i : Z) :
  denotes h v t -> Store.int_eq i v = int_eq i t.
Proof. intros H. inversion H; reflexivity. Qed.

Lemma int_eq_atom (h : Store.store) (v : Store.val) (t : pyval) (i : Z) :
  denotes h v t -> Store.int_eq i v = true ->
  exists a, v = Store.VAtom a /\ t = PAtom a.
Proof. intros H Hi. inversion H; subst; try discriminate Hi. eauto. Qed.

(** A loop that only reads refines its tree counterpart when its body
    does. *)
Lemma for_enumerate_refines {St} (h : Store.store)
    (body : St -> Z -> Store.val -> Store.M St)
    (body' : St -> Z -> pyval -> result St) :
  (forall st i v t, denotes h v t -> agrees eq (body st i v h) h (body' st i t)) ->
  forall items titems, Forall2 (denotes h) items titems ->
    forall i st,
      agrees eq (Store.for_enumerate body i items st h) h
             (for_enumerate body' i titems st).
Proof.
  intros Hbody items titems Hitems.
  induction Hitems as [|v t items titems Hv _ IH]; intros i st; simpl.
  - apply agrees_ret. reflexivity.
  - apply (agrees_bind eq eq); [apply Hbody, Hv|].
    intros st1 st1' <-. apply IH.
Qed.

Section Refinement.

(** The two stand-ins for [repr] print the same for a value and the
    tree it is. *)
Variable repr : pyval -> pystr.
Variable store_repr : Store.store -> Store.loc -> pystr.
Hypothesis repr_agrees :
  forall h l t, denotes h (Store.VRef l) t -> store_repr h l = repr t.

Lemma to_str_refines (h : Store.store) (v : Store.val) (t : pyval) :
  denotes h v t ->
  agrees eq (Store.to_str store_repr v h) h (Ok (to_str repr t)).
Proof.
  intros H. inversion H as [a|l vs ts Hl Hvs|l items kts Hl Hitems]; subst.
  - destruct a as [|[|]| |]; apply agrees_ret; reflexivity.
  - split; [reflexivity|]. simpl. apply (repr_agrees h l _ H).
  - split; [reflexivity|]. simpl. apply (repr_agrees h l _ H).
Qed.

Lemma select_workspace_refines_in (h h' : Store.store) (data v : Store.val)
    (tdata t : pyval) (i : Z) :
  included h h' -> denotes h data tdata -> denotes h v t ->
  agrees (denotes h) (Store.select_workspace data i v h') h'
         (select_workspace tdata i t).
Proof.
  intros Hsub Hdata Hv. unfold Store.select_workspace, select_workspace.
  rewrite <- (int_eq_refines h v t i Hv).
  destruct (Store.int_eq i v) eqn:Hi; [|apply agrees_ret, Hv].
  destruct (int_eq_atom h v t i Hv Hi) as (a & -> & ->).
  apply (agrees_bind (denotes h) (denotes h)).
  - apply (getitem_refines_in h h' data tdata _ Hsub Hdata).
  - intros ws tws Hws. apply (getitem_refines_in h h' ws tws a Hsub Hws).
Qed.

Lemma select_workspace_refines (h : Store.store) (data v : Store.val)
    (tdata t : pyval) (i : Z) :
  denotes h data tdata -> denotes h v t ->
  agrees (denotes h) (Store.select_workspace data i v h) h
         (select_workspace tdata i t).
Proof. apply select_workspace_refines_in, included_refl. Qed.

Lemma select_tab_refines (h : Store.store) (workspace v : Store.val)
    (tw t : pyval) (i : Z) :
  denotes h workspace tw -> denotes h v t ->
  agrees (denotes h) (Store.select_tab workspace i v h) h (select_tab tw i t).
Proof.
  intros Hw Hv. unfold Store.select_tab, select_tab.
  rewrite <- (int_eq_refines h v t i Hv).
  destruct (Store.int_eq i v) eqn:Hi; [|apply agrees_ret, Hv].
  apply (agrees_bind (denotes h) (denotes h)).
  - apply (getitem_refines h workspace tw _ Hw).
  - intros tabs ttabs Htabs. apply (getitem_refines h tabs ttabs _ Htabs).
Qed.

Lemma tab_body_refines (h : Store.store) (workspace v : Store.val) (tw t : pyval)
    (out : list pystr) (i : Z) :
  denotes h workspace tw -> denotes h v t ->
  agrees eq (Store.tab_body store_repr workspace out i v h) h
         (tab_body repr tw out i t).
Proof.
  intros Hw Hv. unfold Store.tab_body, tab_body, tab_entry.
  apply (agrees_bind (denotes h) eq); [apply select_tab_refines; assumption|].
  intros tab ttab Htab.
  apply (agrees_bind (denotes h) eq); [apply (getitem_refines h tab ttab _ Htab)|].
  intros url turl Hurl.
  apply (agrees_bind (denotes h) eq);
    [apply (get_default_refines h tab url ttab turl _ Htab Hurl)|].
  intros desc tdesc Hdesc.
  change (Ok (out ++ [tab_line repr turl tdesc]))
    with (u <- Ok (to_str repr turl) ;; d <- Ok (to_str repr tdesc) ;;
          Ok (out ++ [[ch_tab; ch_tab; ch_tab] ++ lit "<DT><A HREF=" ++ [ch_dquote]
                      ++ u ++ [ch_dquote] ++ lit ">" ++ d ++ lit "</a>"])).
  apply (agrees_bind eq eq); [apply (to_str_refines h url turl Hurl)|].
  intros u u' <-.
  apply (agrees_bind eq eq); [apply (to_str_refines h desc tdesc Hdesc)|].
  intros d d' <-. apply agrees_ret. reflexivity.
Qed.

Lemma workspace_body_refines (h : Store.store) (data v : Store.val)
    (tdata t : pyval) (out : list pystr) (i : Z) :
  denotes h data tdata -> denotes h v t ->
  agrees eq (Store.workspace_body store_repr data out i v h) h
         (workspace_body repr tdata out i t).
Proof.
  intros Hdata Hv. unfold Store.workspace_body, workspace_body, workspace_entry.
  apply (agrees_bind (denotes h) eq); [apply select_workspace_refines; assumption|].
  intros w tw Hw.
  apply (agrees_bind (denotes h) eq); [apply (getitem_refines h w tw _ Hw)|].
  intros title ttitle Htitle.
  change (has_tabs <- contains (lit "tabs") tw ;; ?k)
    with (s <- Ok (to_str repr ttitle) ;; has_tabs <- contains (lit "tabs") tw ;; k).
  change (bind (contains (lit "tabs") tw) ?k)
    with (bind (Ok (to_str repr ttitle))
               (fun s => bind (contains (lit "tabs") tw)
                  (fun has_tabs : bool =>
                     output <- (if has_tabs
                                then tabs <- getitem tw (PStr "tabs") ;;
                                     items <- iterate tabs ;;
                                     for_enumerate (tab_body repr tw) 0 items
                                       ((out ++ [[ch_tab] ++ lit "<DT><H3 FOLDED>" ++ s
                                                 ++ lit "</H3>"]) ++ [tabs_open])
                                else Ok ((out ++ [[ch_tab] ++ lit "<DT><H3 FOLDED>" ++ s
                                                  ++ lit "</H3>"]) ++ [tabs_open])) ;;
                     Ok ((output ++ [tabs_close]) ++ [workspace_close])))).
  apply (agrees_bind eq eq); [apply (to_str_refines h title ttitle Htitle)|].
  intros s s' <-.
  apply (agrees_bind eq eq); [apply (contains_refines h w tw _ Hw)|].
  intros has_tabs has_tabs' <-.
  apply (agrees_bind eq eq).
  - destruct has_tabs; [|apply agrees_ret; reflexivity].
    apply (agrees_bind (denotes h) eq); [apply (getitem_refines h w tw _ Hw)|].
    intros tabs ttabs Htabs.
    apply (agrees_bind (Forall2 (denotes h)) eq);
      [apply (iterate_refines h tabs ttabs Htabs)|].
    intros items titems Hitems.
    apply (for_enumerate_refines h); [|exact Hitems].
    intros st j v' t' Hv'. apply tab_body_refines; assumption.
  - intros output output' <-. apply agrees_ret. reflexivity.
Qed.

Lemma render_workspaces_refines (h : Store.store) (data : Store.val)
    (tdata : pyval) (out : list pystr) :
  denotes h data tdata ->
  agrees eq (Store.render_workspaces store_repr data out h) h
         (render_workspaces repr tdata out).
Proof.
  intros Hdata. unfold Store.render_workspaces, render_workspaces.
  apply (agrees_bind (denotes h) eq); [apply (getitem_refines h data tdata _ Hdata)|].
  intros ws tws Hws.
  apply (agrees_bind (Forall2 (denotes h)) eq); [apply (iterate_refines h ws tws Hws)|].
  intros items titems Hitems.
  apply (for_enumerate_refines h); [|exact Hitems].
  intros st j v t Hv. apply workspace_body_refines; assumption.
Qed.

Lemma title_in_refines (h : Store.store) (v : Store.val) (t : pyval)
    (workspaces : list pystr) :
  denotes h v t -> Store.title_in v workspaces = title_in t workspaces.
Proof. intros H. inversion H; reflexivity. Qed.

Lemma denotes_ref_obj (h : Store.store) (l : Store.loc) (t : pyval) :
  denotes h (Store.VRef l) t -> exists o, h !! l = Some o /\ denotes_obj h o t.
Proof.
  intros H. inversion H as [a|l' vs ts Hl Hvs|l' items kts Hl Hitems]; subst.
  - exists (Store.OList vs). split; [exact Hl | exact Hvs].
  - exists (Store.ODict items). split; [exact Hl | exact Hitems].
Qed.

Lemma denotes_obj_ref (h : Store.store) (l : Store.loc) (o : Store.obj) (t : pyval) :
  h !! l = Some o -> denotes_obj h o t -> denotes h (Store.VRef l) t.
Proof.
  intros Hl Ho. destruct o as [items|vs], t as [a|ts|kts]; try contradiction.
  - apply (denotes_dict h l items kts Hl Ho).
  - apply (denotes_list h l vs ts Hl Ho).
Qed.

Lemma denotes_obj_included (h h' : Store.store) (o : Store.obj) (t : pyval) :
  included h h' -> denotes_obj h o t -> denotes_obj h' o t.
Proof.
  intros Hsub Ho. destruct o as [items|vs], t as [a|ts|kts]; try contradiction;
    simpl in *.
  - induction Ho as [|iv kt items kts [Hk Hv] _ IH]; constructor; [|exact IH].
    split; [exact Hk | apply (denotes_included h h' _ Hsub _ Hv)].
  - induction Ho as [|v t vs ts Hv _ IH]; constructor; [|exact IH].
    apply (denotes_included h h' _ Hsub _ Hv).
Qed.

Lemma included_filtered_store (h0 : Store.store) (copies : list Store.obj) :
  included h0 (filtered_store h0 copies).
Proof. unfold filtered_store. apply included_app. Qed.

(** One round of the first loop, in step with the tree model: the
    copies are the objects of the records that the tree model keeps. *)
Lemma filter_body_refines (h0 : Store.store) (data v : Store.val) (tdata t : pyval)
    (workspaces : list pystr) (copies : list Store.obj) (sel : list pyval) (i : Z) :
  denotes h0 data tdata -> denotes h0 v t ->
  Forall2 (denotes_obj h0) copies sel ->
  match Store.filter_body data (Store.VRef (length h0 + 1)%nat) workspaces
          (Z.of_nat (length copies)) i v (filtered_store h0 copies),
        filter_body tdata workspaces (index_keyed sel, Z.of_nat (length sel)) i t with
  | (Ok seq', h'), Ok st' =>
      exists copies' sel',
        h' = filtered_store h0 copies' /\ seq' = Z.of_nat (length copies')
        /\ st' = (index_keyed sel', Z.of_nat (length sel'))
        /\ Forall2 (denotes_obj h0) copies' sel'
  | (Raise e, h'), Raise e' => e = e' /\ h' = filtered_store h0 copies
  | _, _ => False
  end.
Proof.
  intros Hdata Hv Hcopies.
  set (h := filtered_store h0 copies).
  pose proof (included_filtered_store h0 copies) as Hsub. fold h in Hsub.
  unfold Store.filter_body, filter_body, filter_entry, Store.bind.
  destruct (select_workspace_refines_in h0 h data v tdata t i Hsub Hdata Hv)
    as [Hh Hw].
  destruct (Store.select_workspace data i v h) as [[w|e] h1]; simpl in Hh, Hw; subst h1;
    destruct (select_workspace tdata i t) as [tw|e']; try contradiction;
    [|simpl; auto].
  cbn [bind].
  destruct (getitem_refines_in h0 h w tw (AStr (lit "title")) Hsub Hw) as [Hh Ht].
  unfold Store.VStr, PStr.
  destruct (Store.getitem w (Store.VAtom (AStr (lit "title"))) h) as [[title|e] h1]
    eqn:Htitle; simpl in Hh, Ht; subst h1;
    destruct (getitem tw (PAtom (AStr (lit "title")))) as [ttitle|e'];
    try contradiction; [|simpl; auto].
  cbn [bind]. rewrite (title_in_refines h0 title ttitle workspaces Ht).
  destruct (title_in ttitle workspaces).
  2:{ exists copies, sel. auto. }
  destruct w as [a|l].
  { change (Store.VAtom (AStr (lit "title"))) with (Store.VStr "title") in Htitle.
    rewrite getitem_atom_title in Htitle. discriminate. }
  destruct (denotes_ref_obj h0 l tw Hw) as (o & Hl & Ho).
  pose proof (Hsub _ _ Hl) as Hl'.
  unfold Store.copy, Store.bind, Store.deref, Store.alloc. rewrite Hl'.
  unfold Store.getitem, Store.setitem, Store.bind, Store.deref, Store.VStr, Store.VInt.
  subst h. rewrite filtered_store_outer. fold (key "Workspaces").
  rewrite dict_lookup_single.
  unfold Store.ret. rewrite filtered_store_inner.
  unfold Store.assign. rewrite filtered_store_inner.
  exists (copies ++ [o]), (sel ++ [tw]).
  cbn [fst snd]. rewrite <- (Forall2_length _ _ _ Hcopies).
  rewrite (Forall2_length _ _ _ Hcopies) at 3.
  split; [|split; [|split]].
  - rewrite filtered_store_length.
    pose proof (dict_store_copy_refs 0 (length h0 + 2)%nat copies o) as Hstore.
    simpl in Hstore. rewrite Hstore. apply filtered_store_snoc.
  - rewrite length_app. simpl. lia.
  - rewrite dict_store_index_keyed. rewrite !length_app.
    rewrite (Forall2_length _ _ _ Hcopies). simpl. f_equal. lia.
  - apply Forall2_app; [exact Hcopies|]. constructor; [exact Ho | constructor].
Qed.

Lemma filter_loop_refines (h0 : Store.store) (data : Store.val) (tdata : pyval)
    (workspaces : list pystr) (items : list Store.val) (titems : list pyval) :
  denotes h0 data tdata -> Forall2 (denotes h0) items titems ->
  forall (copies : list Store.obj) (sel : list pyval) (i : Z),
    Forall2 (denotes_obj h0) copies sel ->
    match Store.for_enumerate
            (Store.filter_body data (Store.VRef (length h0 + 1)%nat) workspaces)
            i items (Z.of_nat (length copies)) (filtered_store h0 copies),
          for_enumerate (filter_body tdata workspaces) i titems
            (index_keyed sel, Z.of_nat (length sel)) with
    | (Ok _, h'), Ok st' =>
        exists copies' sel',
          h' = filtered_store h0 copies' /\ fst st' = index_keyed sel'
          /\ Forall2 (denotes_obj h0) copies' sel'
    | (Raise e, _), Raise e' => e = e'
    | _, _ => False
    end.
Proof.
  intros Hdata Hitems.
  induction Hitems as [|v t items titems Hv _ IH]; intros copies sel i Hcopies.
  - simpl. exists copies, sel. auto.
  - cbn [Store.for_enumerate for_enumerate]. unfold Store.bind at 1.
    pose proof (filter_body_refines h0 data v tdata t workspaces copies sel i
                  Hdata Hv Hcopies) as Hbody.
    destruct (Store.filter_body data (Store.VRef (length h0 + 1)%nat) workspaces
                (Z.of_nat (length copies)) i v (filtered_store h0 copies))
      as [[seq'|e] h'];
      destruct (filter_body tdata workspaces
                  (index_keyed sel, Z.of_nat (length sel)) i t) as [st'|e'];
      try contradiction.
    + destruct Hbody as (copies' & sel' & -> & -> & -> & Hcopies').
      cbn [bind]. apply (IH copies' sel' (i + 1) Hcopies').
    + destruct Hbody as [-> _]. reflexivity.
Qed.

Lemma copy_refs_denotes (h0 h : Store.store) (base : Store.loc)
    (cs : list Store.obj) (ss : list pyval) :
  forall k : nat,
    Forall2 (denotes_obj h0) cs ss -> included h0 h ->
    (forall j o, cs !! j = Some o -> h !! (base + (k + j))%nat = Some o) ->
    Forall2 (fun iv kt => fst iv = fst kt /\ denotes h (snd iv) (snd kt))
            (Store.copy_refs k base cs) (index_keyed_from k ss).
Proof.
  intros k Hall Hsub. revert k.
  induction Hall as [|o t cs ss Ho _ IH]; intros k Hat; simpl; constructor.
  - split; [reflexivity|]. simpl. apply (denotes_obj_ref h _ o).
    + rewrite <- (Nat.add_0_r k). apply Hat. reflexivity.
    + apply (denotes_obj_included h0 h o t Hsub Ho).
  - apply IH. intros j o' Hj.
    replace (S k + j)%nat with (k + S j)%nat by lia. apply Hat. exact Hj.
Qed.

(** The dict [filtered] is, in the store the first loop leaves, the
    tree the tree model builds. *)
Lemma filtered_store_denotes (h0 : Store.store) (copies : list Store.obj)
    (sel : list pyval) :
  Forall2 (denotes_obj h0) copies sel ->
  denotes (filtered_store h0 copies) (Store.VRef (length h0 + 1)%nat)
          (PDict [(key "Workspaces", PDict (index_keyed sel))]).
Proof.
  intros Hcopies. set (h := filtered_store h0 copies).
  assert (Hinner : denotes h (Store.VRef (length h0)) (PDict (index_keyed sel))).
  { apply (denotes_dict h _ (Store.copy_refs 0 (length h0 + 2)%nat copies)).
    { subst h. rewrite <- (app_nil_r (filtered_store h0 copies)).
      apply filtered_store_inner. }
    unfold index_keyed.
    assert (Hat : forall k o, copies !! k = Some o ->
                              h !! (length h0 + 2 + k)%nat = Some o).
    { intros k o Hk. subst h. unfold filtered_store.
      rewrite lookup_app_r by lia.
      replace (length h0 + 2 + k - length h0)%nat with (S (S k)) by lia.
      exact Hk. }
    apply (copy_refs_denotes h0 h (length h0 + 2)%nat copies sel 0 Hcopies).
    - subst h. apply included_filtered_store.
    - intros j o Hj. apply Hat. exact Hj. }
  apply (denotes_dict h _ [(key "Workspaces", Store.VRef (length h0))]).
  - subst h. rewrite <- (app_nil_r (filtered_store h0 copies)).
    apply filtered_store_outer.
  - constructor; [|constructor]. split; [reflexivity | exact Hinner].
Qed.

Lemma filter_workspaces_refines (h : Store.store) (data : Store.val) (tdata : pyval)
    (workspaces : option (list pystr)) :
  denotes h data tdata ->
  match Store.filter_workspaces data workspaces h,
        filter_workspaces tdata workspaces with
  | (Ok d, h'), Ok td => denotes h' d td
  | (Raise e, _), Raise e' => e = e'
  | _, _ => False
  end.
Proof.
  intros Hdata. unfold Store.filter_workspaces, filter_workspaces.
  destruct (truthy workspaces); [|exact Hdata].
  unfold Store.bind at 1. unfold Store.alloc at 1.
  unfold Store.bind at 1. unfold Store.alloc at 1.
  rewrite length_app. simpl length.
  replace ((h ++ [Store.ODict []])
           ++ [Store.ODict [(key "Workspaces", Store.VRef (length h))]])
    with (filtered_store h []) by (unfold filtered_store; rewrite <- app_assoc; reflexivity).
  pose proof (included_filtered_store h []) as Hsub.
  unfold Store.bind at 1.
  destruct (getitem_refines_in h (filtered_store h []) data tdata
              (AStr (lit "Workspaces")) Hsub Hdata) as [Hh Hws].
  unfold Store.VStr, PStr.
  destruct (Store.getitem data (Store.VAtom (AStr (lit "Workspaces")))
              (filtered_store h [])) as [[ws|e] h1]; simpl in Hh, Hws; subst h1;
    destruct (getitem tdata (PAtom (AStr (lit "Workspaces")))) as [tws|e'];
    try contradiction; [|exact Hws].
  cbn [bind]. unfold Store.bind at 1.
  assert (Hiter : match Store.iterate ws (filtered_store h []), iterate tws with
                  | (Ok items, h'), Ok titems =>
                      h' = filtered_store h [] /\ Forall2 (denotes h) items titems
                  | (Raise e, _), Raise e' => e = e'
                  | _, _ => False
                  end).
  { pose proof (readonly_iterate ws (filtered_store h [])) as Hro.
    destruct (iterate_refines h ws tws Hws) as [_ Hi].
    inversion Hws as [a|l vs ts Hl Hvs|l items kts Hl Hitems]; subst.
    - destruct a as [| | |s]; simpl in *; auto.
    - pose proof (Hsub _ _ Hl) as Hl'.
      unfold Store.iterate, Store.bind, Store.deref in *. rewrite Hl' in *.
      rewrite Hl in Hi. simpl in *. auto.
    - pose proof (Hsub _ _ Hl) as Hl'.
      unfold Store.iterate, Store.bind, Store.deref in *. rewrite Hl' in *.
      rewrite Hl in Hi. simpl in *. auto. }
  destruct (Store.iterate ws (filtered_store h [])) as [[items|e] h1];
    destruct (iterate tws) as [titems|e']; try contradiction; [|exact Hiter].
  destruct Hiter as [-> Hitems]. cbn [bind]. unfold Store.bind at 1.
  pose proof (filter_loop_refines h data tdata (default [] workspaces) items titems
                Hdata Hitems [] [] 0 ltac:(constructor)) as Hloop.
  change (Z.of_nat (length (@nil Store.obj))) with 0 in Hloop.
  change (index_keyed [], Z.of_nat (length (@nil pyval)))
    with (@nil (atom * pyval), 0) in Hloop.
  destruct (Store.for_enumerate _ 0 items 0 (filtered_store h [])) as [[seq|e] h1];
    destruct (for_enumerate _ 0 titems ([], 0)) as [st'|e']; try contradiction;
    [|exact Hloop].
  destruct Hloop as (copies & sel & -> & Hinner & Hcopies).
  cbn [bind]. unfold Store.ret. rewrite Hinner.
  apply (filtered_store_denotes h copies sel Hcopies).
Qed.

(** On a value that is a tree, the store model of [make_bookmarks]
    returns or raises what the tree model does on the tree. *)
Theorem store_refines_tree (h : Store.store) (data : Store.val) (tdata : pyval)
    (workspaces : option (list pystr)) (wrapped : bool) :
  denotes h data tdata ->
  fst (Store.make_bookmarks store_repr data workspaces wrapped h)
  = make_bookmarks repr tdata workspaces wrapped.
Proof.
  intros Hdata. unfold Store.make_bookmarks, make_bookmarks.
  unfold Store.bind at 1.
  pose proof (filter_workspaces_refines h data tdata workspaces Hdata) as Hf.
  destruct (Store.filter_workspaces data workspaces h) as [[d|e] h'];
    destruct (filter_workspaces tdata workspaces) as [td|e']; try contradiction;
    [|subst e'; reflexivity].
  cbn [bind]. unfold Store.bind.
  set (out := if wrapped then _ else _).
  destruct (render_workspaces_refines h' d td out Hf) as [Hh Hr].
  destruct (Store.render_workspaces store_repr d out h') as [[o|e] h1];
    simpl in Hh, Hr; subst h1;
    destruct (render_workspaces repr td out) as [o'|e']; try contradiction.
  - subst o'. reflexivity.
  - subst e'. reflexivity.
Qed.

End Refinement.

(** A tree allocated in a store is that tree there; the allocation adds
    objects and changes none. *)
Lemma load_denotes (t : pyval) :
  forall h, exists v ext,
    Store.load t h = (Ok v, h ++ ext) /\ denotes (h ++ ext) v t.
Proof.
  induction t as [a|xs IH|kvs IH] using pyval_induction; intros h.
  - exists (Store.VAtom a), []. rewrite app_nil_r. split; [reflexivity | constructor].
  - cbn [Store.load].
    assert (Hgo : forall h, exists vs ext,
               (fix go (xs : list pyval) : Store.M (list Store.val) :=
                  match xs with
                  | [] => Store.ret []
                  | x :: rest =>
                      Store.bind (Store.load x) (fun v =>
                        Store.bind (go rest) (fun vs => Store.ret (v :: vs)))
                  end) xs h = (Ok vs, h ++ ext)
               /\ Forall2 (denotes (h ++ ext)) vs xs).
    { clear h. induction IH as [|x xs Hx _ IHxs]; intros h.
      - exists [], []. rewrite app_nil_r. split; [reflexivity | constructor].
      - destruct (Hx h) as (v & ext1 & Hload & Hv).
        destruct (IHxs (h ++ ext1)) as (vs & ext2 & Hrest & Hvs).
        exists (v :: vs), (ext1 ++ ext2). unfold Store.bind at 1. rewrite Hload.
        unfold Store.bind at 1. rewrite Hrest. rewrite app_assoc.
        split; [reflexivity|]. constructor; [|exact Hvs].
        apply (denotes_included (h ++ ext1)); [apply included_app | exact Hv]. }
    destruct (Hgo h) as (vs & ext & Hrun & Hvs).
    exists (Store.VRef (length (h ++ ext))), (ext ++ [Store.OList vs]).
    unfold Store.bind at 1. rewrite Hrun. unfold Store.alloc. rewrite app_assoc.
    split; [reflexivity|].
    apply (denotes_list _ _ vs).
    + rewrite lookup_app_r by lia. rewrite Nat.sub_diag. reflexivity.
    + apply (Forall2_impl _ _ _ _ Hvs). intros v x Hv.
      apply (denotes_included (h ++ ext)); [apply included_app | exact Hv].
  - cbn [Store.load].
    assert (Hgo : forall h, exists items ext,
               (fix go (kvs : list (atom * pyval)) : Store.M (list (atom * Store.val)) :=
                  match kvs with
                  | [] => Store.ret []
                  | (k, x) :: rest =>
                      Store.bind (Store.load x) (fun v =>
                        Store.bind (go rest) (fun items => Store.ret ((k, v) :: items)))
                  end) kvs h = (Ok items, h ++ ext)
               /\ Forall2 (fun iv kt => fst iv = fst kt
                                        /\ denotes (h ++ ext) (snd iv) (snd kt))
                          items kvs).
    { clear h. induction IH as [|[k x] kvs Hx _ IHkvs]; intros h.
      - exists [], []. rewrite app_nil_r. split; [reflexivity | constructor].
      - simpl in Hx. destruct (Hx h) as (v & ext1 & Hload & Hv).
        destruct (IHkvs (h ++ ext1)) as (items & ext2 & Hrest & Hitems).
        exists ((k, v) :: items), (ext1 ++ ext2). unfold Store.bind at 1. rewrite Hload.
        unfold Store.bind at 1. rewrite Hrest. rewrite app_assoc.
        split; [reflexivity|]. constructor; [|exact Hitems].
        split; [reflexivity|]. simpl.
        apply (denotes_included (h ++ ext1)); [apply included_app | exact Hv]. }
    destruct (Hgo h) as (items & ext & Hrun & Hitems).
    exists (Store.VRef (length (h ++ ext))), (ext ++ [Store.ODict items]).
    unfold Store.bind at 1. rewrite Hrun. unfold Store.alloc. rewrite app_assoc.
    split; [reflexivity|].
    apply (denotes_dict _ _ items).
    + rewrite lookup_app_r by lia. rewrite Nat.sub_diag. reflexivity.
    + apply (Forall2_impl _ _ _ _ Hitems). intros iv kt [Hk Hv].
      split; [exact Hk|].
      apply (denotes_included (h ++ ext)); [apply included_app | exact Hv].
Qed.

(** C10: [make_bookmarks] leaves every object that was in the store when
    it was called as it was, whatever it returns or raises, so that the
    [data] argument is after the call the tree it was before: without a
    filter the call writes nothing, and with one it allocates the dict
    [filtered], its inner mapping and the copies of the records it
    keeps, and stores the copies in the inner mapping only. *)
Theorem make_bookmarks_leaves_input (repr : Store.store -> Store.loc -> pystr)
    (data : Store.val) (workspaces : option (list pystr)) (wrapped : bool)
    (h : Store.store) :
  let h' := snd (Store.make_bookmarks repr data workspaces wrapped h) in
  (forall l o, h !! l = Some o -> h' !! l = Some o)
  /\ (forall t, denotes h data t -> denotes h' data t)
  /\ (if truthy workspaces
      then exists copies, h' = filtered_store h copies
      else h' = h).
Proof.
  intros h'. subst h'. rewrite make_bookmarks_store.
  pose proof (filter_workspaces_store data workspaces h) as Hf.
  assert (Hsub : included h (snd (Store.filter_workspaces data workspaces h))).
  { destruct (truthy workspaces).
    - destruct Hf as [copies ->]. apply included_filtered_store.
    - rewrite Hf. apply included_refl. }
  split; [exact Hsub|]. split; [|exact Hf].
  intros t Ht. apply (denotes_included h _ t Hsub data Ht).
Qed.

(** The store model on a tree allocated in any store returns or raises
    what the tree model does on the tree. *)
Corollary store_model_on_tree (repr : pyval -> pystr)
    (store_repr : Store.store -> Store.loc -> pystr) (t : pyval) (h : Store.store)
    (workspaces : option (list pystr)) (wrapped : bool) :
  (forall h l t, denotes h (Store.VRef l) t -> store_repr h l = repr t) ->
  exists v ext,
    Store.load t h = (Ok v, h ++ ext)
    /\ fst (Store.make_bookmarks store_repr v workspaces wrapped (h ++ ext))
       = make_bookmarks repr t workspaces wrapped.
Proof.
  intros Hrepr. destruct (load_denotes t h) as (v & ext & Hload & Hv).
  exists v, ext. split; [exact Hload|].
  apply (store_refines_tree repr store_repr Hrepr _ _ _ _ _ Hv).
Qed.

(* ===================================================================== *)
(** ** The reader: what [peek] and [forward] do to the unread text         *)
(* ===================================================================== *)

Lemma check_printable_ok (data : pystr) :
  forallb printable data = true -> check_printable data = Ok tt.
Proof. intros H. unfold check_printable. rewrite H. reflexivity. Qed.

Lemma stream_text_cons (data : pystr) (rest : list pystr) :
  data <> [] -> stream_text (data :: rest) = data ++ stream_text rest.
Proof. destruct data; [congruence | reflexivity]. Qed.

(** The loop of [update] loads chunks until the buffer is long enough or
    the input ends, and keeps the text. *)
Lemma update_loop_spec (len : nat) (chunks : list pystr) :
  forall buf raw,
    forallb printable (raw ++ stream_text chunks) = true ->
    exists buf' raw' eof' chunks',
      update_loop len chunks buf raw = Ok (buf', raw', eof', chunks')
      /\ buf' ++ match raw' with
                 | None => []
                 | Some x => x ++ (if eof' : bool then [] else stream_text chunks')
                               ++ [ch_nul]
                 end
         = buf ++ raw ++ stream_text chunks ++ [ch_nul]
      /\ match raw' with
         | None => True
         | Some x =>
             (len <= length buf')%nat
             /\ forallb printable
                  (x ++ (if eof' : bool then [] else stream_text chunks')) = true
         end.
Proof.
  induction chunks as [|data chunks IH]; intros buf raw Hp.
  - simpl. destruct (len <=? length buf)%nat eqn:Hlen.
    + exists buf, (Some raw), false, []. apply Nat.leb_le in Hlen. auto.
    + simpl in Hp. rewrite app_nil_r in Hp. rewrite (check_printable_ok raw Hp). simpl.
      exists (buf ++ raw ++ [ch_nul]), None, true, [].
      rewrite app_nil_r. auto.
  - cbn [update_loop]. destruct (len <=? length buf)%nat eqn:Hlen.
    + exists buf, (Some raw), false, (data :: chunks). apply Nat.leb_le in Hlen. auto.
    + destruct data as [|d data].
      * simpl in Hp. rewrite app_nil_r in Hp. rewrite (check_printable_ok raw Hp).
        simpl. exists (buf ++ raw ++ [ch_nul]), None, true, chunks.
        rewrite app_nil_r. auto.
      * rewrite stream_text_cons in Hp by discriminate.
        rewrite app_assoc in Hp. pose proof Hp as Hp'.
        rewrite forallb_app in Hp'. apply andb_prop in Hp' as [Hraw Hrest].
        rewrite (check_printable_ok _ Hraw). cbn [bind].
        destruct (IH (buf ++ raw ++ d :: data) [] Hrest)
          as (buf' & raw' & eof' & chunks' & Hloop & Htext & Hlong).
        exists buf', raw', eof', chunks'. split; [exact Hloop|]. split; [|exact Hlong].
        rewrite Htext. rewrite stream_text_cons by discriminate.
        rewrite <- !app_assoc. reflexivity.
Qed.

(** [update] keeps the unread text and the position; afterwards the
    buffer holds [len] characters from the pointer on, or all that is
    left of the input. *)
Lemma update_spec (r : Reader) (len : nat) :
  loadable r ->
  exists r', update r len = Ok r'
             /\ unread r' = unread r /\ loadable r' /\ same_position r r'
             /\ (raw_buffer r' = None \/ (pointer r' + len <= length (buffer r'))%nat)
             /\ (raw_buffer r = None -> r' = r).
Proof.
  intros Hl. unfold update, loadable in *. destruct (raw_buffer r) as [raw|] eqn:Hraw.
  2:{ exists r. unfold same_position. rewrite Hraw. auto 10. }
  destruct (eof r) eqn:Heof.
  - destruct (len <=? length (drop (pointer r) (buffer r)))%nat eqn:Hlen.
    + eexists. split; [reflexivity|]. unfold unread, pending, same_position. simpl.
      rewrite Hraw, Heof. apply Nat.leb_le in Hlen.
      repeat split; auto; discriminate.
    + rewrite app_nil_r in Hl. rewrite (check_printable_ok raw Hl). simpl.
      eexists. split; [reflexivity|]. unfold unread, pending, same_position. simpl.
      rewrite Hraw, Heof. rewrite ?app_nil_r. simpl.
      repeat split; auto; discriminate.
  - destruct (update_loop_spec len (stream r) (drop (pointer r) (buffer r)) raw Hl)
      as (buf' & raw' & eof' & chunks' & Hloop & Htext & Hlong).
    rewrite Hloop. simpl. eexists. split; [reflexivity|].
    unfold unread, pending, same_position. simpl. rewrite Hraw, Heof.
    split; [exact Htext|]. destruct raw' as [x|].
    + destruct Hlong as [Hlen Hp]. split; [exact Hp|].
      repeat split; auto; discriminate.
    + repeat split; auto; discriminate.
Qed.

Lemma unread_lookup_buffer (r : Reader) (i : nat) (c : char) :
  buffer r !! (pointer r + i)%nat = Some c -> unread r !! i = Some c.
Proof.
  intros H. unfold unread. apply lookup_app_l_Some. rewrite lookup_drop. exact H.
Qed.

(** [peek] returns the character of the unread text at its index, loading
    it when it has to; it consumes nothing. *)
Lemma peek_spec (r : Reader) (idx : nat) (c : char) :
  loadable r -> unread r !! idx = Some c ->
  exists r', peek r idx = Ok (c, r')
             /\ unread r' = unread r /\ loadable r' /\ same_position r r'
             /\ buffer r' !! (pointer r' + idx)%nat = Some c
             /\ (raw_buffer r = None -> r' = r).
Proof.
  intros Hl Hc. unfold peek.
  destruct (buffer r !! (pointer r + idx)%nat) as [c'|] eqn:Hbuf.
  - pose proof (unread_lookup_buffer r idx c' Hbuf) as Hc'.
    rewrite Hc in Hc'. injection Hc' as <-.
    exists r. unfold same_position. auto 10.
  - destruct (update_spec r (idx + 1) Hl)
      as (r' & Hup & Htext & Hl' & Hpos & Hlong & Hnone).
    rewrite Hup. simpl.
    assert (Hbuf' : buffer r' !! (pointer r' + idx)%nat = Some c).
    { rewrite <- Htext in Hc. unfold unread in Hc. destruct Hlong as [Hraw|Hlen].
      - unfold pending in Hc. rewrite Hraw, app_nil_r, lookup_drop in Hc. exact Hc.
      - rewrite lookup_app_l in Hc by (rewrite length_drop; lia).
        rewrite lookup_drop in Hc. exact Hc. }
    rewrite Hbuf'. exists r'. auto 10.
Qed.

Lemma unread_advance (r : Reader) (c : char) (rest : pystr) (buf' : pystr) :
  buffer r !! pointer r = Some c -> unread r = c :: rest ->
  drop (S (pointer r)) (buffer r) ++ pending r = rest.
Proof.
  intros Hbuf Htext. unfold unread in Htext.
  rewrite (drop_S _ _ _ Hbuf) in Htext. simpl in Htext. injection Htext as Htext.
  exact Htext.
Qed.

(** [forward()] over a space consumes it. *)
Lemma forward_space (r : Reader) (rest : pystr) :
  loadable r -> unread r = ch_space :: rest ->
  exists r', forward r 1 = Ok r'
             /\ unread r' = rest /\ loadable r'
             /\ index r' = S (index r) /\ line r' = line r
             /\ column r' = S (column r)
             /\ (raw_buffer r = None ->
                 buffer r' = buffer r /\ raw_buffer r' = None
                 /\ pointer r' = S (pointer r)).
Proof.
  intros Hl Htext. unfold forward.
  assert (Hstep : exists r1,
             (if (length (buffer r) <=? pointer r + 1 + 1)%nat
              then update r (1 + 1) else Ok r) = Ok r1
             /\ unread r1 = unread r /\ loadable r1 /\ same_position r r1
             /\ buffer r1 !! pointer r1 = Some ch_space
             /\ (raw_buffer r = None -> r1 = r)).
  { destruct (length (buffer r) <=? pointer r + 1 + 1)%nat eqn:Hlen.
    - destruct (update_spec r (1 + 1) Hl)
        as (r1 & Hup & Htext1 & Hl1 & Hpos & Hlong & Hnone).
      exists r1. split; [exact Hup|]. split; [exact Htext1|]. split; [exact Hl1|].
      split; [exact Hpos|]. split; [|exact Hnone].
      rewrite <- Htext1 in Htext. unfold unread in Htext.
      destruct Hlong as [Hraw|Hlong].
      + unfold pending in Htext. rewrite Hraw, app_nil_r in Htext.
        rewrite <- (Nat.add_0_r (pointer r1)), <- lookup_drop, Htext. reflexivity.
      + assert (H0 : (drop (pointer r1) (buffer r1) ++ pending r1) !! 0%nat
                     = Some ch_space) by (rewrite Htext; reflexivity).
        rewrite lookup_app_l in H0 by (rewrite length_drop; lia).
        rewrite lookup_drop, Nat.add_0_r in H0. exact H0.
    - apply Nat.leb_gt in Hlen. exists r. unfold same_position.
      split; [reflexivity|]. split; [reflexivity|]. split; [exact Hl|].
      split; [auto|]. split; [|auto].
      assert (H0 : (drop (pointer r) (buffer r) ++ pending r) !! 0%nat
                   = Some ch_space) by (fold (unread r); rewrite Htext; reflexivity).
      rewrite lookup_app_l in H0 by (rewrite length_drop; lia).
      rewrite lookup_drop, Nat.add_0_r in H0. exact H0. }
  destruct Hstep as (r1 & -> & Htext1 & Hl1 & (Hi & Hli & Hco) & Hbuf & Hnone).
  simpl. unfold advance. rewrite Hbuf. simpl.
  eexists. split; [reflexivity|]. unfold unread, pending, loadable in *. simpl.
  rewrite Htext in Htext1.
  split; [apply (unread_advance r1 ch_space rest [] Hbuf Htext1)|].
  split; [exact Hl1|]. rewrite Hi, Hli, Hco.
  repeat (split; [reflexivity|]).
  intros Hraw. rewrite (Hnone Hraw). auto.
Qed.

(* ===================================================================== *)
(** ** The quote patch                                                     *)
(* ===================================================================== *)

Lemma skip_spaces_spec (spaces : pystr) :
  forall (r : Reader) (fuel : nat) (rest : pystr),
    loadable r -> unread r = spaces ++ rest ->
    Forall (eq ch_space) spaces -> head rest <> Some ch_space -> rest <> [] ->
    (length spaces < fuel)%nat ->
    exists r', skip_spaces fuel r = Ok r'
               /\ unread r' = rest /\ loadable r'
               /\ index r' = (index r + length spaces)%nat /\ line r' = line r
               /\ column r' = (column r + length spaces)%nat
               /\ (raw_buffer r = None ->
                   buffer r' = buffer r /\ raw_buffer r' = None
                   /\ pointer r' = (pointer r + length spaces)%nat).
Proof.
  induction spaces as [|sp spaces IH]; intros r fuel rest Hl Htext Hsp Hhead Hne Hfuel;
    (destruct fuel as [|fuel]; [simpl in Hfuel; lia|]); cbn [skip_spaces].
  - destruct rest as [|c rest']; [congruence|]. simpl in Htext.
    destruct (peek_spec r 0 c Hl) as (r' & Hpeek & Htext' & Hl' & (Hi & Hli & Hco) & _ & Hnone);
      [rewrite Htext; reflexivity|].
    rewrite Hpeek. cbn [bind fst snd].
    destruct (N.eqb_spec c ch_space) as [->|_]; [exfalso; apply Hhead; reflexivity|].
    exists r'. split; [reflexivity|]. rewrite Htext', Hi, Hli, Hco, !Nat.add_0_r.
    do 5 (split; [auto|]). intros Hraw. rewrite (Hnone Hraw). auto.
  - inversion Hsp as [|? ? <- Hsp']; subst. simpl in Htext.
    destruct (peek_spec r 0 ch_space Hl)
      as (r1 & Hpeek & Htext1 & Hl1 & (Hi & Hli & Hco) & _ & Hnone1);
      [rewrite Htext; reflexivity|].
    rewrite Hpeek. cbn [bind fst snd]. rewrite N.eqb_refl.
    rewrite Htext in Htext1.
    destruct (forward_space r1 (spaces ++ rest) Hl1 Htext1)
      as (r2 & Hfw & Htext2 & Hl2 & Hi2 & Hli2 & Hco2 & Hnone2).
    rewrite Hfw. cbn [bind].
    destruct (IH r2 fuel rest Hl2 Htext2 Hsp' Hhead Hne ltac:(simpl in Hfuel; lia))
      as (r' & Hskip & Htext' & Hl' & Hi' & Hli' & Hco' & Hnone').
    exists r'. split; [exact Hskip|]. split; [exact Htext'|]. split; [exact Hl'|].
    simpl length. rewrite Hi', Hli', Hco', Hi2, Hli2, Hco2, Hi, Hli, Hco.
    do 3 (split; [lia || reflexivity|]).
    intros Hraw. pose proof (Hnone1 Hraw) as ->.
    destruct (Hnone2 Hraw) as (Hb2 & Hr2 & Hp2).
    destruct (Hnone' Hr2) as (Hb' & Hr' & Hp').
    rewrite Hb', Hb2, Hp', Hp2. repeat split; auto; lia.
Qed.

Lemma scan_line_spec (s : pystr) :
  forall (r : Reader) (fuel : nat) (acc : pystr) (c : char) (rest : pystr),
    loadable r -> unread r = acc ++ s ++ c :: rest ->
    Forall (fun x => is_break x = false) s -> is_break c = true ->
    (length s < fuel)%nat ->
    exists r', scan_line fuel r (length acc) acc = Ok (r', acc ++ s)
               /\ unread r' = unread r /\ loadable r' /\ same_position r r'
               /\ buffer r' !! (pointer r' + length (acc ++ s))%nat = Some c
               /\ (raw_buffer r = None -> r' = r).
Proof.
  induction s as [|x s IH]; intros r fuel acc c rest Hl Htext Hs Hc Hfuel;
    (destruct fuel as [|fuel]; [simpl in Hfuel; lia|]); cbn [scan_line].
  - destruct (peek_spec r (length acc) c Hl)
      as (r' & Hpeek & Htext' & Hl' & Hpos & Hbuf & Hnone).
    { rewrite Htext. simpl. rewrite lookup_app_r by lia.
      rewrite Nat.sub_diag. reflexivity. }
    rewrite Hpeek. cbn [bind fst snd]. rewrite Hc.
    exists r'. rewrite app_nil_r. auto 10.
  - inversion Hs as [|? ? Hx Hs']; subst.
    destruct (peek_spec r (length acc) x Hl)
      as (r1 & Hpeek & Htext1 & Hl1 & (Hi & Hli & Hco) & _ & Hnone1).
    { rewrite Htext. rewrite lookup_app_r by lia.
      rewrite Nat.sub_diag. reflexivity. }
    rewrite Hpeek. cbn [bind fst snd]. rewrite Hx.
    destruct (IH r1 fuel (acc ++ [x]) c rest Hl1) as
      (r' & Hscan & Htext' & Hl' & (Hi' & Hli' & Hco') & Hbuf & Hnone'); auto.
    { rewrite Htext1, Htext, <- app_assoc. reflexivity. }
    { simpl in Hfuel. lia. }
    rewrite length_app in Hscan. simpl length in Hscan.
    rewrite Hscan. exists r'. rewrite <- !app_assoc in *. simpl in *.
    split; [reflexivity|]. split; [congruence|]. split; [exact Hl'|].
    split; [unfold same_position; repeat split; congruence|].
    split; [exact Hbuf|].
    intros Hraw. pose proof (Hnone1 Hraw) as ->. apply Hnone', Hraw.
Qed.

Lemma unread_length (r : Reader) : (length (unread r) < input_bound r)%nat.
Proof.
  unfold unread, input_bound. rewrite length_app, length_drop. lia.
Qed.

(** Source lines 55-74 on a reader whose unread text is some spaces, a
    line [s] and the break character [c] that ends it. *)
Lemma scan_scalar_spec (r : Reader) (spaces s : pystr) (c : char) (rest : pystr) :
  loadable r ->
  unread r = spaces ++ s ++ c :: rest ->
  Forall (eq ch_space) spaces -> head s <> Some ch_space ->
  Forall (fun x => is_break x = false) s -> is_break c = true ->
  exists r1, scan_scalar r = Ok (r1, s)
             /\ unread r1 = s ++ c :: rest /\ loadable r1
             /\ buffer r1 !! (pointer r1 + length s)%nat = Some c
             /\ index r1 = (index r + length spaces)%nat /\ line r1 = line r
             /\ column r1 = (column r + length spaces)%nat
             /\ (raw_buffer r = None ->
                 buffer r1 = buffer r /\ raw_buffer r1 = None
                 /\ pointer r1 = (pointer r + length spaces)%nat).
Proof.
  intros Hl Htext Hsp Hhead Hs Hc. unfold scan_scalar.
  pose proof (unread_length r) as Hlen. rewrite Htext, !length_app in Hlen.
  simpl in Hlen.
  destruct (skip_spaces_spec spaces r (input_bound r) (s ++ c :: rest) Hl Htext Hsp)
    as (r0 & Hskip & Htext0 & Hl0 & Hi0 & Hli0 & Hco0 & Hnone0).
  { destruct s as [|x s']; simpl in *; [|exact Hhead].
    intros Heq. injection Heq as ->. discriminate Hc. }
  { destruct s; discriminate. }
  { lia. }
  rewrite Hskip. cbn [bind].
  pose proof (unread_length r0) as Hlen0. rewrite Htext0, !length_app in Hlen0.
  simpl in Hlen0.
  destruct (scan_line_spec s r0 (input_bound r0) [] c rest Hl0 Htext0 Hs Hc)
    as (r1 & Hscan & Htext1 & Hl1 & (Hi1 & Hli1 & Hco1) & Hbuf & Hnone1); [lia|].
  simpl in Hscan, Hbuf. rewrite Hscan. exists r1.
  split; [reflexivity|]. split; [congruence|]. split; [exact Hl1|].
  split; [exact Hbuf|]. rewrite Hi1, Hli1, Hco1.
  do 3 (split; [assumption|]).
  intros Hraw. destruct (Hnone0 Hraw) as (Hb & Hr & Hp).
  rewrite (Hnone1 Hr). auto.
Qed.

Lemma is_break_spec (c : char) :
  is_break c = true <-> In c [0; 13; 10; 133; 8232; 8233]%N.
Proof.
  unfold is_break, ch_nul, ch_cr, ch_lf, ch_nel, ch_ls, ch_ps. simpl.
  rewrite !orb_true_iff, !N.eqb_eq. intuition congruence.
Qed.

Lemma escape_quotes_without (s : pystr) :
  existsb (N.eqb ch_dquote) s = false -> escape_quotes s = s.
Proof.
  induction s as [|x s IH]; [reflexivity|].
  intros H. cbn [existsb] in H. apply orb_false_elim in H as [Hx Hs].
  unfold escape_quotes in *. cbn [flat_map]. rewrite N.eqb_sym, Hx.
  rewrite (IH Hs). reflexivity.
Qed.

Lemma escaped_scalar (s : pystr) :
  (if existsb (N.eqb ch_dquote) s then escape_quotes s else s) = escape_quotes s.
Proof.
  destruct (existsb (N.eqb ch_dquote) s) eqn:H; [reflexivity|].
  symmetry. apply escape_quotes_without, H.
Qed.

(** The buffer after the replacement of a span that lies in it. *)
Lemma replaced_span (buf : pystr) (p n : nat) (new : pystr) :
  (p + n <= length buf)%nat ->
  let patched := take p buf ++ new ++ drop (p + n) buf in
  take p patched = take p buf
  /\ drop (p + length new) patched = drop (p + n) buf
  /\ drop p patched = new ++ drop (p + n) buf.
Proof.
  intros Hlen patched. subst patched.
  assert (Hp : length (take p buf) = p) by (rewrite length_take; lia).
  split; [|split].
  - rewrite take_app_le by lia. rewrite take_take. f_equal. lia.
  - rewrite drop_app_ge by lia. rewrite Hp.
    replace (p + length new - p)%nat with (length new) by lia.
    rewrite drop_app_length. reflexivity.
  - rewrite <- Hp at 1. rewrite drop_app_length. reflexivity.
Qed.

(* ===================================================================== *)
(** ** The bound on the loops of the patch is never reached               *)
(* ===================================================================== *)

Lemma check_printable_raise (data : pystr) (e : exn) :
  check_printable data = Raise e -> e = ReaderError.
Proof.
  unfold check_printable. destruct (forallb printable data); [discriminate|].
  intros H. injection H as <-. reflexivity.
Qed.

Lemma update_loop_result (len : nat) (chunks : list pystr) :
  forall buf raw,
    match update_loop len chunks buf raw with
    | Ok (buf', raw', eof', chunks') =>
        buf' ++ match raw' with
                | None => []
                | Some x => x ++ (if eof' : bool then [] else stream_text chunks')
                              ++ [ch_nul]
                end
        = buf ++ raw ++ stream_text chunks ++ [ch_nul]
    | Raise e => e = ReaderError
    end.
Proof.
  induction chunks as [|data chunks IH]; intros buf raw; cbn [update_loop].
  - destruct (len <=? length buf)%nat; [reflexivity|].
    destruct (check_printable raw) as [[]|e] eqn:Hc; simpl.
    + rewrite app_nil_r. reflexivity.
    + apply (check_printable_raise raw e Hc).
  - destruct (len <=? length buf)%nat; [reflexivity|].
    destruct data as [|d data].
    + destruct (check_printable raw) as [[]|e] eqn:Hc; simpl.
      * rewrite app_nil_r. reflexivity.
      * apply (check_printable_raise raw e Hc).
    + destruct (check_printable (raw ++ d :: data)) as [[]|e] eqn:Hc; cbn [bind].
      * specialize (IH (buf ++ raw ++ d :: data) []).
        destruct (update_loop len chunks (buf ++ raw ++ d :: data) [])
          as [[[[buf' raw'] eof'] chunks']|e]; [|exact IH].
        rewrite IH. rewrite stream_text_cons by discriminate.
        rewrite <- !app_assoc. reflexivity.
      * apply (check_printable_raise _ e Hc).
Qed.

(** [update] keeps the unread text whenever it returns, and raises
    [ReaderError] only. *)
Lemma update_result (r : Reader) (len : nat) :
  match update r len with
  | Ok r' => unread r' = unread r
  | Raise e => e = ReaderError
  end.
Proof.
  unfold update. destruct (raw_buffer r) as [raw|] eqn:Hraw; [|reflexivity].
  destruct (eof r) eqn:Heof.
  - destruct (len <=? length (drop (pointer r) (buffer r)))%nat.
    + unfold unread, pending. simpl. rewrite Hraw, Heof. reflexivity.
    + destruct (check_printable raw) as [[]|e] eqn:Hc; simpl.
      * unfold unread, pending. simpl. rewrite Hraw, Heof.
        rewrite drop_0, app_nil_r. reflexivity.
      * apply (check_printable_raise raw e Hc).
  - pose proof (update_loop_result len (stream r) (drop (pointer r) (buffer r)) raw)
      as Hloop.
    destruct (update_loop len (stream r) (drop (pointer r) (buffer r)) raw)
      as [[[[buf' raw'] eof'] chunks']|e]; [|exact Hloop].
    simpl. unfold unread, pending. simpl. rewrite Hraw, Heof. exact Hloop.
Qed.

Lemma peek_result (r : Reader) (idx : nat) :
  match peek r idx with
  | Ok (c, r') => unread r' = unread r /\ (idx < length (unread r'))%nat
  | Raise e => e = IndexError \/ e = ReaderError
  end.
Proof.
  unfold peek. destruct (buffer r !! (pointer r + idx)%nat) as [c|] eqn:Hbuf.
  - split; [reflexivity|].
    apply (lookup_lt_Some _ _ c), unread_lookup_buffer, Hbuf.
  - pose proof (update_result r (idx + 1)) as Hup.
    destruct (update r (idx + 1)) as [r'|e]; [|right; exact Hup]. simpl.
    destruct (buffer r' !! (pointer r' + idx)%nat) as [c|] eqn:Hbuf'; [|left; reflexivity].
    split; [exact Hup|].
    apply (lookup_lt_Some _ _ c), unread_lookup_buffer, Hbuf'.
Qed.

Lemma advance_result (r : Reader) :
  match advance r with
  | Ok r' => length (unread r) = S (length (unread r'))
  | Raise e => e = IndexError
  end.
Proof.
  unfold advance. destruct (buffer r !! pointer r) as [c|] eqn:Hbuf; [|reflexivity].
  assert (Hlen : length (unread r)
                 = S (length (drop (S (pointer r)) (buffer r) ++ pending r))).
  { unfold unread. rewrite (drop_S _ _ _ Hbuf). reflexivity. }
  destruct ((c =? ch_lf)%N || (c =? ch_nel)%N || (c =? ch_ls)%N || (c =? ch_ps)%N);
    [exact Hlen|].
  destruct (c =? ch_cr)%N; [|exact Hlen].
  destruct (buffer r !! S (pointer r)); [exact Hlen | reflexivity].
Qed.

Lemma forward_one_result (r : Reader) :
  match forward r 1 with
  | Ok r' => length (unread r) = S (length (unread r'))
  | Raise e => e = IndexError \/ e = ReaderError
  end.
Proof.
  unfold forward.
  assert (Hstep : match (if (length (buffer r) <=? pointer r + 1 + 1)%nat
                         then update r (1 + 1) else Ok r) with
                  | Ok r1 => unread r1 = unread r
                  | Raise e => e = ReaderError
                  end).
  { destruct (length (buffer r) <=? pointer r + 1 + 1)%nat; [|reflexivity].
    apply update_result. }
  destruct (if (length (buffer r) <=? pointer r + 1 + 1)%nat
            then update r (1 + 1) else Ok r) as [r1|e]; [|right; exact Hstep].
  simpl. pose proof (advance_result r1) as Hadv.
  destruct (advance r1) as [r'|e]; simpl; [|left; exact Hadv].
  rewrite <- Hstep. exact Hadv.
Qed.

Lemma skip_spaces_bounded (fuel : nat) :
  forall r, (length (unread r) < fuel)%nat ->
    match skip_spaces fuel r with
    | Ok r' => (length (unread r') <= length (unread r))%nat
    | Raise e => e = IndexError \/ e = ReaderError
    end.
Proof.
  induction fuel as [|fuel IH]; intros r Hfuel; [lia|]. cbn [skip_spaces].
  pose proof (peek_result r 0) as Hpeek.
  destruct (peek r 0) as [[c r1]|e]; [|exact Hpeek]. cbn [bind fst snd].
  destruct Hpeek as [Htext Hlen].
  destruct (c =? ch_space)%N; [|rewrite Htext; lia].
  pose proof (forward_one_result r1) as Hfw.
  destruct (forward r1 1) as [r2|e]; [|exact Hfw]. cbn [bind].
  rewrite Htext in Hfw. specialize (IH r2 ltac:(lia)).
  destruct (skip_spaces fuel r2) as [r'|e]; [lia | exact IH].
Qed.

Lemma scan_line_bounded (fuel : nat) :
  forall r idx scalar,
    (idx <= length (unread r))%nat ->
    (length (unread r) < fuel + idx)%nat ->
    match scan_line fuel r idx scalar with
    | Ok _ => True
    | Raise e => e = IndexError \/ e = ReaderError
    end.
Proof.
  induction fuel as [|fuel IH]; intros r idx scalar Hidx Hfuel; cbn [scan_line].
  - lia.
  - pose proof (peek_result r idx) as Hpeek.
    destruct (peek r idx) as [[c r1]|e]; [|exact Hpeek]. cbn [bind fst snd].
    destruct Hpeek as [Htext Hlen]. destruct (is_break c); [exact I|].
    rewrite Htext in Hlen. apply IH; rewrite Htext; lia.
Qed.

(** The scan of the patch stops before its bound: it returns, or it raises
    what the reader raises ([IndexError] past the end of a buffer that does
    not end in NUL, [ReaderError] on a character that is not printable). *)
Lemma scan_scalar_bounded (r : Reader) :
  match scan_scalar r with
  | Ok _ => True
  | Raise e => e = IndexError \/ e = ReaderError
  end.
Proof.
  unfold scan_scalar.
  pose proof (skip_spaces_bounded (input_bound r) r (unread_length r)) as Hskip.
  destruct (skip_spaces (input_bound r) r) as [r1|e]; [|exact Hskip].
  cbn [bind]. apply scan_line_bounded; [lia|].
  pose proof (unread_length r1). lia.
Qed.

Section PatchFacts.

Variable int_parses : pystr -> bool.

(** The patch returns, or raises what the reader raises: the bound on its
    loops is never what stops it. *)
Lemma patch_bounded (r : Reader) :
  match patch_buffer_for_unquoted_scalar int_parses r with
  | Ok _ => True
  | Raise e => e = IndexError \/ e = ReaderError
  end.
Proof.
  unfold patch_buffer_for_unquoted_scalar.
  pose proof (scan_scalar_bounded r) as Hscan.
  destruct (scan_scalar r) as [sc|e]; [exact I | exact Hscan].
Qed.

(** What the patch does to a line that it quotes. *)
Lemma patch_quotes_spec (r : Reader) (spaces s : pystr) (c : char)
    (rest : pystr) :
  loadable r ->
  unread r = spaces ++ s ++ c :: rest ->
  Forall (eq ch_space) spaces -> head s <> Some ch_space ->
  Forall (fun x => is_break x = false) s -> is_break c = true ->
  s <> [] -> int_parses s = false ->
  exists r1,
    scan_scalar r = Ok (r1, s)
    /\ unread r1 = s ++ c :: rest
    /\ let quoted := [ch_dquote] ++ escape_quotes s ++ [ch_dquote] in
       let patched := take (pointer r1) (buffer r1) ++ quoted
                      ++ drop (pointer r1 + length s) (buffer r1) in
       patch_buffer_for_unquoted_scalar int_parses r = Ok (with_buffer r1 patched)
       /\ take (pointer r1) patched = take (pointer r1) (buffer r1)
       /\ drop (pointer r1 + length quoted) patched
          = drop (pointer r1 + length s) (buffer r1)
       /\ unread (with_buffer r1 patched) = quoted ++ c :: rest.
Proof.
  intros Hl Htext Hsp Hhead Hs Hc Hne Hint.
  destruct (scan_scalar_spec r spaces s c rest Hl Htext Hsp Hhead Hs Hc)
    as (r1 & Hscan & Htext1 & Hl1 & Hbuf & _).
  exists r1. split; [exact Hscan|]. split; [exact Htext1|].
  intros quoted patched.
  pose proof (lookup_lt_Some _ _ _ Hbuf) as Hlen.
  destruct (replaced_span (buffer r1) (pointer r1) (length s) quoted ltac:(lia))
    as (Htake & Hdrop & Hdropp).
  fold patched in Htake, Hdrop, Hdropp.
  split; [|split; [exact Htake|split; [exact Hdrop|]]].
  - unfold patch_buffer_for_unquoted_scalar. rewrite Hscan. cbn [bind fst snd].
    unfold quote_scalar. rewrite Hint.
    destruct (Nat.eqb_spec (length s) 0) as [H0|_];
      [destruct s; [congruence | discriminate H0]|].
    rewrite escaped_scalar. subst patched quoted.
    rewrite <- !app_assoc. reflexivity.
  - unfold unread, with_buffer, pending. cbn [buffer pointer raw_buffer eof stream].
    rewrite Hdropp. rewrite <- app_assoc. f_equal.
    unfold unread in Htext1.
    assert (Hd : drop (length s) (drop (pointer r1) (buffer r1) ++ pending r1)
                 = c :: rest) by (rewrite Htext1, drop_app_length; reflexivity).
    rewrite drop_app_le in Hd by (rewrite length_drop; lia).
    rewrite drop_drop in Hd. exact Hd.
Qed.

(** C2: when the text scanned after the leading spaces is not empty and
    does not parse as an integer, the patch replaces the span of the
    buffer from the read position through the length of the scanned
    text by that text between double quotes, with a backslash before
    each double quote of it and no other character changed; the scanned
    text ends before the first character of the line-terminator class;
    the buffer before the read position and after the span is as it
    was. *)
Theorem patch_quotes_scanned_line (r : Reader) (spaces s : pystr) (c : char)
    (rest : pystr) :
  loadable r ->
  unread r = spaces ++ s ++ c :: rest ->
  Forall (eq ch_space) spaces -> head s <> Some ch_space ->
  Forall (fun x => is_break x = false) s -> is_break c = true ->
  s <> [] -> int_parses s = false ->
  exists r1 escaped,
    scan_scalar r = Ok (r1, s)
    /\ unread r1 = s ++ c :: rest
    /\ backslash_before_quotes s escaped
    /\ escaped = escape_quotes s
    /\ let quoted := [ch_dquote] ++ escaped ++ [ch_dquote] in
       let patched := take (pointer r1) (buffer r1) ++ quoted
                      ++ drop (pointer r1 + length s) (buffer r1) in
       patch_buffer_for_unquoted_scalar int_parses r = Ok (with_buffer r1 patched)
       /\ take (pointer r1) patched = take (pointer r1) (buffer r1)
       /\ drop (pointer r1 + length quoted) patched
          = drop (pointer r1 + length s) (buffer r1)
       /\ unread (with_buffer r1 patched) = quoted ++ c :: rest
       /\ (is_break c = true <-> In c [0; 13; 10; 133; 8232; 8233]%N).
Proof.
  intros Hl Htext Hsp Hhead Hs Hc Hne Hint.
  destruct (patch_quotes_spec r spaces s c rest Hl Htext Hsp Hhead Hs Hc Hne Hint)
    as (r1 & Hscan & Htext1 & Hpatch & Htake & Hdrop & Hunread).
  exists r1, (escape_quotes s). split; [exact Hscan|]. split; [exact Htext1|].
  split; [|split; [reflexivity|]].
  - clear. induction s as [|x t IH]; [constructor|].
    change (escape_quotes (x :: t))
      with ((if (x =? ch_dquote)%N then [ch_backslash; ch_dquote] else [x])
            ++ escape_quotes t).
    destruct (N.eqb_spec x ch_dquote) as [->|Hx]; simpl.
    + apply bbq_quote, IH.
    + apply bbq_other; [exact Hx | exact IH].
  - cbv zeta in *. repeat (split; [assumption|]). apply is_break_spec.
Qed.

(** C6: when the text scanned after the leading spaces is empty or
    parses as an integer, the patch returns the reader as the scan left
    it: nothing is rewritten, the unread text is the line that was
    scanned and what follows it, and a reader that holds its whole input
    has the buffer it had before the call. *)
Theorem patch_leaves_blank_or_integer (r : Reader) (spaces s : pystr) (c : char)
    (rest : pystr) :
  loadable r ->
  unread r = spaces ++ s ++ c :: rest ->
  Forall (eq ch_space) spaces -> head s <> Some ch_space ->
  Forall (fun x => is_break x = false) s -> is_break c = true ->
  s = [] \/ int_parses s = true ->
  exists r1,
    scan_scalar r = Ok (r1, s)
    /\ patch_buffer_for_unquoted_scalar int_parses r = Ok r1
    /\ unread r1 = s ++ c :: rest
    /\ (raw_buffer r = None -> buffer r1 = buffer r).
Proof.
  intros Hl Htext Hsp Hhead Hs Hc Hcase.
  destruct (scan_scalar_spec r spaces s c rest Hl Htext Hsp Hhead Hs Hc)
    as (r1 & Hscan & Htext1 & Hl1 & Hbuf & _ & _ & _ & Hnone).
  exists r1. split; [exact Hscan|]. split; [|split; [exact Htext1|]].
  - unfold patch_buffer_for_unquoted_scalar. rewrite Hscan. cbn [bind fst snd].
    unfold quote_scalar. destruct Hcase as [->|Hint]; [reflexivity|].
    rewrite Hint. destruct (length s =? 0)%nat; reflexivity.
  - intros Hraw. apply (Hnone Hraw).
Qed.

End PatchFacts.

(* ===================================================================== *)
(** ** The composer hook and the scanner on a patched line                 *)
(* ===================================================================== *)

Lemma unquoted_key_spec (value : pystr) :
  existsb (str_eqb value) UNQUOTED_NODE_KEYS = true
  <-> value = lit "title" \/ value = lit "description".
Proof.
  unfold UNQUOTED_NODE_KEYS. cbn [existsb]. rewrite !orb_true_iff, !str_eqb_eq.
  intuition discriminate.
Qed.

Section ComposerFacts.

Variable int_parses : pystr -> bool.
Variable Rest : Type.
Variable super_compose_node :
  option node -> node_index -> Reader * Rest -> result (node * (Reader * Rest)).

(** C4: [compose_node] patches the buffer before it composes exactly
    when its parent is a mapping node and its index a scalar node whose
    value is [title] or [description]; for any other parent and index it
    is [super().compose_node] on the loader as it is. *)
Theorem compose_node_trigger (parent : option node) (index : node_index)
    (loader : Reader * Rest) :
  (patch_triggered parent index ->
     compose_node int_parses Rest super_compose_node parent index loader
     = (r <- patch_buffer_for_unquoted_scalar int_parses (fst loader) ;;
        super_compose_node parent index (r, snd loader)))
  /\ (~ patch_triggered parent index ->
        compose_node int_parses Rest super_compose_node parent index loader
        = super_compose_node parent index loader).
Proof.
  unfold compose_node, patch_triggered. split.
  - intros [(ptag & pvalue & ->) (tag & value & -> & Hkey)].
    apply unquoted_key_spec in Hkey. rewrite Hkey.
    destruct (patch_buffer_for_unquoted_scalar int_parses (fst loader)); reflexivity.
  - intros Hnot.
    destruct parent as [[| |ptag pvalue]|]; try reflexivity.
    destruct index as [| |[tag value| |]]; try reflexivity.
    destruct (existsb (str_eqb value) UNQUOTED_NODE_KEYS) eqn:Hkey; [|reflexivity].
    exfalso. apply Hnot. apply unquoted_key_spec in Hkey. eauto 10.
Qed.

End ComposerFacts.

Lemma span_app (p : char -> bool) (text : pystr) :
  fst (span p text) ++ snd (span p text) = text.
Proof.
  induction text as [|c text IH]; [reflexivity|]. simpl.
  destruct (p c); simpl; [rewrite IH|]; reflexivity.
Qed.

Lemma span_length (p : char -> bool) (text : pystr) :
  (length (snd (span p text)) <= length text)%nat.
Proof.
  induction text as [|c text IH]; [reflexivity|]. simpl.
  destruct (p c); simpl; lia.
Qed.

Lemma quotable_spec (c : char) :
  quotable c = true ->
  c <> ch_backslash /\ c <> ch_nul /\ is_linebreak c = false /\ is_break c = false.
Proof.
  unfold quotable, is_break, is_linebreak. intros H.
  apply andb_prop in H as [Hb Hs]. apply negb_true_iff in Hb, Hs.
  apply N.eqb_neq in Hs. rewrite !orb_false_iff in Hb.
  destruct Hb as (((((H0 & H1) & H2) & H3) & H4) & H5). pose proof H0 as H0'.
  apply N.eqb_neq in H0. rewrite H0', H1, H2, H3, H4, H5. auto.
Qed.

(** One plain character in front of a run is read with the run. *)
Lemma non_spaces_plain (fuel : nat) (x : char) (text : pystr) :
  ends_run x = false ->
  scan_flow_scalar_non_spaces fuel (x :: text)
  = (r <- scan_flow_scalar_non_spaces fuel text ;; Ok (x :: fst r, snd r)).
Proof.
  intros Hx. destruct fuel as [|fuel]; [reflexivity|].
  cbn [scan_flow_scalar_non_spaces span]. rewrite Hx. cbn [negb fst snd].
  destruct (snd (span (fun c => negb (ends_run c)) text)) as [|c rest]; [reflexivity|].
  destruct (c =? 39)%N.
  { destruct (scan_flow_scalar_non_spaces fuel rest); reflexivity. }
  destruct (c =? ch_backslash)%N; [|reflexivity].
  destruct rest as [|e rest2]; [reflexivity|].
  destruct (ESCAPE_REPLACEMENTS e).
  { destruct (scan_flow_scalar_non_spaces fuel rest2); reflexivity. }
  destruct (ESCAPE_CODES e) as [n|].
  { destruct (hex_digits n rest2) as [digits|]; [|reflexivity]. cbn [bind].
    destruct (hex_number 0 digits) as [code|]; [|reflexivity].
    cbn [bind]. destruct (1114111 <? code)%N; [reflexivity|].
    destruct (scan_flow_scalar_non_spaces fuel (drop n rest2)); reflexivity. }
  destruct (is_linebreak e); [|reflexivity].
  destruct (scan_flow_scalar_breaks _ _) as [breaks|]; [|reflexivity].
  cbn [bind]. destruct (scan_flow_scalar_non_spaces fuel (snd breaks)); reflexivity.
Qed.

(** A run over a quoted line stops at the first space or tab, or at the
    closing quote, and unescapes the double quotes on its way. *)
Lemma non_spaces_quoted (s : pystr) :
  forall (fuel : nat) (tail : pystr),
    forallb quotable s = true -> (length s < fuel)%nat ->
    scan_flow_scalar_non_spaces fuel (escape_quotes s ++ ch_dquote :: tail)
    = Ok (fst (span (fun x => negb (is_space_or_tab x)) s),
          escape_quotes (snd (span (fun x => negb (is_space_or_tab x)) s))
          ++ ch_dquote :: tail).
Proof.
  induction s as [|x s IH]; intros fuel tail Hq Hfuel;
    (destruct fuel as [|fuel]; [simpl in Hfuel; lia|]).
  - reflexivity.
  - cbn [forallb] in Hq. apply andb_prop in Hq as [Hx Hq].
    apply quotable_spec in Hx as (Hbs & Hnul & Hlb & _).
    simpl in Hfuel.
    destruct (is_space_or_tab x) eqn:Hsp.
    + (* a space or a tab ends the run *)
      cbn [span]. rewrite Hsp. cbn [negb fst snd].
      assert (Hesc : escape_quotes (x :: s) = x :: escape_quotes s).
      { unfold escape_quotes. cbn [flat_map].
        destruct (N.eqb_spec x ch_dquote) as [->|_]; [discriminate Hsp | reflexivity]. }
      rewrite Hesc. cbn [scan_flow_scalar_non_spaces app span].
      assert (Hend : ends_run x = true)
        by (unfold ends_run; rewrite Hsp, !orb_true_r; reflexivity).
      rewrite Hend. cbn [negb fst snd].
      destruct (N.eqb_spec x 39) as [->|_]; [discriminate Hsp|].
      destruct (N.eqb_spec x ch_backslash) as [->|_]; [congruence|]. reflexivity.
    + cbn [span]. rewrite Hsp. cbn [negb fst snd].
      destruct (N.eqb_spec x ch_dquote) as [->|Hdq].
      * (* an escaped double quote *)
        change (escape_quotes (ch_dquote :: s))
          with (ch_backslash :: ch_dquote :: escape_quotes s).
        cbn [scan_flow_scalar_non_spaces app span]. cbn [fst snd].
        change (ends_run ch_backslash) with true. cbn [negb fst snd].
        change ((ch_backslash =? 39)%N) with false.
        change ((ch_backslash =? ch_backslash)%N) with true.
        change (ESCAPE_REPLACEMENTS ch_dquote) with (Some ch_dquote).
        cbn iota. rewrite (IH fuel tail Hq ltac:(lia)). reflexivity.
      * assert (Hesc : escape_quotes (x :: s) = x :: escape_quotes s).
        { unfold escape_quotes. cbn [flat_map].
          destruct (N.eqb_spec x ch_dquote); [contradiction | reflexivity]. }
        rewrite Hesc. cbn [app].
        destruct (N.eqb_spec x 39) as [->|Hap].
        -- (* an apostrophe is kept *)
           cbn [scan_flow_scalar_non_spaces span]. cbn [fst snd].
           change (ends_run 39) with true. cbn [negb fst snd].
           change ((39 =? 39)%N) with true. cbn iota.
           rewrite (IH fuel tail Hq ltac:(lia)). reflexivity.
        -- (* a plain character *)
           assert (Hend : ends_run x = false).
           { unfold ends_run. rewrite Hsp, Hlb.
             apply N.eqb_neq in Hap, Hdq, Hbs, Hnul.
             rewrite Hap, Hdq, Hbs, Hnul. reflexivity. }
           rewrite (non_spaces_plain (S fuel) x _ Hend).
           rewrite (IH (S fuel) tail Hq ltac:(lia)). reflexivity.
Qed.

Lemma escape_quotes_cons (x : char) (s : pystr) :
  escape_quotes (x :: s)
  = (if (x =? ch_dquote)%N then [ch_backslash; ch_dquote] else [x]) ++ escape_quotes s.
Proof. reflexivity. Qed.

Lemma escape_quotes_length (s : pystr) : (length s <= length (escape_quotes s))%nat.
Proof.
  induction s as [|x s IH]; [reflexivity|]. rewrite escape_quotes_cons, length_app.
  destruct (x =? ch_dquote)%N; simpl; lia.
Qed.

Lemma span_spaces_quoted (s tail : pystr) :
  span is_space_or_tab (escape_quotes s ++ ch_dquote :: tail)
  = (fst (span is_space_or_tab s),
     escape_quotes (snd (span is_space_or_tab s)) ++ ch_dquote :: tail).
Proof.
  induction s as [|x s IH]; [reflexivity|].
  destruct (is_space_or_tab x) eqn:Hsp.
  - assert (Hesc : escape_quotes (x :: s) = x :: escape_quotes s).
    { unfold escape_quotes. cbn [flat_map].
      destruct (N.eqb_spec x ch_dquote) as [->|_]; [discriminate Hsp | reflexivity]. }
    rewrite Hesc. cbn [span app]. rewrite Hsp, IH. reflexivity.
  - cbn [span]. rewrite Hsp. cbn [fst snd].
    rewrite escape_quotes_cons.
    destruct (N.eqb_spec x ch_dquote) as [->|_]; cbn [app span].
    + reflexivity.
    + rewrite Hsp. reflexivity.
Qed.

(** The head of a quoted line and of what follows it is not a NUL and
    not a line break. *)
Lemma quoted_head (s tail : pystr) :
  forallb quotable s = true ->
  exists c rest, escape_quotes s ++ ch_dquote :: tail = c :: rest
                 /\ (c =? ch_nul)%N = false /\ is_linebreak c = false.
Proof.
  destruct s as [|x s]; intros Hq.
  - exists ch_dquote, tail. auto.
  - cbn [forallb] in Hq. apply andb_prop in Hq as [Hx _].
    apply quotable_spec in Hx as (_ & Hnul & Hlb & _).
    rewrite escape_quotes_cons.
    destruct (N.eqb_spec x ch_dquote) as [->|_]; cbn [app].
    + eexists _, _. split; [reflexivity|]. auto.
    + eexists _, _. split; [reflexivity|]. apply N.eqb_neq in Hnul. auto.
Qed.

Lemma spaces_quoted (s tail : pystr) :
  forallb quotable s = true ->
  scan_flow_scalar_spaces (escape_quotes s ++ ch_dquote :: tail)
  = Ok (fst (span is_space_or_tab s),
        escape_quotes (snd (span is_space_or_tab s)) ++ ch_dquote :: tail).
Proof.
  intros Hq. unfold scan_flow_scalar_spaces. rewrite span_spaces_quoted. cbn [fst snd].
  assert (Hq' : forallb quotable (snd (span is_space_or_tab s)) = true).
  { rewrite <- (span_app is_space_or_tab s), forallb_app in Hq.
    apply andb_prop in Hq. apply Hq. }
  destruct (quoted_head _ tail Hq') as (c & rest & -> & Hnul & Hlb).
  rewrite Hnul, Hlb. reflexivity.
Qed.

Lemma forallb_span_snd (p q : char -> bool) (s : pystr) :
  forallb q s = true -> forallb q (snd (span p s)) = true.
Proof.
  intros Hq. rewrite <- (span_app p s), forallb_app in Hq.
  apply andb_prop in Hq. apply Hq.
Qed.

Lemma span_snd_head (p : char -> bool) (s : pystr) :
  match snd (span p s) with
  | [] => True
  | x :: _ => p x = false
  end.
Proof.
  induction s as [|x s IH]; [exact I|]. simpl.
  destruct (p x) eqn:Hx; simpl; [exact IH | exact Hx].
Qed.

Lemma loop_step (fuel : nat) (c : char) (rest : pystr) :
  (c =? ch_dquote)%N = false ->
  scan_flow_scalar_loop (S fuel) (c :: rest)
  = (sp <- scan_flow_scalar_spaces (c :: rest) ;;
     ns <- scan_flow_scalar_non_spaces (S (length (snd sp))) (snd sp) ;;
     more <- scan_flow_scalar_loop fuel (snd ns) ;;
     Ok (fst sp ++ fst ns ++ fst more, snd more)).
Proof. intros H. cbn [scan_flow_scalar_loop]. rewrite H. reflexivity. Qed.

(** The loop of [scan_flow_scalar] reads a quoted line up to its closing
    quote. *)
Lemma loop_quoted (n : nat) :
  forall (s tail : pystr) (fuel : nat),
    (length s <= n)%nat -> forallb quotable s = true ->
    match s with
    | [] => True
    | x :: _ => is_space_or_tab x = true
    end ->
    (length s < fuel)%nat ->
    scan_flow_scalar_loop fuel (escape_quotes s ++ ch_dquote :: tail) = Ok (s, tail).
Proof.
  induction n as [|n IH]; intros s tail fuel Hn Hq Hhead Hfuel;
    (destruct fuel as [|fuel]; [lia|]).
  - destruct s; [|simpl in Hn; lia]. reflexivity.
  - destruct s as [|x s]; [reflexivity|].
    assert (Hx : (x =? ch_dquote)%N = false).
    { destruct (N.eqb_spec x ch_dquote) as [->|_]; [discriminate Hhead | reflexivity]. }
    assert (Hesc : escape_quotes (x :: s) = x :: escape_quotes s).
    { unfold escape_quotes. cbn [flat_map]. rewrite Hx. reflexivity. }
    assert (Htext : escape_quotes (x :: s) ++ ch_dquote :: tail
                    = x :: (escape_quotes s ++ ch_dquote :: tail))
      by (rewrite Hesc; reflexivity).
    rewrite Htext, (loop_step fuel x _ Hx), <- Htext.
    rewrite (spaces_quoted (x :: s) tail Hq). cbn [bind fst snd].
    set (b := snd (span is_space_or_tab (x :: s))).
    assert (Hqb : forallb quotable b = true) by (apply forallb_span_snd, Hq).
    assert (Hlb : (length b < length (x :: s))%nat).
    { subst b. cbn [span]. rewrite Hhead. cbn [snd length].
      pose proof (span_length is_space_or_tab s). lia. }
    rewrite (non_spaces_quoted b _ tail Hqb).
    2:{ rewrite length_app. simpl. pose proof (escape_quotes_length b). lia. }
    cbn [bind fst snd].
    set (b' := snd (span (fun y => negb (is_space_or_tab y)) b)).
    assert (Hqb' : forallb quotable b' = true) by (apply forallb_span_snd, Hqb).
    assert (Hlb' : (length b' <= length b)%nat) by apply span_length.
    rewrite (IH b' tail fuel).
    + cbn [bind fst snd]. f_equal. f_equal.
      subst b'. rewrite span_app. subst b. apply span_app.
    + simpl in Hn, Hlb. lia.
    + exact Hqb'.
    + subst b'. pose proof (span_snd_head (fun y => negb (is_space_or_tab y)) b) as Hh.
      destruct (snd (span (fun y => negb (is_space_or_tab y)) b)); [exact I|].
      apply negb_false_iff in Hh. exact Hh.
    + simpl in Hfuel, Hlb. lia.
Qed.

(** The scanner reads a line the patch has quoted back to the text it
    was, when the text has no backslash. *)
Lemma scan_flow_scalar_quoted (s tail : pystr) :
  forallb quotable s = true ->
  scan_flow_scalar ([ch_dquote] ++ escape_quotes s ++ [ch_dquote] ++ tail)
  = Ok (s, tail).
Proof.
  intros Hq. cbn [app scan_flow_scalar].
  rewrite (non_spaces_quoted s _ tail Hq).
  2:{ rewrite length_app. simpl. pose proof (escape_quotes_length s). lia. }
  cbn [bind fst snd].
  set (b := snd (span (fun y => negb (is_space_or_tab y)) s)).
  assert (Hqb : forallb quotable b = true) by (apply forallb_span_snd, Hq).
  rewrite (loop_quoted (length b) b tail).
  - cbn [bind fst snd]. subst b. rewrite span_app. reflexivity.
  - lia.
  - exact Hqb.
  - subst b. pose proof (span_snd_head (fun y => negb (is_space_or_tab y)) s) as Hh.
    destruct (snd (span (fun y => negb (is_space_or_tab y)) s)); [exact I|].
    apply negb_false_iff in Hh. exact Hh.
  - rewrite length_app. simpl. pose proof (escape_quotes_length b). lia.
Qed.

Lemma quotable_forall (s : pystr) :
  Forall (fun x => is_break x = false) s -> Forall (fun x => x <> ch_backslash) s ->
  forallb quotable s = true.
Proof.
  intros Hb Hs. apply forallb_forall. intros x Hx.
  rewrite List.Forall_forall in Hb, Hs. unfold quotable.
  rewrite (Hb x Hx). pose proof (Hs x Hx) as Hne. apply N.eqb_neq in Hne.
  rewrite Hne. reflexivity.
Qed.

(** A line without a backslash that the patch quotes is read back by
    the scanner as the text it was. *)
Lemma patched_line_decodes (int_parses : pystr -> bool) (r : Reader)
    (spaces s : pystr) (c : char) (rest : pystr) :
  loadable r ->
  unread r = spaces ++ s ++ c :: rest ->
  Forall (eq ch_space) spaces -> head s <> Some ch_space ->
  Forall (fun x => is_break x = false) s -> is_break c = true ->
  s <> [] -> int_parses s = false ->
  Forall (fun x => x <> ch_backslash) s ->
  exists r', patch_buffer_for_unquoted_scalar int_parses r = Ok r'
             /\ scan_flow_scalar (unread r') = Ok (s, c :: rest).
Proof.
  intros Hl Htext Hsp Hhead Hs Hc Hne Hint Hbs.
  destruct (patch_quotes_spec int_parses r spaces s c rest
              Hl Htext Hsp Hhead Hs Hc Hne Hint)
    as (r1 & _ & _ & Hpatch & _ & _ & Hunread).
  cbv zeta in Hpatch, Hunread. eexists. split; [exact Hpatch|].
  rewrite Hunread. rewrite <- !app_assoc.
  apply (scan_flow_scalar_quoted s (c :: rest)), quotable_forall; assumption.
Qed.

Lemma is_substring_nonempty (needle s : pystr) :
  needle <> [] -> is_substring needle s = true -> s <> [].
Proof. intros Hn H ->. destruct needle; [congruence | discriminate H]. Qed.

(** A value on one line that does not parse as an integer, contains a
    double quote and no backslash, is quoted by the patch so that the
    scanner, resuming on the quoted line, reads back the text it was. *)
Lemma quoted_value_decodes (int_parses : pystr -> bool) (r : Reader)
    (spaces s : pystr) (c : char) (rest : pystr) :
  loadable r ->
  unread r = spaces ++ s ++ c :: rest ->
  Forall (eq ch_space) spaces -> head s <> Some ch_space ->
  Forall (fun x => is_break x = false) s -> is_break c = true ->
  int_parses s = false ->
  In ch_dquote s ->
  Forall (fun x => x <> ch_backslash) s ->
  exists r', patch_buffer_for_unquoted_scalar int_parses r = Ok r'
             /\ scan_flow_scalar (unread r') = Ok (s, c :: rest).
Proof.
  intros Hl Htext Hsp Hhead Hs Hc Hint Hdq Hbs.
  apply (patched_line_decodes int_parses r spaces s c rest); try assumption.
  intros ->. destruct Hdq.
Qed.

(** When the hook is triggered on a reader whose line is a text with a
    colon and a space in it and no backslash, it hands
    [super().compose_node] a reader on which the scanner reads a
    double-quoted scalar whose value is the text of the line, colon
    included. *)
Lemma colon_value_decodes (int_parses : pystr -> bool) (Rest : Type)
    (super_compose_node :
       option node -> node_index -> Reader * Rest -> result (node * (Reader * Rest)))
    (parent : option node) (index : node_index) (r : Reader) (x : Rest)
    (spaces s : pystr) (c : char) (rest : pystr) :
  patch_triggered parent index ->
  loadable r ->
  unread r = spaces ++ s ++ c :: rest ->
  Forall (eq ch_space) spaces -> head s <> Some ch_space ->
  Forall (fun x => is_break x = false) s -> is_break c = true ->
  int_parses s = false ->
  is_substring (lit ": ") s = true ->
  Forall (fun x => x <> ch_backslash) s ->
  exists r',
    patch_buffer_for_unquoted_scalar int_parses r = Ok r'
    /\ compose_node int_parses Rest super_compose_node parent index (r, x)
       = super_compose_node parent index (r', x)
    /\ scan_flow_scalar (unread r') = Ok (s, c :: rest).
Proof.
  intros [(ptag & pvalue & ->) (tag & value & -> & Hkey)]
         Hl Htext Hsp Hhead Hs Hc Hint Hsub Hbs.
  destruct (patched_line_decodes int_parses r spaces s c rest) as (r' & Hpatch & Hscan);
    try assumption.
  { apply (is_substring_nonempty (lit ": ") s); [discriminate | exact Hsub]. }
  exists r'. split; [exact Hpatch|]. split; [|exact Hscan].
  unfold compose_node. apply unquoted_key_spec in Hkey. rewrite Hkey.
  cbn [fst snd]. rewrite Hpatch. reflexivity.
Qed.

(* ===================================================================== *)
(** ** The theorems at concrete inputs                                     *)
(* ===================================================================== *)

(** Filtering Work, Home, Work2 by [Work] keeps the workspace Work alone,
    under the index 0: the title Work2 does not match. *)
Lemma filter_exact_witness :
  filter_workspaces three_workspaces (Some [lit "Work"])
  = Ok (PDict [(key "Workspaces", PDict [(AInt 0, work_record)])]).
Proof.
  apply (filter_exact repr_elided Sequence three_workspaces three_records
           (lit "Work") [] true).
  - reflexivity.
  - repeat constructor; eexists; reflexivity.
Defined.

(** A workspace without a title makes the call fail. *)
Lemma missing_field_fails_witness :
  make_bookmarks repr_elided untitled_and_home None true = Raise KeyError.
Proof.
  refine (proj1 (missing_field_fails repr_elided Sequence untitled_and_home
                   [untitled_record; home_record] None true _ _)
                untitled_record _ _).
  - reflexivity.
  - repeat constructor.
    + eexists. split; [reflexivity|]. right.
      exists Sequence, [tab_record "https://w.test" "Tracker"].
      split; [reflexivity|]. repeat constructor. eexists. reflexivity.
    + eexists. split; [reflexivity|]. right.
      exists Sequence, [PDict [(key "url", PStr "https://x.test")]].
      split; [reflexivity|]. repeat constructor. eexists. reflexivity.
  - left. reflexivity.
  - eexists. split; reflexivity.
Defined.

(** C8 as stated fails: a tab without [url] in a workspace that the
    filter drops raises nothing. *)
Lemma missing_url_unrendered_counterexample :
  ~ (forall (repr : pyval -> pystr) (s : shape) (data : pyval) (recs : list pyval)
            (workspaces : option (list pystr)) (wrapped : bool),
        getitem data (PStr "Workspaces") = Ok (coll s recs) ->
        Forall wf_workspace recs ->
        forall r kvs s' tabs t,
          In r recs -> r = PDict kvs ->
          dict_lookup (key "tabs") kvs = Some (coll s' tabs) ->
          In t tabs -> lacks "url" t ->
          make_bookmarks repr data workspaces wrapped = Raise KeyError).
Proof.
  intros H.
  specialize (H repr_elided Sequence broken_and_home [broken_record; home_record]
                (Some [lit "Home"]) false eq_refl).
  assert (Hwf : Forall wf_workspace [broken_record; home_record]).
  { repeat constructor.
    - eexists. split; [reflexivity|]. right. exists Sequence, [PDict []].
      split; [reflexivity|]. repeat constructor. eexists. reflexivity.
    - eexists. split; [reflexivity|]. right.
      exists Sequence, [PDict [(key "url", PStr "https://x.test")]].
      split; [reflexivity|]. repeat constructor. eexists. reflexivity. }
  specialize (H Hwf broken_record _ Sequence [PDict []] (PDict [])
                ltac:(left; reflexivity) eq_refl eq_refl ltac:(left; reflexivity)).
  assert (Hl : lacks "url" (PDict [])) by (eexists; split; reflexivity).
  specialize (H Hl). vm_compute in H. discriminate H.
Qed.

(** The group of the workspace Home has no line that is the heading of
    the outer group. *)
Lemma wrapping_toggle_witness : ~ In wrapper_open home_lines.
Proof.
  apply (proj2 (proj2 (proj2 (wrapping_toggle repr_elided
           (PDict [(key "Workspaces", PList [home_record])]) None)))
           home_lines).
  reflexivity.
Defined.

(** The root dict of the loaded export is in the store after a call
    with a filter as it was before. *)
Lemma make_bookmarks_leaves_input_witness :
  snd (Store.make_bookmarks (fun _ _ => lit "{...}") (fst three_workspaces_store)
         (Some [lit "Work"]) true (snd three_workspaces_store)) !! 8%nat
  = Some (Store.ODict [(key "Workspaces", Store.VRef 7%nat)]).
Proof.
  apply (proj1 (make_bookmarks_leaves_input (fun _ _ => lit "{...}")
                  (fst three_workspaces_store) (Some [lit "Work"]) true
                  (snd three_workspaces_store))).
  reflexivity.
Defined.

(** On a title with a colon and two double quotes the patch puts the
    value between quotes and a backslash before each of its quotes. *)
Lemma patch_quotes_scanned_line_witness :
  exists r',
    patch_buffer_for_unquoted_scalar ascii_int_parses
      (reader_at_value (lit " say " ++ [ch_dquote] ++ lit "hi" ++ [ch_dquote]
                        ++ lit ": ok") (lit "url: x")) = Ok r'
    /\ buffer r' = lit "title: " ++ [ch_dquote] ++ lit "say "
                   ++ [ch_backslash; ch_dquote] ++ lit "hi"
                   ++ [ch_backslash; ch_dquote] ++ lit ": ok" ++ [ch_dquote; ch_lf]
                   ++ lit "url: x" ++ [ch_nul]
    /\ unread r' = [ch_dquote] ++ lit "say " ++ [ch_backslash; ch_dquote] ++ lit "hi"
                   ++ [ch_backslash; ch_dquote] ++ lit ": ok" ++ [ch_dquote; ch_lf]
                   ++ lit "url: x" ++ [ch_nul].
Proof.
  destruct (patch_quotes_scanned_line ascii_int_parses
              (reader_at_value (lit " say " ++ [ch_dquote] ++ lit "hi" ++ [ch_dquote]
                                ++ lit ": ok") (lit "url: x"))
              [ch_space]
              (lit "say " ++ [ch_dquote] ++ lit "hi" ++ [ch_dquote] ++ lit ": ok")
              ch_lf (lit "url: x" ++ [ch_nul]))
    as (r1 & escaped & Hscan & _ & _ & -> & Hpatch & _ & _ & Hunread & _).
  - exact I.
  - reflexivity.
  - repeat constructor.
  - discriminate.
  - repeat constructor.
  - reflexivity.
  - discriminate.
  - reflexivity.
  - vm_compute in Hscan. injection Hscan as <-.
    eexists. split; [exact Hpatch|]. split; [reflexivity | exact Hunread].
Defined.

(** The same when the value is still in the stream and comes in two
    chunks that split it. *)
Lemma patch_quotes_across_chunks :
  exists r',
    patch_buffer_for_unquoted_scalar ascii_int_parses
      (reader_mid_stream (lit " foo: b") (lit "ar" ++ [ch_lf] ++ lit "url: x")) = Ok r'
    /\ buffer r' = [ch_dquote] ++ lit "foo: bar" ++ [ch_dquote] ++ [ch_lf] ++ lit "url: x".
Proof. eexists. split; reflexivity. Qed.

(** On [title: 2024] and on an entry without a value the patch leaves
    the buffer as it is. *)
Lemma patch_leaves_blank_or_integer_witness :
  exists r',
    patch_buffer_for_unquoted_scalar ascii_int_parses
      (reader_at_value (lit " 2024") (lit "url: x")) = Ok r'
    /\ buffer r' = buffer (reader_at_value (lit " 2024") (lit "url: x")).
Proof.
  destruct (patch_leaves_blank_or_integer ascii_int_parses
              (reader_at_value (lit " 2024") (lit "url: x"))
              [ch_space] (lit "2024") ch_lf (lit "url: x" ++ [ch_nul]))
    as (r1 & _ & Hpatch & _ & Hbuf).
  - exact I.
  - reflexivity.
  - repeat constructor.
  - discriminate.
  - repeat constructor.
  - reflexivity.
  - right. reflexivity.
  - exists r1. split; [exact Hpatch | apply Hbuf; reflexivity].
Defined.

(** The hook patches before the value of [title], and not before the
    value of [url]. *)
Lemma compose_node_trigger_witness :
  compose_node ascii_int_parses unit compose_nothing mapping_parent title_key
    (reader_at_value (lit " foo: bar") (lit "url: x"), tt)
  = (r <- patch_buffer_for_unquoted_scalar ascii_int_parses
            (reader_at_value (lit " foo: bar") (lit "url: x")) ;;
     compose_nothing mapping_parent title_key (r, tt))
  /\ compose_node ascii_int_parses unit compose_nothing mapping_parent url_key
       (reader_at_value (lit " foo: bar") (lit "url: x"), tt)
     = compose_nothing mapping_parent url_key
         (reader_at_value (lit " foo: bar") (lit "url: x"), tt).
Proof.
  split.
  - refine (proj1 (compose_node_trigger ascii_int_parses unit compose_nothing
                     mapping_parent title_key
                     (reader_at_value (lit " foo: bar") (lit "url: x"), tt)) _).
    split; [eexists _, _; reflexivity|].
    eexists _, _. split; [reflexivity | left; reflexivity].
  - refine (proj2 (compose_node_trigger ascii_int_parses unit compose_nothing
                     mapping_parent url_key
                     (reader_at_value (lit " foo: bar") (lit "url: x"), tt)) _).
    intros [_ (tag & value & Heq & [Hv|Hv])];
      injection Heq as <- <-; discriminate Hv.
Defined.

(** A value with double quotes and no backslash is read back as it was. *)
Lemma quoted_value_decodes_witness :
  exists r',
    patch_buffer_for_unquoted_scalar ascii_int_parses
      (reader_at_value ([ch_space] ++ lit "say " ++ [ch_dquote] ++ lit "hi" ++ [ch_dquote])
                       (lit "url: x")) = Ok r'
    /\ scan_flow_scalar (unread r')
       = Ok (lit "say " ++ [ch_dquote] ++ lit "hi" ++ [ch_dquote],
             [ch_lf] ++ lit "url: x" ++ [ch_nul]).
Proof.
  apply (quoted_value_decodes ascii_int_parses _ [ch_space]
           (lit "say " ++ [ch_dquote] ++ lit "hi" ++ [ch_dquote]) ch_lf
           (lit "url: x" ++ [ch_nul])).
  - exact I.
  - reflexivity.
  - repeat constructor.
  - discriminate.
  - repeat constructor.
  - reflexivity.
  - reflexivity.
  - simpl. tauto.
  - repeat constructor; discriminate.
Defined.

(** C5: on the export line whose title is [C:\new] and an [x] between
    double quotes, where the reader stands after the colon when the hook
    runs, the patch puts a backslash before
    the two double quotes and leaves the backslash of the value as it is;
    the scanner, resuming on the quoted line, takes that backslash and
    the n for the escape of a line feed: the scalar it reads is not the
    text of the line. *)
Theorem backslash_quote_misread :
  exists r',
    patch_buffer_for_unquoted_scalar ascii_int_parses
      (reader_at_value (lit " C:" ++ [ch_backslash] ++ lit "new " ++ [ch_dquote]
                        ++ lit "x" ++ [ch_dquote]) (lit "url: x")) = Ok r'
    /\ unread r' = [ch_dquote] ++ lit "C:" ++ [ch_backslash] ++ lit "new "
                   ++ [ch_backslash; ch_dquote] ++ lit "x"
                   ++ [ch_backslash; ch_dquote; ch_dquote; ch_lf]
                   ++ lit "url: x" ++ [ch_nul]
    /\ scan_flow_scalar (unread r')
       = Ok (lit "C:" ++ [ch_lf] ++ lit "ew " ++ [ch_dquote] ++ lit "x" ++ [ch_dquote],
             [ch_lf] ++ lit "url: x" ++ [ch_nul])
    /\ lit "C:" ++ [ch_lf] ++ lit "ew " ++ [ch_dquote] ++ lit "x" ++ [ch_dquote]
       <> lit "C:" ++ [ch_backslash] ++ lit "new " ++ [ch_dquote] ++ lit "x"
          ++ [ch_dquote].
Proof.
  eexists. split; [vm_compute; reflexivity|].
  split; [reflexivity|]. split; [reflexivity | discriminate].
Qed.

(** A title with a colon and no backslash reaches the scanner quoted,
    and is read back whole. *)
Lemma colon_value_decodes_witness :
  exists r',
    compose_node ascii_int_parses unit compose_nothing mapping_parent title_key
      (reader_at_value (lit " foo: bar") (lit "url: x"), tt)
    = compose_nothing mapping_parent title_key (r', tt)
    /\ scan_flow_scalar (unread r')
       = Ok (lit "foo: bar", [ch_lf] ++ lit "url: x" ++ [ch_nul]).
Proof.
  destruct (colon_value_decodes ascii_int_parses unit compose_nothing
              mapping_parent title_key
              (reader_at_value (lit " foo: bar") (lit "url: x")) tt
              [ch_space] (lit "foo: bar") ch_lf (lit "url: x" ++ [ch_nul]))
    as (r' & _ & Hcompose & Hscan).
  - split; [eexists _, _; reflexivity|].
    eexists _, _. split; [reflexivity | left; reflexivity].
  - exact I.
  - reflexivity.
  - repeat constructor.
  - discriminate.
  - repeat constructor.
  - reflexivity.
  - reflexivity.
  - reflexivity.
  - repeat constructor; discriminate.
  - exists r'. split; [exact Hcompose | exact Hscan].
Defined.

(** C1: on the export line [title: Files: C:\Users], where the reader
    stands after the colon when the hook runs, the hook quotes the value
    and leaves its backslash as it is; the scanner, resuming on the
    quoted line, takes the backslash and the U for the escape of a code
    point in eight hexadecimal digits, finds none and raises
    [ScannerError]: the value is not loaded. *)
Theorem backslash_title_not_loaded :
  exists r',
    compose_node ascii_int_parses unit compose_nothing mapping_parent title_key
      (reader_at_value (lit " Files: C:" ++ [ch_backslash] ++ lit "Users")
                       (lit "url: x"), tt)
    = compose_nothing mapping_parent title_key (r', tt)
    /\ patch_buffer_for_unquoted_scalar ascii_int_parses
         (reader_at_value (lit " Files: C:" ++ [ch_backslash] ++ lit "Users")
                          (lit "url: x")) = Ok r'
    /\ unread r' = [ch_dquote] ++ lit "Files: C:" ++ [ch_backslash] ++ lit "Users"
                   ++ [ch_dquote; ch_lf] ++ lit "url: x" ++ [ch_nul]
    /\ scan_flow_scalar (unread r') = Raise ScannerError.
Proof.
  eexists. split; [vm_compute; reflexivity|].
  split; [reflexivity|]. split; reflexivity.
Qed.

(** The two shapes of the export with the workspaces Work and Home give
    the same document. *)
Example shapes_agree :
  make_bookmarks repr_elided
    (PDict [(key "Workspaces", PDict [(AInt 0, work_record); (AInt 1, home_record)])])
    None true
  = make_bookmarks repr_elided
      (PDict [(key "Workspaces", PList [work_record; home_record])]) None true.
Proof. reflexivity. Qed.
(* ===================================================================== *)
(** ** The reader with a configurable buffer size: what it loads          *)
(* ===================================================================== *)

Lemma stream_read_fits (size : Z) (text : pystr) :
  fits_ssize_t size = true ->
  stream_read size text
  = Ok (if size <? 0 then (text, [])
        else (take (Z.to_nat size) text, drop (Z.to_nat size) text)).
Proof.
  intros Hfits. unfold stream_read. rewrite Hfits. simpl.
  destruct (size <? 0); reflexivity.
Qed.

Lemma reads_nil (fuel : nat) (size : Z) :
  fits_ssize_t size = true ->
  ConfigurableBufferedReader.reads fuel size [] = Ok [].
Proof.
  intros Hfits. destruct fuel as [|fuel]; [reflexivity|].
  cbn [ConfigurableBufferedReader.reads].
  unfold ConfigurableBufferedReader.update_raw,
    ConfigurableBufferedReader.Reader_update_raw. cbn [fst snd].
  rewrite (stream_read_fits size [] Hfits). destruct (size <? 0); simpl.
  - reflexivity.
  - rewrite take_nil. reflexivity.
Qed.

Lemma stream_text_reads (size : Z) :
  fits_ssize_t size = true -> size <> 0 ->
  forall (fuel : nat) (text : pystr),
    (length text <= fuel)%nat ->
    exists chunks, ConfigurableBufferedReader.reads fuel size text = Ok chunks
                   /\ stream_text chunks = text.
Proof.
  intros Hfits Hsize. induction fuel as [|fuel IH]; intros text Hlen.
  - exists []. split; [reflexivity|]. destruct text; [reflexivity | simpl in Hlen; lia].
  - destruct text as [|c text]; [exists []; split; [apply reads_nil, Hfits | reflexivity]|].
    cbn [ConfigurableBufferedReader.reads].
    unfold ConfigurableBufferedReader.update_raw,
      ConfigurableBufferedReader.Reader_update_raw. cbn [fst snd].
    rewrite (stream_read_fits size (c :: text) Hfits).
    destruct (size <? 0) eqn:Hneg; cbn [bind fst snd].
    + rewrite (reads_nil fuel size Hfits). cbn [bind]. eexists. split; [reflexivity|].
      simpl. rewrite app_nil_r. reflexivity.
    + assert (Hn : exists n, Z.to_nat size = S n) by (exists (Z.to_nat size - 1)%nat; lia).
      destruct Hn as [n Hn]. rewrite Hn. cbn [take drop].
      destruct (IH (drop n text)) as (chunks & Hreads & Htext);
        [rewrite length_drop; simpl in Hlen; lia|].
      rewrite Hreads. cbn [bind]. eexists. split; [reflexivity|].
      rewrite stream_text_cons by discriminate. rewrite Htext.
      simpl. rewrite take_drop. reflexivity.
Qed.

Lemma init_overflow (text : pystr) (buffer_sz : Z) :
  fits_ssize_t buffer_sz = false ->
  ConfigurableBufferedReader.__init__ (TextStream text) buffer_sz = Raise OverflowError.
Proof.
  intros Hfits. unfold ConfigurableBufferedReader.__init__.
  cbn [ConfigurableBufferedReader.reads].
  unfold ConfigurableBufferedReader.update_raw,
    ConfigurableBufferedReader.Reader_update_raw. cbn [fst snd].
  unfold stream_read. rewrite Hfits. reflexivity.
Qed.

Lemma determine_encoding_spec (chunks : list pystr) :
  forall raw0,
    match ConfigurableBufferedReader.determine_encoding chunks raw0 with
    | (raw, eof, chunks') =>
        exists x, raw = Some x
                  /\ x ++ (if eof : bool then [] else stream_text chunks')
                     = default [] raw0 ++ stream_text chunks
    end.
Proof.
  induction chunks as [|data chunks IH]; intros raw0;
    cbn [ConfigurableBufferedReader.determine_encoding].
  - destruct raw0 as [raw|]; simpl.
    + destruct (length raw <? 2)%nat; exists raw; split; reflexivity.
    + exists []. split; reflexivity.
  - destruct (match raw0 with
              | Some raw => (length raw <? 2)%nat
              | None => true
              end) eqn:Hshort.
    + destruct data as [|d data].
      * exists (default [] raw0). split; reflexivity.
      * specialize (IH (Some (default [] raw0 ++ d :: data))).
        destruct (ConfigurableBufferedReader.determine_encoding chunks
                    (Some (default [] raw0 ++ d :: data)))
          as [[raw eof] chunks'].
        destruct IH as (x & -> & Hx). exists x. split; [reflexivity|].
        rewrite Hx. rewrite stream_text_cons by discriminate.
        simpl. rewrite <- app_assoc. reflexivity.
    + destruct raw0 as [raw|]; [|discriminate].
      exists raw. split; reflexivity.
Qed.

Lemma init_stream_spec (text : pystr) (buffer_sz : Z) :
  forallb printable text = true -> buffer_sz <> 0 -> fits_ssize_t buffer_sz = true ->
  exists r, ConfigurableBufferedReader.__init__ (TextStream text) buffer_sz = Ok r
            /\ loadable r /\ unread r = text ++ [ch_nul]
            /\ index r = 0%nat /\ line r = 0%nat /\ column r = 0%nat.
Proof.
  intros Hp Hsize Hfits. unfold ConfigurableBufferedReader.__init__.
  destruct (stream_text_reads buffer_sz Hfits Hsize (S (length text)) text ltac:(lia))
    as (chunks0 & Hreads & Htext0).
  rewrite Hreads. cbn [bind].
  pose proof (determine_encoding_spec chunks0 None) as Hdet.
  destruct (ConfigurableBufferedReader.determine_encoding chunks0 None)
    as [[raw eof0] chunks].
  destruct Hdet as (x & -> & Hx).
  rewrite Htext0 in Hx. simpl in Hx.
  set (r0 := {| buffer := []; pointer := 0; raw_buffer := Some x; eof := eof0;
                stream := chunks; index := 0; line := 0; column := 0 |}).
  assert (Hl : loadable r0) by (unfold loadable, r0; simpl; rewrite Hx; exact Hp).
  destruct (update_spec r0 1 Hl) as (r & Hup & Htext & Hl' & (Hi & Hli & Hc) & _).
  exists r. split; [exact Hup|]. split; [exact Hl'|]. split.
  - rewrite Htext. unfold unread, pending, r0. simpl. rewrite app_assoc, Hx. reflexivity.
  - split; [exact Hi|]. split; [exact Hli | exact Hc].
Qed.

Lemma init_zero (text : pystr) :
  ConfigurableBufferedReader.__init__ (TextStream text) 0 = Ok (reader_of_string []).
Proof.
  unfold ConfigurableBufferedReader.__init__.
  cbn [ConfigurableBufferedReader.reads].
  unfold ConfigurableBufferedReader.update_raw,
    ConfigurableBufferedReader.Reader_update_raw. cbn [fst snd].
  rewrite (stream_read_fits 0 text eq_refl). cbn [Z.ltb Z.compare Z.to_nat bind fst snd].
  rewrite take_0. reflexivity.
Qed.

(** X1: a text stream whose text passes [check_printable], read with a
    buffer size other than zero that fits [Py_ssize_t], gives a reader at
    the start of the input whose unread text is the whole text and the
    final NUL: the same unread text as the reader made from the string.
    With a buffer size that does not fit, the first read of the stream
    raises [OverflowError] and no reader is made. *)
Theorem stream_reader_whole_text (text : pystr) (buffer_sz : Z) :
  forallb printable text = true -> buffer_sz <> 0 ->
  if fits_ssize_t buffer_sz
  then exists r,
         ConfigurableBufferedReader.__init__ (TextStream text) buffer_sz = Ok r
         /\ loadable r /\ unread r = text ++ [ch_nul]
         /\ index r = 0%nat /\ line r = 0%nat /\ column r = 0%nat
         /\ ConfigurableBufferedReader.__init__ (Text text) buffer_sz
            = Ok (reader_of_string text)
         /\ unread (reader_of_string text) = unread r
  else ConfigurableBufferedReader.__init__ (TextStream text) buffer_sz
       = Raise OverflowError.
Proof.
  intros Hp Hsize. destruct (fits_ssize_t buffer_sz) eqn:Hfits;
    [|apply init_overflow, Hfits].
  destruct (init_stream_spec text buffer_sz Hp Hsize Hfits)
    as (r & Hinit & Hl & Htext & Hi & Hli & Hc).
  exists r. do 6 (split; [assumption|]). split.
  - unfold ConfigurableBufferedReader.__init__, check_printable. rewrite Hp. reflexivity.
  - rewrite Htext. unfold unread, reader_of_string, pending. simpl.
    rewrite app_nil_r. reflexivity.
Qed.

(** X2: with a buffer size of zero the stream is never read: whatever
    text it holds, the reader is the reader of the empty string. *)
Theorem zero_buffer_reads_nothing (text : pystr) :
  ConfigurableBufferedReader.__init__ (TextStream text) 0 = Ok (reader_of_string [])
  /\ unread (reader_of_string []) = [ch_nul].
Proof.
  split; [apply init_zero | reflexivity].
Qed.

(* ===================================================================== *)
(** ** The quote patch as a function of the unread text                    *)
(* ===================================================================== *)

Lemma leading_spaces_split (text : pystr) :
  Forall (eq ch_space) (take (leading_spaces text) text)
  /\ head (drop (leading_spaces text) text) <> Some ch_space.
Proof.
  induction text as [|c text [IHa IHb]]; simpl.
  - split; [constructor | discriminate].
  - destruct (N.eqb_spec c ch_space) as [->|Hc]; simpl.
    + split; [constructor; [reflexivity | exact IHa] | exact IHb].
    + split; [constructor | congruence].
Qed.

Lemma first_line_split (text : pystr) :
  existsb is_break text = true ->
  exists c rest, text = first_line text ++ c :: rest /\ is_break c = true
                 /\ Forall (fun x => is_break x = false) (first_line text).
Proof.
  induction text as [|c text IH]; simpl; [discriminate|].
  destruct (is_break c) eqn:Hc; simpl.
  - intros _. exists c, text. split; [reflexivity|]. split; [exact Hc | constructor].
  - intros H. destruct (IH H) as (c' & rest & Heq & Hc' & Hall).
    exists c', rest. split; [f_equal; exact Heq|]. split; [exact Hc'|].
    constructor; [exact Hc | exact Hall].
Qed.

Lemma existsb_break_drop_spaces (text : pystr) :
  existsb is_break text = true ->
  existsb is_break (drop (leading_spaces text) text) = true.
Proof.
  induction text as [|c text IH]; simpl; [discriminate|].
  destruct (N.eqb_spec c ch_space) as [->|Hc]; simpl; [exact IH|].
  intros H. exact H.
Qed.

Lemma first_line_head (text : pystr) :
  head text <> Some ch_space -> head (first_line text) <> Some ch_space.
Proof.
  destruct text as [|c text]; simpl; [intros _; discriminate|].
  destruct (is_break c); simpl; [intros _; discriminate | intros H; exact H].
Qed.

Section PatchTotal.

Variable int_parses : pystr -> bool.

(** The patch on any reader that can load its input and has a line end
    ahead. *)
Lemma patch_spec_total (r : Reader) :
  loadable r -> existsb is_break (unread r) = true ->
  exists r', patch_buffer_for_unquoted_scalar int_parses r = Ok r'
             /\ unread r' = patched_text int_parses (unread r)
             /\ loadable r'
             /\ index r' = (index r + leading_spaces (unread r))%nat
             /\ line r' = line r
             /\ column r' = (column r + leading_spaces (unread r))%nat.
Proof.
  intros Hl Hbreak.
  set (n := leading_spaces (unread r)).
  destruct (leading_spaces_split (unread r)) as [Hsp Hhead]. fold n in Hsp, Hhead.
  pose proof (existsb_break_drop_spaces (unread r) Hbreak) as Hbreak'. fold n in Hbreak'.
  destruct (first_line_split _ Hbreak') as (c & rest & Hsplit & Hc & Hs).
  set (s := first_line (drop n (unread r))) in *.
  assert (Htext : unread r = take n (unread r) ++ s ++ c :: rest)
    by (rewrite <- Hsplit, take_drop; reflexivity).
  assert (Hn : length (take n (unread r)) = n).
  { rewrite length_take. apply Nat.min_l. unfold n.
    clear. induction (unread r) as [|x l IH]; simpl; [lia|].
    destruct (x =? ch_space)%N; simpl; lia. }
  pose proof (first_line_head _ Hhead) as Hhead'. fold s in Hhead'.
  destruct (scan_scalar_spec r _ s c rest Hl Htext Hsp Hhead' Hs Hc)
    as (r1 & Hscan & Htext1 & Hl1 & _ & Hi & Hli & Hco & _).
  rewrite Hn in Hi, Hco.
  unfold patched_text. fold n. fold s.
  destruct ((length s =? 0)%nat || int_parses s) eqn:Hcase.
  - exists r1. split.
    + unfold patch_buffer_for_unquoted_scalar. rewrite Hscan. cbn [bind fst snd].
      unfold quote_scalar. apply orb_true_iff in Hcase as [H0|Hint].
      * rewrite H0. reflexivity.
      * rewrite Hint. destruct (length s =? 0)%nat; reflexivity.
    + split; [rewrite Htext1, Hsplit; reflexivity|].
      split; [exact Hl1|]. split; [exact Hi|]. split; [exact Hli | exact Hco].
  - apply orb_false_iff in Hcase as [H0 Hint].
    assert (Hne : s <> []) by (intros E; rewrite E in H0; discriminate).
    destruct (patch_quotes_spec int_parses r _ s c rest Hl Htext Hsp Hhead' Hs Hc Hne Hint)
      as (r1' & Hscan' & _ & Hpatch & _ & _ & Hunread).
    rewrite Hscan in Hscan'. injection Hscan' as <-. cbv zeta in Hpatch, Hunread.
    eexists. split; [exact Hpatch|]. split.
    + rewrite Hunread, Hsplit, drop_app_length.
      rewrite <- !app_assoc. reflexivity.
    + split; [exact Hl1|]. split; [exact Hi|]. split; [exact Hli | exact Hco].
Qed.

End PatchTotal.

Section PatchOnText.

Variable int_parses : pystr -> bool.

(** X3: on a reader that can load its input and has a line end ahead,
    the patch returns; the unread text it leaves is [patched_text] of the
    unread text it found, whatever part of it was in the buffer; the
    reader has moved over the leading spaces and nothing else. *)
Theorem patch_acts_on_unread_text (r : Reader) :
  loadable r -> existsb is_break (unread r) = true ->
  exists r', patch_buffer_for_unquoted_scalar int_parses r = Ok r'
             /\ unread r' = patched_text int_parses (unread r)
             /\ loadable r'
             /\ index r' = (index r + leading_spaces (unread r))%nat
             /\ line r' = line r
             /\ column r' = (column r + leading_spaces (unread r))%nat.
Proof.
  apply patch_spec_total.
Qed.

(** X4: the patch on the reader of a text stream leaves the same unread
    text for every buffer size other than zero that fits [Py_ssize_t],
    the one it leaves on the reader of the string. *)
Theorem patch_any_buffer_size (text : pystr) (buffer_sz : Z) :
  forallb printable text = true -> buffer_sz <> 0 ->
  fits_ssize_t buffer_sz = true ->
  exists r r' r'',
    ConfigurableBufferedReader.__init__ (TextStream text) buffer_sz = Ok r
    /\ patch_buffer_for_unquoted_scalar int_parses r = Ok r'
    /\ unread r' = patched_text int_parses (text ++ [ch_nul])
    /\ patch_buffer_for_unquoted_scalar int_parses (reader_of_string text) = Ok r''
    /\ unread r'' = unread r'.
Proof.
  intros Hp Hsize Hfits.
  destruct (init_stream_spec text buffer_sz Hp Hsize Hfits)
    as (r & Hinit & Hl & Htext & _).
  assert (Hbreak : existsb is_break (text ++ [ch_nul]) = true).
  { rewrite existsb_app. simpl. apply orb_true_r. }
  destruct (patch_spec_total int_parses r Hl) as (r' & Hpatch & Hun & _);
    [rewrite Htext; exact Hbreak|].
  assert (Htext0 : unread (reader_of_string text) = text ++ [ch_nul]).
  { unfold unread, reader_of_string, pending. simpl. apply app_nil_r. }
  destruct (patch_spec_total int_parses (reader_of_string text) I) as (r'' & Hpatch' & Hun' & _);
    [rewrite Htext0; exact Hbreak|].
  exists r, r', r''. split; [exact Hinit|]. split; [exact Hpatch|].
  rewrite Htext in Hun. rewrite Htext0 in Hun'.
  split; [exact Hun|]. split; [exact Hpatch'|]. rewrite Hun, Hun'. reflexivity.
Qed.

End PatchOnText.
(* ===================================================================== *)
(** ** [make_bookmarks]: the layout of the document and the inputs it
       does not take                                                       *)
(* ===================================================================== *)

Lemma for_enumerate_raises_at {St} (body : St -> Z -> pyval -> result St)
    (items : list pyval) :
  forall (start : Z) (st : St) (i : nat) (x : pyval),
    items !! i = Some x ->
    (forall st', exists e, body st' (start + Z.of_nat i) x = Raise e) ->
    exists e, for_enumerate body start items st = Raise e.
Proof.
  induction items as [|y items IH]; intros start st i x Hi Hbody; [discriminate|].
  cbn [for_enumerate]. destruct i as [|i].
  - injection Hi as ->. destruct (Hbody st) as [e He].
    rewrite Z.add_0_r in He. rewrite He. exists e. reflexivity.
  - destruct (body st start y) as [st'|e]; [|exists e; reflexivity].
    cbn [bind]. apply (IH (start + 1) st' i x Hi).
    intros st''. destruct (Hbody st'') as [e He]. exists e.
    rewrite <- He. f_equal. lia.
Qed.

Lemma for_each_raises_at {St} (body : St -> pyval -> result St) (recs : list pyval) :
  forall (st : St) (r : pyval),
    In r recs -> (forall st', exists e, body st' r = Raise e) ->
    exists e, for_each body recs st = Raise e.
Proof.
  induction recs as [|y recs IH]; intros st r Hin Hbody; [destruct Hin|].
  cbn [for_each]. destruct Hin as [->|Hin].
  - destruct (Hbody st) as [e He]. rewrite He. exists e. reflexivity.
  - destruct (body st y) as [st'|e]; [|exists e; reflexivity].
    cbn [bind]. apply (IH st' r Hin Hbody).
Qed.

Lemma getitem_scalar_title (a : atom) :
  getitem (PAtom a) (PStr "title") = Raise TypeError.
Proof.
  destruct a; reflexivity.
Qed.

Lemma title_in_same (ws ws' : list pystr) (title : pyval) :
  same_titles ws ws' -> title_in title ws = title_in title ws'.
Proof.
  intros Hsame. destruct title as [[| | |s]| |]; try reflexivity. simpl.
  apply eq_true_iff_eq. rewrite !existsb_exists.
  split; intros (t & Hin & Ht); exists t; (split; [apply Hsame, Hin | exact Ht]).
Qed.

Lemma truthy_same (ws ws' : list pystr) :
  same_titles ws ws' -> truthy (Some ws) = truthy (Some ws').
Proof.
  intros Hsame. destruct ws as [|w ws], ws' as [|w' ws']; try reflexivity.
  - destruct (proj2 (Hsame w') (or_introl eq_refl)).
  - destruct (proj1 (Hsame w) (or_introl eq_refl)).
Qed.

Section RendererMore.

Variable repr : pyval -> pystr.

Lemma tab_entry_has_url (out : list pystr) (tab : pyval) :
  has_url tab -> tab_entry repr out tab = Ok (out ++ [link_line repr tab]).
Proof.
  intros (kvs & url & -> & Hurl). unfold tab_entry, link_line, PStr, getitem, get_default.
  fold (key "url"). rewrite Hurl. cbn [bind].
  destruct (dict_lookup (key "title") kvs); reflexivity.
Qed.

Lemma for_each_tab_entry (tabs : list pyval) :
  Forall has_url tabs ->
  forall out, for_each (tab_entry repr) tabs out = Ok (out ++ map (link_line repr) tabs).
Proof.
  induction 1 as [|tab tabs Htab _ IH]; intros out; cbn [for_each map].
  - rewrite app_nil_r. reflexivity.
  - rewrite (tab_entry_has_url out tab Htab). cbn [bind]. rewrite IH.
    rewrite <- app_assoc. reflexivity.
Qed.

Lemma workspace_entry_complete (v : workspace_view) (out : list pystr) :
  complete_workspace v ->
  workspace_entry repr out (view_record v)
  = Ok (out ++ group repr (view_title v) (view_tabs v)).
Proof.
  intros (kvs & Hrec & Htitle & Htabs & Hurls). rewrite Hrec.
  assert (Hget : getitem (PDict kvs) (PStr "title") = Ok (view_title v)).
  { unfold getitem, PStr. fold (key "title"). rewrite Htitle. reflexivity. }
  destruct Htabs as [[Hnone Hempty]|[s Hsome]].
  - unfold workspace_entry. rewrite Hget. cbn [bind].
    unfold contains, dict_has. fold (key "tabs"). rewrite Hnone. cbn [bind].
    unfold group. rewrite Hempty. cbn [map]. rewrite <- !app_assoc. reflexivity.
  - rewrite (workspace_entry_coll repr s (PDict kvs) (view_tabs v)).
    + rewrite Hget. cbn [bind]. rewrite (for_each_tab_entry _ Hurls). cbn [bind].
      unfold group. rewrite <- !app_assoc. reflexivity.
    + unfold contains, dict_has. fold (key "tabs"). rewrite Hsome. reflexivity.
    + unfold getitem, PStr. fold (key "tabs"). rewrite Hsome. reflexivity.
Qed.

Lemma workspace_groups_views (views : list workspace_view) :
  Forall complete_workspace views ->
  forall out,
    for_each (workspace_entry repr) (map view_record views) out
    = Ok (out ++ flat_map (fun v => group repr (view_title v) (view_tabs v)) views).
Proof.
  induction 1 as [|v views Hv _ IH]; intros out; cbn [for_each map flat_map].
  - rewrite app_nil_r. reflexivity.
  - rewrite (workspace_entry_complete v out Hv). cbn [bind]. rewrite IH.
    rewrite <- app_assoc. reflexivity.
Qed.

Lemma complete_has_title (v : workspace_view) :
  complete_workspace v -> getitem (view_record v) (PStr "title") = Ok (view_title v).
Proof.
  intros (kvs & Hrec & Htitle & _). rewrite Hrec.
  unfold getitem, PStr. fold (key "title"). rewrite Htitle. reflexivity.
Qed.

Lemma rendered_records_views (workspaces : option (list pystr))
    (views : list workspace_view) :
  Forall complete_workspace views ->
  rendered_records workspaces (map view_record views)
  = Ok (map view_record (rendered_views workspaces views)).
Proof.
  intros Hall. unfold rendered_records, rendered_views.
  destruct (truthy workspaces); [|reflexivity].
  rewrite select_records_titled.
  - f_equal. induction Hall as [|v views Hv _ IH]; [reflexivity|].
    cbn [map List.filter]. unfold selected at 1.
    rewrite (complete_has_title v Hv).
    destruct (title_in (view_title v) (default [] workspaces));
      cbn [map]; rewrite IH; reflexivity.
  - apply List.Forall_forall. intros r Hin. apply in_map_iff in Hin as (v & <- & Hin).
    rewrite List.Forall_forall in Hall. exists (view_title v).
    apply complete_has_title, Hall, Hin.
Qed.

Lemma filter_workspaces_same (data : pyval) (ws ws' : list pystr) :
  same_titles ws ws' ->
  filter_workspaces data (Some ws) = filter_workspaces data (Some ws').
Proof.
  intros Hsame. unfold filter_workspaces. rewrite (truthy_same ws ws' Hsame).
  destruct (truthy (Some ws')); [|reflexivity].
  destruct (getitem data (PStr "Workspaces")) as [wsv|e]; [|reflexivity]. cbn [bind].
  destruct (iterate wsv) as [items|e]; [|reflexivity]. cbn [bind].
  rewrite (for_enumerate_ext (filter_body data (default [] (Some ws)))
                             (filter_body data (default [] (Some ws')))).
  - reflexivity.
  - intros st i v. unfold filter_body, filter_entry. simpl.
    destruct (select_workspace data i v) as [w|e]; [|reflexivity]. cbn [bind].
    destruct (getitem w (PStr "title")) as [t|e]; [|reflexivity]. cbn [bind].
    rewrite (title_in_same ws ws' t Hsame). reflexivity.
Qed.

Lemma workspace_entry_scalar_tabs (out : list pystr) (kvs : list (atom * pyval))
    (a : atom) :
  dict_lookup (key "tabs") kvs = Some (PAtom a) ->
  (forall s, a <> AStr s) ->
  exists e, workspace_entry repr out (PDict kvs) = Raise e
            /\ (dict_lookup (key "title") kvs <> None -> e = TypeError).
Proof.
  intros Htabs Ha. unfold workspace_entry.
  unfold getitem at 1, PStr. fold (key "title").
  destruct (dict_lookup (key "title") kvs) as [t|].
  - exists TypeError. split; [|reflexivity]. cbn [bind].
    unfold contains, dict_has. fold (key "tabs"). rewrite Htabs. cbn [bind].
    unfold getitem. fold (key "tabs"). rewrite Htabs. cbn [bind].
    destruct a as [| | |s]; try reflexivity. destruct (Ha s eq_refl).
  - exists KeyError. split; [reflexivity|]. intros H. destruct (H eq_refl).
Qed.

End RendererMore.

Section RendererEdges.

Variable repr : pyval -> pystr.

(** X5: on an export whose workspace records are complete (each a
    mapping with a title, its tabs absent or a collection, in either
    shape, of mappings with a url), [make_bookmarks] returns, and the
    document holds, for each rendered workspace in the order of the
    input, the heading of its title, the list opening, one link line for
    each tab in the order of the tabs, and the two closing lines. *)
Theorem make_bookmarks_layout (s : shape) (data : pyval) (views : list workspace_view)
    (workspaces : option (list pystr)) (wrapped : bool) :
  getitem data (PStr "Workspaces") = Ok (coll s (map view_record views)) ->
  Forall complete_workspace views ->
  make_bookmarks repr data workspaces wrapped
  = Ok (document wrapped
          (flat_map (fun v => group repr (view_title v) (view_tabs v))
                    (rendered_views workspaces views))).
Proof.
  intros Hdata Hall.
  rewrite make_bookmarks_document.
  rewrite (workspace_lines_coll repr s data (map view_record views) workspaces Hdata).
  rewrite (rendered_records_views workspaces views Hall). cbn [bind].
  unfold workspace_groups. rewrite workspace_groups_views.
  - reflexivity.
  - unfold rendered_views. destruct (truthy workspaces); [|exact Hall].
    rewrite List.Forall_forall in *. intros v Hin.
    apply filter_In in Hin as [Hin _]. apply Hall, Hin.
Qed.

(** X6: the filter is read as a set of titles: two filters with the same
    members, in any order and with any repetitions, give the same result
    on every input, a raised exception included. *)
Theorem filter_is_a_set (data : pyval) (ws ws' : list pystr) (wrapped : bool) :
  same_titles ws ws' ->
  make_bookmarks repr data (Some ws) wrapped
  = make_bookmarks repr data (Some ws') wrapped.
Proof.
  intros Hsame. unfold make_bookmarks.
  rewrite (filter_workspaces_same data ws ws' Hsame). reflexivity.
Qed.

(** X7: a [Workspaces] mapping with a key that is not equal to its
    position (the keys are not 0, 1, 2, ... in order) is not rendered:
    the call raises, with or without a filter, and what it raises is
    [TypeError] when the first key is the one out of place. *)
Theorem misplaced_key_fails (data : pyval) (kvs : list (atom * pyval))
    (i : nat) (k : atom) (v : pyval) (workspaces : option (list pystr))
    (wrapped : bool) :
  getitem data (PStr "Workspaces") = Ok (PDict kvs) ->
  kvs !! i = Some (k, v) ->
  atom_eqb (AInt (Z.of_nat i)) k = false ->
  (exists e, make_bookmarks repr data workspaces wrapped = Raise e)
  /\ (i = 0%nat -> make_bookmarks repr data workspaces wrapped = Raise TypeError).
Proof.
  intros Hdata Hi Hk.
  assert (Hitem : map (fun kv : atom * pyval => PAtom (fst kv)) kvs !! i = Some (PAtom k))
    by (rewrite list_lookup_fmap, Hi; reflexivity).
  assert (Hsel : select_workspace data (0 + Z.of_nat i) (PAtom k) = Ok (PAtom k))
    by (unfold select_workspace, int_eq; rewrite Z.add_0_l, Hk; reflexivity).
  assert (Hfilter : forall ws st, filter_body data ws st (0 + Z.of_nat i) (PAtom k)
                                  = Raise TypeError).
  { intros ws st. unfold filter_body. rewrite Hsel. cbn [bind].
    unfold filter_entry. rewrite getitem_scalar_title. reflexivity. }
  assert (Hrender : forall out, workspace_body repr data out (0 + Z.of_nat i) (PAtom k)
                                = Raise TypeError).
  { intros out. unfold workspace_body. rewrite Hsel. cbn [bind].
    unfold workspace_entry. rewrite getitem_scalar_title. reflexivity. }
  unfold make_bookmarks, filter_workspaces.
  destruct (truthy workspaces).
  - rewrite Hdata. cbn [bind iterate]. split.
    + destruct (for_enumerate_raises_at (filter_body data (default [] workspaces))
                  _ 0 ([], 0) i (PAtom k) Hitem) as [e He].
      * intros st. exists TypeError. apply Hfilter.
      * exists e. rewrite He. reflexivity.
    + intros ->. destruct kvs as [|[k' v'] kvs]; [discriminate|].
      injection Hi as -> ->. cbn [map for_enumerate fst].
      pose proof (Hfilter (default [] workspaces) ([], 0)) as Hf.
      change (0 + Z.of_nat 0) with 0 in Hf. rewrite Hf. reflexivity.
  - cbn [bind]. unfold render_workspaces. rewrite Hdata. cbn [bind iterate]. split.
    + match goal with
      | |- context [for_enumerate ?b 0 ?items ?out] =>
          destruct (for_enumerate_raises_at b items 0 out i (PAtom k) Hitem) as [e He]
      end.
      * intros out. exists TypeError. apply Hrender.
      * exists e. rewrite He. reflexivity.
    + intros ->. destruct kvs as [|[k' v'] kvs]; [discriminate|].
      injection Hi as -> ->. cbn [map for_enumerate fst].
      match goal with
      | |- context [workspace_body repr data ?out 0 (PAtom k)] =>
          pose proof (Hrender out) as Hf
      end.
      change (0 + Z.of_nat 0) with 0 in Hf. rewrite Hf. reflexivity.
Qed.

(** X8: a rendered workspace whose [tabs] entry is a scalar that is not
    a string (null, a number, a boolean) makes the call raise: the test
    for the key [tabs] lets it through and the loop over it raises
    [TypeError]. *)
Theorem scalar_tabs_fail (s : shape) (data : pyval) (recs : list pyval)
    (kvs : list (atom * pyval)) (a : atom) (workspaces : option (list pystr))
    (wrapped : bool) :
  getitem data (PStr "Workspaces") = Ok (coll s recs) ->
  In (PDict kvs) recs -> rendered workspaces (PDict kvs) ->
  dict_lookup (key "tabs") kvs = Some (PAtom a) ->
  (forall t, a <> AStr t) ->
  (exists e, make_bookmarks repr data workspaces wrapped = Raise e)
  /\ (forall out, dict_lookup (key "title") kvs <> None ->
                  workspace_entry repr out (PDict kvs) = Raise TypeError).
Proof.
  intros Hdata Hin Hr Htabs Ha. split.
  - rewrite make_bookmarks_document.
    rewrite (workspace_lines_coll repr s data recs workspaces Hdata).
    destruct (rendered_records workspaces recs) as [sel|e] eqn:Hsel;
      [|exists e; reflexivity].
    cbn [bind]. unfold workspace_groups.
    destruct (for_each_raises_at (workspace_entry repr) sel [] (PDict kvs)) as [e He].
    + apply (rendered_records_in workspaces recs sel _ Hsel Hin Hr).
    + intros out. destruct (workspace_entry_scalar_tabs repr out kvs a Htabs Ha)
        as (e & He & _). exists e. exact He.
    + exists e. rewrite He. reflexivity.
  - intros out Htitle.
    destruct (workspace_entry_scalar_tabs repr out kvs a Htabs Ha) as (e & He & Hty).
    rewrite He, (Hty Htitle). reflexivity.
Qed.

End RendererEdges.
(* ===================================================================== *)
(** ** The histories of the verbose parser and scanner                    *)
(* ===================================================================== *)

Section ParserHistory.

Variable Event : Type.

Lemma set_current_event_fold (values : list (option Event)) :
  forall p : VerboseParser.Parser Event,
    let p' := fold_left (fun p value => VerboseParser.set_current_event Event value p)
                        values p in
    default [] (VerboseParser._event_history Event p')
    = default [] (VerboseParser._event_history Event p)
      ++ VerboseParser.events_of Event values
    /\ VerboseParser.current_event Event p'
       = default (VerboseParser.current_event Event p) (last values)
    /\ VerboseParser.state Event p' = VerboseParser.state Event p
    /\ (values <> [] -> VerboseParser._event_history Event p' <> None).
Proof.
  induction values as [|value values IH]; intros p; cbn [fold_left].
  - cbn zeta. rewrite app_nil_r. repeat split. intros H. destruct (H eq_refl).
  - specialize (IH (VerboseParser.set_current_event Event value p)).
    cbn zeta in *. destruct IH as (Hh & Hc & Hs & Hn).
    rewrite Hh, Hc, Hs. split; [|split; [|split]].
    + unfold VerboseParser.set_current_event, VerboseParser.events_of. simpl.
      destruct (VerboseParser._event_history Event p) as [h|], value as [e|];
        simpl; rewrite <- ?app_assoc; reflexivity.
    + destruct values as [|v values]; [reflexivity|].
      change (last (value :: v :: values)) with (last (v :: values)).
      destruct (last (v :: values)) eqn:Hlast; [reflexivity|].
      apply last_None in Hlast. discriminate.
    + reflexivity.
    + intros _. destruct values as [|v values]; [|apply Hn; discriminate].
      simpl. discriminate.
Qed.

(** X9: whatever values are assigned to [current_event] after
    [__init__], the history holds the events among them, each once and
    in the order of the assignments, and no [None]; reading the property
    gives the value assigned last. *)
Theorem assigned_events_recorded (events : list Event)
    (values : list (option Event)) :
  let p := fold_left (fun p value => VerboseParser.set_current_event Event value p)
                     values (VerboseParser.__init__ Event events) in
  VerboseParser._event_history Event p = Some (VerboseParser.events_of Event values)
  /\ VerboseParser.current_event Event p = default None (last values).
Proof.
  destruct (set_current_event_fold values (VerboseParser.__init__ Event events))
    as (Hh & Hc & _ & Hn).
  cbn zeta in *. split; [|exact Hc].
  destruct values as [|v values]; [reflexivity|].
  destruct (VerboseParser._event_history Event
              (fold_left (fun p value => VerboseParser.set_current_event Event value p)
                         (v :: values) (VerboseParser.__init__ Event events)))
    as [h|]; [|destruct (Hn ltac:(discriminate) eq_refl)].
  simpl in Hh. rewrite Hh. reflexivity.
Qed.

Lemma produce_spec (p : VerboseParser.Parser Event) (pre : list Event) :
  VerboseParser._event_history Event p = Some (pre ++ VerboseParser.looked_at Event p) ->
  let p1 := VerboseParser.produce Event p in
  VerboseParser._event_history Event p1 = Some (pre ++ VerboseParser.looked_at Event p1)
  /\ VerboseParser.looked_at Event p1 ++ VerboseParser.state Event p1
     = VerboseParser.looked_at Event p ++ VerboseParser.state Event p.
Proof.
  intros Hh. unfold VerboseParser.produce, VerboseParser.looked_at in *.
  destruct (VerboseParser.current_event Event p) as [e|] eqn:Hc.
  - cbn zeta. rewrite Hc. split; [exact Hh | reflexivity].
  - destruct (VerboseParser.state Event p) as [|e es] eqn:Hs.
    + cbn zeta. rewrite Hc, Hs. split; [exact Hh | reflexivity].
    + cbn zeta. unfold VerboseParser.set_current_event. simpl.
      rewrite Hh, app_nil_r. split; reflexivity.
Qed.

Lemma calls_spec (cs : list (VerboseParser.call Event)) :
  forall (p : VerboseParser.Parser Event) (pre : list Event),
    VerboseParser._event_history Event p = Some (pre ++ VerboseParser.looked_at Event p) ->
    let r := VerboseParser.calls Event cs p in
    VerboseParser._event_history Event (snd r) = Some (pre ++ fst r ++ VerboseParser.looked_at Event (snd r))
    /\ fst r ++ VerboseParser.looked_at Event (snd r) ++ VerboseParser.state Event (snd r)
       = VerboseParser.looked_at Event p ++ VerboseParser.state Event p.
Proof.
  induction cs as [|c cs IH]; intros p pre Hh; cbn zeta.
  - simpl. split; [exact Hh | reflexivity].
  - destruct (produce_spec p pre Hh) as [Hh1 Hs1]. cbn zeta in Hh1, Hs1.
    destruct c as [choices| |]; cbn [VerboseParser.calls].
    + unfold VerboseParser.check_event. cbn [snd].
      destruct (IH _ pre Hh1) as [Ha Hb]. cbn zeta in Ha, Hb.
      split; [exact Ha | rewrite Hb; exact Hs1].
    + unfold VerboseParser.peek_event. cbn [snd].
      destruct (IH _ pre Hh1) as [Ha Hb]. cbn zeta in Ha, Hb.
      split; [exact Ha | rewrite Hb; exact Hs1].
    + unfold VerboseParser.get_event. cbn [fst snd].
      set (p1 := VerboseParser.produce Event p) in *.
      set (p2 := VerboseParser.set_current_event Event None p1).
      assert (Hh2 : VerboseParser._event_history Event p2
                    = Some ((pre ++ VerboseParser.looked_at Event p1) ++ VerboseParser.looked_at Event p2)).
      { unfold p2, VerboseParser.set_current_event, VerboseParser.looked_at. simpl.
        rewrite Hh1, app_nil_r. reflexivity. }
      destruct (IH p2 (pre ++ VerboseParser.looked_at Event p1) Hh2) as [Ha Hb]. cbn zeta in Ha, Hb.
      assert (Hcur2 : VerboseParser.looked_at Event p2 ++ VerboseParser.state Event p2
                      = VerboseParser.state Event p1) by reflexivity.
      rewrite Hcur2 in Hb. rewrite <- Hs1.
      destruct (VerboseParser.current_event Event p1) as [e|] eqn:Hc1.
      * assert (Hcur1 : VerboseParser.looked_at Event p1 = [e]) by (unfold VerboseParser.looked_at; rewrite Hc1; reflexivity).
        rewrite Hcur1 in *. cbn [fst snd].
        split; [rewrite Ha, <- !app_assoc; reflexivity|].
        simpl. rewrite Hb. reflexivity.
      * assert (Hcur1 : VerboseParser.looked_at Event p1 = []) by (unfold VerboseParser.looked_at; rewrite Hc1; reflexivity).
        rewrite Hcur1 in *. cbn [fst snd].
        split; [rewrite Ha, app_nil_r; reflexivity|]. simpl. exact Hb.
Qed.

(** X10: through any run of [check_event], [peek_event] and [get_event]
    calls after [__init__], no event is lost, recorded twice or out of
    order: the history holds the events [get_event] has returned
    followed by the current event, and, followed by the events still to
    be produced, these are the events of the parser. *)
Theorem events_recorded_once (events : list Event)
    (cs : list (VerboseParser.call Event)) :
  let r := VerboseParser.calls Event cs (VerboseParser.__init__ Event events) in
  VerboseParser._event_history Event (snd r)
  = Some (fst r ++ VerboseParser.looked_at Event (snd r))
  /\ fst r ++ VerboseParser.looked_at Event (snd r)
       ++ VerboseParser.state Event (snd r) = events.
Proof.
  apply (calls_spec cs (VerboseParser.__init__ Event events) []). reflexivity.
Qed.

End ParserHistory.

Section ScannerHistory.

Variables Token Rest : Type.
Variable need_more_tokens :
  VerboseScanner.Scanner Token Rest -> result (bool * VerboseScanner.Scanner Token Rest).
Variable fetch_more_tokens :
  VerboseScanner.Scanner Token Rest -> result (VerboseScanner.Scanner Token Rest).

Lemma dict_store_numbered (ts : list Token) :
  forall (k : Z) (t : Token),
    dict_store (AInt (k + Z.of_nat (length ts))) t (VerboseScanner.numbered Token k ts)
    = VerboseScanner.numbered Token k (ts ++ [t]).
Proof.
  induction ts as [|t' ts IH]; intros k t.
  - simpl. rewrite Z.add_0_r. reflexivity.
  - cbn [VerboseScanner.numbered dict_store app length].
    rewrite atom_eqb_int_int.
    destruct (Z.eqb_spec (k + Z.of_nat (S (length ts))) k) as [E|_]; [lia|].
    f_equal. rewrite <- IH. f_equal. f_equal. lia.
Qed.

(** The two methods of PyYAML leave [tokens_taken] as it is. *)
Hypothesis need_more_tokens_keeps : forall s more s',
  need_more_tokens s = Ok (more, s') ->
  VerboseScanner.tokens_taken Token Rest s' = VerboseScanner.tokens_taken Token Rest s.
Hypothesis fetch_more_tokens_keeps : forall s s',
  fetch_more_tokens s = Ok s' ->
  VerboseScanner.tokens_taken Token Rest s' = VerboseScanner.tokens_taken Token Rest s.

Lemma fetch_loop_keeps (fuel : nat) :
  forall s s',
    VerboseScanner.fetch_loop Token Rest need_more_tokens fetch_more_tokens fuel s = Ok s' ->
    VerboseScanner.tokens_taken Token Rest s' = VerboseScanner.tokens_taken Token Rest s.
Proof.
  induction fuel as [|fuel IH]; intros s s'; cbn [VerboseScanner.fetch_loop];
    [discriminate|].
  destruct (need_more_tokens s) as [[more s1]|e] eqn:Hmore; [|discriminate].
  cbn [bind fst snd]. pose proof (need_more_tokens_keeps s more s1 Hmore) as H1.
  destruct more.
  - destruct (fetch_more_tokens s1) as [s2|e] eqn:Hfetch; [|discriminate].
    cbn [bind]. intros H. rewrite (IH s2 s' H), (fetch_more_tokens_keeps s1 s2 Hfetch).
    exact H1.
  - intros H. injection H as <-. exact H1.
Qed.

Lemma get_tokens_spec (fuel n : nat) :
  forall (v v' : VerboseScanner.VerboseScanner Token Rest) (given : list Token)
         (results : list (option Token)),
    default [] (VerboseScanner._token_history Token Rest v)
      = VerboseScanner.numbered Token 1 given ->
    VerboseScanner.tokens_taken Token Rest (VerboseScanner.scanner Token Rest v)
      = Z.of_nat (length given) ->
    VerboseScanner.get_tokens Token Rest need_more_tokens fetch_more_tokens fuel n v
      = Ok (results, v') ->
    default [] (VerboseScanner._token_history Token Rest v')
      = VerboseScanner.numbered Token 1 (given ++ omap id results)
    /\ VerboseScanner.tokens_taken Token Rest (VerboseScanner.scanner Token Rest v')
       = Z.of_nat (length (given ++ omap id results)).
Proof.
  induction n as [|n IH]; intros v v' given results Hh Ht;
    cbn [VerboseScanner.get_tokens].
  - intros H. injection H as <- <-. simpl. rewrite app_nil_r. split; assumption.
  - unfold VerboseScanner.get_token.
    destruct (VerboseScanner.fetch_loop Token Rest need_more_tokens fetch_more_tokens
                fuel (VerboseScanner.scanner Token Rest v)) as [s|e] eqn:Hloop;
      [|discriminate].
    cbn [bind]. pose proof (fetch_loop_keeps fuel _ _ Hloop) as Hkeep.
    destruct (VerboseScanner.tokens Token Rest s) as [|t ts]; cbn [bind fst snd].
    + destruct (VerboseScanner.get_tokens Token Rest need_more_tokens fetch_more_tokens
                  fuel n _) as [[rs v1]|e] eqn:Hrest; [|discriminate].
      cbn [bind fst snd]. intros H. injection H as <- <-.
      apply (IH _ _ given rs) in Hrest; [exact Hrest | exact Hh|].
      simpl. rewrite Hkeep. exact Ht.
    + destruct (VerboseScanner.get_tokens Token Rest need_more_tokens fetch_more_tokens
                  fuel n _) as [[rs v1]|e] eqn:Hrest; [|discriminate].
      cbn [bind fst snd]. intros H. injection H as <- <-.
      apply (IH _ _ (given ++ [t]) rs) in Hrest.
      * simpl. rewrite <- !app_assoc in Hrest. exact Hrest.
      * simpl. rewrite Hkeep, Ht.
        change (match VerboseScanner._token_history Token Rest v with
                | Some history => history
                | None => []
                end) with (default [] (VerboseScanner._token_history Token Rest v)).
        rewrite Hh. replace (Z.of_nat (length given) + 1)
          with (1 + Z.of_nat (length given)) by lia.
        apply dict_store_numbered.
      * simpl. rewrite Hkeep, Ht, length_app. simpl. lia.
Qed.

(** X11: on a scanner that has given no token yet, after any number of
    [get_token] calls the history maps 1, 2, 3, ... to the tokens the
    calls have returned, in that order, and [tokens_taken] is their
    number; a call that returns [None] records nothing. *)
Theorem token_history_numbers_tokens (fuel n : nat)
    (v v' : VerboseScanner.VerboseScanner Token Rest)
    (results : list (option Token)) :
  VerboseScanner._token_history Token Rest v = None ->
  VerboseScanner.tokens_taken Token Rest (VerboseScanner.scanner Token Rest v) = 0 ->
  VerboseScanner.get_tokens Token Rest need_more_tokens fetch_more_tokens fuel n v
    = Ok (results, v') ->
  default [] (VerboseScanner._token_history Token Rest v')
    = VerboseScanner.numbered Token 1 (omap id results)
  /\ VerboseScanner.tokens_taken Token Rest (VerboseScanner.scanner Token Rest v')
     = Z.of_nat (length (omap id results)).
Proof.
  intros Hh Ht Hrun.
  apply (get_tokens_spec fuel n v v' [] results); [rewrite Hh; reflexivity | exact Ht | exact Hrun].
Qed.

End ScannerHistory.
(* ===================================================================== *)
(** ** More examples                                                       *)
(* ===================================================================== *)

Lemma stream_reader_whole_text_witness :
  exists r, ConfigurableBufferedReader.__init__ (TextStream small_export) 4 = Ok r
            /\ unread r = small_export ++ [ch_nul].
Proof.
  pose proof (stream_reader_whole_text small_export 4 eq_refl ltac:(discriminate))
    as H.
  change (fits_ssize_t 4) with true in H. cbv iota in H.
  destruct H as (r & Hinit & _ & Htext & _).
  exists r. split; [exact Hinit | exact Htext].
Defined.

Lemma patch_acts_on_unread_text_witness :
  exists r',
    patch_buffer_for_unquoted_scalar ascii_int_parses
      (reader_mid_stream (lit " Plan") (lit ": Q3" ++ [ch_lf] ++ lit "url: x")) = Ok r'
    /\ unread r' = [ch_dquote] ++ lit "Plan: Q3" ++ [ch_dquote; ch_lf]
                   ++ lit "url: x" ++ [ch_nul]
    /\ column r' = 7%nat.
Proof.
  destruct (patch_acts_on_unread_text ascii_int_parses
              (reader_mid_stream (lit " Plan") (lit ": Q3" ++ [ch_lf] ++ lit "url: x")))
    as (r' & Hpatch & Htext & _ & _ & _ & Hcol).
  - reflexivity.
  - reflexivity.
  - exists r'. split; [exact Hpatch|]. split; [exact Htext | exact Hcol].
Defined.

Lemma patch_any_buffer_size_witness :
  exists r r',
    ConfigurableBufferedReader.__init__ (TextStream small_export) 3 = Ok r
    /\ patch_buffer_for_unquoted_scalar ascii_int_parses r = Ok r'
    /\ unread r' = [ch_dquote] ++ lit "Plan: Q3 " ++ [ch_backslash; ch_dquote]
                   ++ lit "draft" ++ [ch_backslash; ch_dquote; ch_dquote; ch_lf]
                   ++ lit "url: x" ++ [ch_nul].
Proof.
  destruct (patch_any_buffer_size ascii_int_parses small_export 3)
    as (r & r' & _ & Hinit & Hpatch & Htext & _).
  - reflexivity.
  - discriminate.
  - reflexivity.
  - exists r, r'. split; [exact Hinit|]. split; [exact Hpatch | exact Htext].
Defined.

Lemma make_bookmarks_layout_witness :
  make_bookmarks repr_elided three_workspaces (Some [lit "Home"]) false
  = Ok (document false home_lines).
Proof.
  apply (make_bookmarks_layout repr_elided Sequence three_workspaces three_views
           (Some [lit "Home"]) false).
  - reflexivity.
  - repeat constructor.
    + eexists. split; [reflexivity|]. split; [reflexivity|]. split.
      * right. exists Sequence. reflexivity.
      * repeat constructor. eexists; eexists; split; reflexivity.
    + eexists. split; [reflexivity|]. split; [reflexivity|]. split.
      * right. exists Sequence. reflexivity.
      * repeat constructor. eexists; eexists; split; reflexivity.
    + eexists. split; [reflexivity|]. split; [reflexivity|]. split.
      * left. split; reflexivity.
      * constructor.
Defined.

Lemma filter_is_a_set_witness :
  make_bookmarks repr_elided three_workspaces (Some [lit "Work"; lit "Home"]) true
  = make_bookmarks repr_elided three_workspaces
      (Some [lit "Home"; lit "Work"; lit "Home"]) true.
Proof.
  apply (filter_is_a_set repr_elided three_workspaces).
  intros t. simpl. tauto.
Defined.

Lemma misplaced_key_fails_witness :
  make_bookmarks repr_elided keyed_from_one None true = Raise TypeError.
Proof.
  apply (misplaced_key_fails repr_elided keyed_from_one
           [(AInt 1, work_record); (AInt 2, home_record)] 0 (AInt 1) work_record None true).
  - reflexivity.
  - reflexivity.
  - reflexivity.
  - reflexivity.
Defined.

Lemma scalar_tabs_fail_witness :
  exists e, make_bookmarks repr_elided home_and_null_tabs None true = Raise e.
Proof.
  apply (scalar_tabs_fail repr_elided Sequence home_and_null_tabs
           [home_record; PDict null_tabs_record] null_tabs_record ANone None true).
  - reflexivity.
  - right. left. reflexivity.
  - left. reflexivity.
  - reflexivity.
  - discriminate.
Defined.

Lemma token_history_numbers_tokens_witness :
  VerboseScanner.get_tokens N pystr one_char_need_more one_char_fetch 2 3
    (one_char_scanner (lit "ab"))
  = Ok ([Some 97%N; Some 98%N; None], two_chars_given)
  /\ default [] (VerboseScanner._token_history N pystr two_chars_given)
     = [(AInt 1, 97%N); (AInt 2, 98%N)].
Proof.
  split; [reflexivity|].
  refine (proj1 (token_history_numbers_tokens N pystr one_char_need_more one_char_fetch
                   _ _ 2 3 (one_char_scanner (lit "ab")) two_chars_given
                   [Some 97%N; Some 98%N; None] _ _ _)).
  - intros s more s' H. unfold one_char_need_more in H. injection H as _ <-. reflexivity.
  - intros s s'. unfold one_char_fetch.
    destruct (VerboseScanner.rest N pystr s); [discriminate|].
    intros H. injection H as <-. reflexivity.
  - reflexivity.
  - reflexivity.
  - reflexivity.
Defined.
